(** * Character card codec and worldbook merge: a shallow embedding

    The card editor keeps a character record as decoded JSON (Python dicts,
    lists, strings, numbers) and moves it in and out of a PNG text chunk.
    This file embeds [deep_empty_card], [read_character], [write_character],
    [process_worldbook] and [import_worldbook] of the editor, together with
    the parts of Python's runtime they call ([dict] and the operators on
    dynamically typed values, [json], [base64], UTF-8 and PIL's text
    chunks), and states the card codec's laws over them.  The helpers
    between the card and the editor's form ([updateOrDeleteKey], the
    tri-state conversions, [safeJSONLoads], the comma-separated boxes,
    the import button and the suggested file name) follow the codec.

    Scope of the model: a Python [float] is an IEEE 754 binary64 number
    (one NaN); the interpreter's default limit of 4300 digits on the
    conversion between [int] and text is applied where the decoder reads
    an integer literal, and the encoder is modelled on the ints within it
    ([wf_json]); the interpreter's recursion limit is not modelled; a PNG
    is its parsed form, an opaque image payload with its text chunks. *)

From Stdlib Require Import List NArith ZArith Bool Lia.
From Stdlib Require Import SpecFloat.
From Stdlib Require DecimalFacts DecimalPos DecimalN DecimalZ.
From Stdlib.Strings Require Import String Ascii Byte.
Import ListNotations.

Set Warnings "-register-all".

(** ** Python text *)

(** A Python [str] is a sequence of Unicode code points. *)
Definition str := list N.

(** Source-text literals: an ASCII literal of the program as a [str]. *)
Definition u (s : string) : str := map N_of_ascii (list_ascii_of_string s).

Fixpoint str_eqb (a b : str) : bool :=
  match a, b with
  | [], [] => true
  | x :: a', y :: b' => N.eqb x y && str_eqb a' b'
  | _, _ => false
  end.

Fixpoint is_prefix (p s : str) : bool :=
  match p, s with
  | [], _ => true
  | x :: p', y :: s' => N.eqb x y && is_prefix p' s'
  | _ :: _, [] => false
  end.

(** [needle in hay] for two strings: substring search. *)
Fixpoint str_contains (needle hay : str) : bool :=
  is_prefix needle hay ||
  match hay with
  | [] => false
  | _ :: hay' => str_contains needle hay'
  end.

(** ** Decoded JSON values

    What [json.loads] produces: [None], [bool], [int], [float], [str],
    [list] and [dict].  A [float] is a binary64 number in the form of
    [SpecFloat]: sign, mantissa and exponent.  A dict keeps its keys in
    insertion order, so it is an association list; keys are unique in
    every dict the program builds, which [wf_json] below records. *)
Unset Elimination Schemes.
Inductive json : Type :=
| JNull
| JBool (b : bool)
| JInt (z : Z)
| JFloat (f : spec_float)
| JStr (s : str)
| JList (l : list json)
| JDict (d : list (str * json)).
Set Elimination Schemes.

Definition dict := list (str * json).

(** ** Exceptions and the error monad *)

Inductive exn : Type :=
| AttributeError
| KeyError
| TypeError
| BinasciiError
| UnicodeDecodeError
| UnicodeEncodeError
| JSONDecodeError
| ValueError
| OverflowError.

Inductive result (A : Type) : Type :=
| Ok (a : A)
| Raise (e : exn).
Arguments Ok {A} a.
Arguments Raise {A} e.

Definition bind {A B} (m : result A) (f : A -> result B) : result B :=
  match m with
  | Ok a => f a
  | Raise e => Raise e
  end.

Declare Scope py_scope.
Delimit Scope py_scope with py.
Notation "x <- m ;; k" := (bind m (fun x => k))
  (at level 61, m at next level, right associativity) : py_scope.
Notation "' pat <- m ;; k" := (bind m (fun x => match x with pat => k end))
  (at level 61, pat pattern, m at next level, right associativity) : py_scope.
Open Scope py_scope.

Fixpoint mapM {A B} (f : A -> result B) (l : list A) : result (list B) :=
  match l with
  | [] => Ok []
  | a :: l' => b <- f a ;; bs <- mapM f l' ;; Ok (b :: bs)
  end.

(** ** Dict primitives (insertion-ordered, unique keys) *)

Fixpoint dict_get (k : str) (d : dict) : option json :=
  match d with
  | [] => None
  | (k', v) :: d' => if str_eqb k k' then Some v else dict_get k d'
  end.

Definition dict_has (k : str) (d : dict) : bool :=
  match dict_get k d with Some _ => true | None => false end.

(** [d[k] = v]: an existing key keeps its position, a new key goes last. *)
Fixpoint dict_set (k : str) (v : json) (d : dict) : dict :=
  match d with
  | [] => [(k, v)]
  | (k', v') :: d' =>
      if str_eqb k k' then (k', v) :: d' else (k', v') :: dict_set k v d'
  end.

(** [del d[k]] for a key that is present. *)
Fixpoint dict_del (k : str) (d : dict) : dict :=
  match d with
  | [] => []
  | (k', v') :: d' => if str_eqb k k' then d' else (k', v') :: dict_del k d'
  end.

(** [a | b]: a copy of [a] updated with every item of [b], in [b]'s order. *)
Definition dict_union (a b : dict) : dict :=
  fold_left (fun acc kv => dict_set (fst kv) (snd kv) acc) b a.

(** The dict built from parsed [key: value] pairs, one assignment each. *)
Definition dict_of_pairs (kvs : list (str * json)) : dict := dict_union [] kvs.

Definition dict_keys (d : dict) : list str := map fst d.
Definition dict_values (d : dict) : list json := map snd d.

(** ** Python floats

    The binary64 numbers: a mantissa below [2^53] and an exponent from
    [-1074] to [971]; a mantissa below [2^52] only at the least exponent
    (the subnormal numbers). *)
Definition valid_float (f : spec_float) : bool :=
  match f with
  | S754_finite _ m e =>
      (Zpos m <? 2 ^ 53)%Z && (-1074 <=? e)%Z && (e <=? 971)%Z
      && ((2 ^ 52 <=? Zpos m)%Z || (e =? -1074)%Z)
  | _ => true
  end.

(** The same float: sign, mantissa and exponent ([==] is [SFeqb]). *)
Definition float_same (a b : spec_float) : bool :=
  match a, b with
  | S754_zero s, S754_zero s' => Bool.eqb s s'
  | S754_infinity s, S754_infinity s' => Bool.eqb s s'
  | S754_nan, S754_nan => true
  | S754_finite s m e, S754_finite s' m' e' =>
      Bool.eqb s s' && Pos.eqb m m' && Z.eqb e e'
  | _, _ => false
  end.

(** [f == z] for a float and an int: the comparison is exact. *)
Definition float_eq_Z (f : spec_float) (z : Z) : bool :=
  match f with
  | S754_zero _ => (z =? 0)%Z
  | S754_finite s m e =>
      let v := if s then Zneg m else Zpos m in
      if (0 <=? e)%Z then (v * 2 ^ e =? z)%Z else (v =? z * 2 ^ (- e))%Z
  | _ => false
  end.

(** ** Python operators on decoded JSON *)

Definition int_of_bool (b : bool) : Z := if b then 1%Z else 0%Z.

(** [float(z)] for an int: the nearest float, [OverflowError] beyond the
    range. *)
Definition float_of_Z (z : Z) : result spec_float :=
  match binary_normalize 53 1024 z 0 false with
  | S754_infinity _ => Raise OverflowError
  | f => Ok f
  end.

(** [a == b].  [bool] is a subclass of [int], so [True == 1]; numbers
    compare by value, so [1.0 == 1], and a NaN equals nothing; dicts
    compare as mappings, whatever the order of their keys. *)
Fixpoint py_eq (a b : json) {struct a} : bool :=
  match a, b with
  | JNull, JNull => true
  | JBool x, JBool y => Bool.eqb x y
  | JBool x, JInt y => Z.eqb (int_of_bool x) y
  | JInt x, JBool y => Z.eqb x (int_of_bool y)
  | JInt x, JInt y => Z.eqb x y
  | JFloat x, JFloat y => SFeqb x y
  | JFloat x, JInt y => float_eq_Z x y
  | JInt x, JFloat y => float_eq_Z y x
  | JFloat x, JBool y => float_eq_Z x (int_of_bool y)
  | JBool x, JFloat y => float_eq_Z y (int_of_bool x)
  | JStr x, JStr y => str_eqb x y
  | JList x, JList y =>
      (fix all2 (x : list json) (y : list json) {struct x} : bool :=
         match x, y with
         | [], [] => true
         | a' :: x', b' :: y' => py_eq a' b' && all2 x' y'
         | _, _ => false
         end) x y
  | JDict x, JDict y =>
      Nat.eqb (List.length x) (List.length y) &&
      (fix sub (x : dict) : bool :=
         match x with
         | [] => true
         | (k, v) :: x' =>
             match dict_get k y with
             | Some v' => py_eq v v'
             | None => false
             end && sub x'
         end) x
  | _, _ => false
  end.

Definition is_list (v : json) : bool :=
  match v with JList _ => true | _ => false end.

Definition is_dict (v : json) : bool :=
  match v with JDict _ => true | _ => false end.

(** [obj.get(k, default)]: only dicts have the method. *)
Definition py_get (obj : json) (k : str) (default : json) : result json :=
  match obj with
  | JDict d => Ok (match dict_get k d with Some v => v | None => default end)
  | _ => Raise AttributeError
  end.

(** [obj[k]] for a string subscript [k]. *)
Definition py_getitem (obj : json) (k : str) : result json :=
  match obj with
  | JDict d => match dict_get k d with Some v => Ok v | None => Raise KeyError end
  | _ => Raise TypeError
  end.

(** [obj[k] = v] for a string subscript [k]. *)
Definition py_setitem (obj : json) (k : str) (v : json) : result json :=
  match obj with
  | JDict d => Ok (JDict (dict_set k v d))
  | _ => Raise TypeError
  end.

(** [del obj[k]] for a string subscript [k]. *)
Definition py_delitem (obj : json) (k : str) : result json :=
  match obj with
  | JDict d => if dict_has k d then Ok (JDict (dict_del k d)) else Raise KeyError
  | _ => Raise TypeError
  end.

(** [k in obj] for a string [k]: key test on a dict, element test on a
    list, substring test on a string; other values are not containers. *)
Definition py_contains (k : str) (obj : json) : result bool :=
  match obj with
  | JDict d => Ok (dict_has k d)
  | JList l => Ok (existsb (py_eq (JStr k)) l)
  | JStr s => Ok (str_contains k s)
  | _ => Raise TypeError
  end.

(** The items a [for] loop visits. *)
Definition py_iter (obj : json) : result (list json) :=
  match obj with
  | JList l => Ok l
  | JDict d => Ok (map JStr (dict_keys d))
  | JStr s => Ok (map (fun c => JStr [c]) s)
  | _ => Raise TypeError
  end.

(** [a += b] (the value then stored back). *)
Definition py_iadd (a b : json) : result json :=
  match a, b with
  | JList x, _ => ys <- py_iter b ;; Ok (JList (x ++ ys))
  | JStr x, JStr y => Ok (JStr (x ++ y))
  | JInt x, JInt y => Ok (JInt (x + y))
  | JInt x, JBool y => Ok (JInt (x + int_of_bool y))
  | JBool x, JInt y => Ok (JInt (int_of_bool x + y))
  | JBool x, JBool y => Ok (JInt (int_of_bool x + int_of_bool y))
  | JFloat x, JFloat y => Ok (JFloat (SFadd 53 1024 x y))
  | JFloat x, JInt y =>
      fy <- float_of_Z y ;; Ok (JFloat (SFadd 53 1024 x fy))
  | JInt x, JFloat y =>
      fx <- float_of_Z x ;; Ok (JFloat (SFadd 53 1024 fx y))
  | JFloat x, JBool y =>
      fy <- float_of_Z (int_of_bool y) ;; Ok (JFloat (SFadd 53 1024 x fy))
  | JBool x, JFloat y =>
      fx <- float_of_Z (int_of_bool x) ;; Ok (JFloat (SFadd 53 1024 fx y))
  | _, _ => Raise TypeError
  end.

(** [a | b]. *)
Definition py_or (a b : json) : result json :=
  match a, b with
  | JDict x, JDict y => Ok (JDict (dict_union x y))
  | JBool x, JBool y => Ok (JBool (x || y))
  | JInt x, JInt y => Ok (JInt (Z.lor x y))
  | JInt x, JBool y => Ok (JInt (Z.lor x (int_of_bool y)))
  | JBool x, JInt y => Ok (JInt (Z.lor (int_of_bool x) y))
  | _, _ => Raise TypeError
  end.

(** ** Card scaffolding *)

Definition base : json :=
  JDict [
    (u "spec", JStr (u "chara_card_v2"));
    (u "spec_version", JStr (u "2.0"));
    (u "data", JDict [
      (u "name", JStr []);
      (u "description", JStr []);
      (u "personality", JStr []);
      (u "scenario", JStr []);
      (u "first_mes", JStr []);
      (u "mes_example", JStr []);
      (u "creator_notes", JStr []);
      (u "system_prompt", JStr []);
      (u "post_history_instructions", JStr []);
      (u "alternate_greetings", JList []);
      (u "tags", JList []);
      (u "creator", JStr []);
      (u "character_version", JStr []);
      (u "extensions", JDict [])
    ])
  ].

(** [json.loads(json.dumps(base))]: a fresh copy, value-equal to [base]. *)
Definition deep_empty_card : json := base.

(** ** Normalization: the tail of [read_character]

    Everything [read_character] does to the decoded JSON, after
    [json.loads].  The object is local and tree-shaped, so each in-place
    assignment is a functional update written back to its parent. *)

(** The loop body: [if not isinstance(entry.get("secondary_keys"), list)]. *)
Definition fix_entry (entry : json) : result json :=
  sk <- py_get entry (u "secondary_keys") JNull ;;
  if negb (is_list sk) then py_setitem entry (u "secondary_keys") (JList [])
  else Ok entry.

(** [for entry in entries: ...].  Only the items of a list are dicts that
    the body can change; the keys of a dict and the characters of a string
    are strings, on which [.get] raises. *)
Definition fix_entries (entries : json) : result json :=
  items <- py_iter entries ;;
  items' <- mapM fix_entry items ;;
  Ok (match entries with JList _ => JList items' | _ => entries end).

Definition normalize (data : json) : result json :=
  spec <- py_get data (u "spec") JNull ;;
  data <- (if negb (py_eq spec (JStr (u "chara_card_v2"))) then
             py_setitem deep_empty_card (u "data") data
           else Ok data) ;;
  d <- py_getitem data (u "data") ;;
  tags <- py_get d (u "tags") (JList []) ;;
  d <- (if negb (is_list tags) then py_setitem d (u "tags") (JList [])
        else Ok d) ;;
  greetings <- py_get d (u "alternate_greetings") (JList []) ;;
  d <- (if negb (is_list greetings)
        then py_setitem d (u "alternate_greetings") (JList [])
        else Ok d) ;;
  has_book <- py_contains (u "character_book") d ;;
  d <- (if has_book then
          book <- py_getitem d (u "character_book") ;;
          has_entries <- py_contains (u "entries") book ;;
          if has_entries then
            entries <- py_getitem book (u "entries") ;;
            entries' <- fix_entries entries ;;
            book' <- py_setitem book (u "entries") entries' ;;
            py_setitem d (u "character_book") book'
          else Ok d
        else Ok d) ;;
  py_setitem data (u "data") d.

(** ** Worldbook helpers

    Both functions assign into their argument.  Each is modelled as a
    function to the contents of the mutated argument after the call,
    paired with the call's outcome; what was assigned before an
    exception stays assigned. *)

(** The body of the loop of [process_worldbook]. *)
Definition strip_entry (entry : json) : result json :=
  has <- py_contains (u "entry") entry ;;
  if has then
    content <- py_get entry (u "content") JNull ;;
    legacy <- py_get entry (u "entry") JNull ;;
    if py_eq content legacy then py_delitem entry (u "entry") else Ok entry
  else Ok entry.

(** The loop over a list of entries: the entries as the loop leaves them,
    and whether it ran to the end. *)
Fixpoint strip_loop (l : list json) : list json * result unit :=
  match l with
  | [] => ([], Ok tt)
  | e :: l' =>
      match strip_entry e with
      | Ok e' => let (l'', r) := strip_loop l' in (e' :: l'', r)
      | Raise x => (e :: l', Raise x)
      end
  end.

(** [for entry in entries: ...] on any value: list items are mutated in
    place; the characters of a string are visited and never changed. *)
Definition strip_entries (entries : json) : json * result unit :=
  match entries with
  | JList l => let (l', r) := strip_loop l in (JList l', r)
  | _ => (entries, items <- py_iter entries ;; _ <- mapM strip_entry items ;; Ok tt)
  end.

(** The branch taken when the document has no ["entries"]: a whole card
    is accepted as a worldbook source. *)
Definition card_fallback (data : json) (d : dict) : result json :=
  if dict_has (u "spec") d then
    spec <- py_getitem data (u "spec") ;;
    if py_eq spec (JStr (u "chara_card_v2")) && dict_has (u "data") d then
      inner <- py_getitem data (u "data") ;;
      has_book <- py_contains (u "character_book") inner ;;
      if has_book then py_getitem inner (u "character_book") else Ok JNull
    else Ok JNull
  else Ok JNull.

(** [process_worldbook data]: the contents of [data] after the call, and
    the value returned ([JNull] for [None]).  On the main path the value
    returned is the argument object itself. *)
Definition process_worldbook (data : json) : json * result json :=
  match data with
  | JDict d =>
      match dict_get (u "entries") d with
      | None => (data, card_fallback data d)
      | Some entries =>
          (* if isinstance(data["entries"], dict): data["entries"] = list(...) *)
          let d1 :=
            match entries with
            | JDict m => dict_set (u "entries") (JList (dict_values m)) d
            | _ => d
            end in
          let entries1 :=
            match entries with
            | JDict m => JList (dict_values m)
            | _ => entries
            end in
          (* the loop changes the items of data["entries"] in place *)
          let (entries2, r) := strip_entries entries1 in
          let data' := JDict (dict_set (u "entries") entries2 d1) in
          (data', _ <- r ;; Ok data')
      end
  | _ => (data, Ok JNull)
  end.

(** A call that assigns into one argument object: from the object's
    contents to its contents afterwards and the outcome.  The state
    survives an exception. *)
Definition St (A : Type) : Type := json -> json * result A.

Definition st_ret {A} (a : A) : St A := fun s => (s, Ok a).

Definition st_bind {A B} (m : St A) (f : A -> St B) : St B :=
  fun s =>
    match m s with
    | (s', Ok a) => f a s'
    | (s', Raise e) => (s', Raise e)
    end.

Notation "x <~ m ;; k" := (st_bind m (fun x => k))
  (at level 61, m at next level, right associativity) : py_scope.

(** An expression that does not read the mutated object. *)
Definition lift {A} (r : result A) : St A := fun s => (s, r).

(** An expression over the mutated object. *)
Definition read {A} (f : json -> result A) : St A := fun s => (s, f s).

(** [obj[k] = v] on the mutated object. *)
Definition assign (k : str) (v : json) : St unit :=
  fun s =>
    match py_setitem s k v with
    | Ok s' => (s', Ok tt)
    | Raise e => (s, Raise e)
    end.

(** [import_worldbook characterBook worldBook], for a [worldBook] that is
    a different object from [characterBook]: the contents of
    [characterBook] after the call, and the outcome (the function returns
    its first argument). *)
Definition import_worldbook (characterBook worldBook : json)
  : json * result json :=
  (desc <~ lift (py_get worldBook (u "description") (JStr [])) ;;
   adopt <~ (if negb (py_eq desc (JStr [])) then
               cur <~ read (fun book => py_get book (u "description") (JStr [])) ;;
               st_ret (py_eq cur (JStr []))
             else st_ret false) ;;
   _ <~ (if adopt then assign (u "description") desc else st_ret tt) ;;
   name <~ lift (py_get worldBook (u "name") (JStr [])) ;;
   adopt <~ (if negb (py_eq name (JStr [])) then
               cur <~ read (fun book => py_get book (u "name") (JStr [])) ;;
               st_ret (py_eq cur (JStr []))
             else st_ret false) ;;
   _ <~ (if adopt then assign (u "name") name else st_ret tt) ;;
   entries <~ read (fun book => py_get book (u "entries") (JList [])) ;;
   _ <~ assign (u "entries") entries ;;
   mine <~ read (fun book => py_getitem book (u "entries")) ;;
   theirs <~ lift (py_getitem worldBook (u "entries")) ;;
   both <~ lift (py_iadd mine theirs) ;;
   _ <~ assign (u "entries") both ;;
   worldExtensions <~ lift (py_get worldBook (u "extensions") (JDict [])) ;;
   characterExtensions <~ read (fun book => py_get book (u "extensions") (JDict [])) ;;
   merged <~ lift (py_or characterExtensions worldExtensions) ;;
   _ <~ assign (u "extensions") merged ;;
   read (fun book => Ok book)) characterBook.

(** ** Bytes and UTF-8 ([str.encode('utf-8')], [bytes.decode('utf-8')]) *)

Definition bytes := list byte.

Definition byte_of_N (n : N) : byte :=
  match Byte.of_N n with
  | Some b => b
  | None => x00
  end.

Definition is_surrogate (c : N) : bool := (0xD800 <=? c)%N && (c <? 0xE000)%N.

Definition utf8_encode_char (c : N) : result (list N) :=
  if (c <? 0x80)%N then Ok [c]
  else if (c <? 0x800)%N then Ok [0xC0 + c / 64; 0x80 + c mod 64]%N
  else if is_surrogate c then Raise UnicodeEncodeError
  else if (c <? 0x10000)%N then
    Ok [0xE0 + c / 4096; 0x80 + (c / 64) mod 64; 0x80 + c mod 64]%N
  else if (c <? 0x110000)%N then
    Ok [0xF0 + c / 262144; 0x80 + (c / 4096) mod 64;
        0x80 + (c / 64) mod 64; 0x80 + c mod 64]%N
  else Raise UnicodeEncodeError.

Fixpoint utf8_encode (s : str) : result bytes :=
  match s with
  | [] => Ok []
  | c :: s' =>
      bs <- utf8_encode_char c ;;
      rest <- utf8_encode s' ;;
      Ok (map byte_of_N bs ++ rest)
  end.

Definition is_cont (b : N) : bool := (0x80 <=? b)%N && (b <? 0xC0)%N.

(** The strict decoder: no overlong forms, no surrogates, nothing above
    U+10FFFF, no truncated sequence. *)
Fixpoint utf8_decode (bs : bytes) : result str :=
  match bs with
  | [] => Ok []
  | b0 :: r0 =>
      let n0 := Byte.to_N b0 in
      if (n0 <? 0x80)%N then
        s <- utf8_decode r0 ;; Ok (n0 :: s)
      else if (n0 <? 0xC2)%N then Raise UnicodeDecodeError
      else
        match r0 with
        | [] => Raise UnicodeDecodeError
        | b1 :: r1 =>
            let n1 := Byte.to_N b1 in
            if negb (is_cont n1) then Raise UnicodeDecodeError
            else if (n0 <? 0xE0)%N then
              s <- utf8_decode r1 ;;
              Ok (((n0 - 0xC0) * 64 + (n1 - 0x80))%N :: s)
            else
              match r1 with
              | [] => Raise UnicodeDecodeError
              | b2 :: r2 =>
                  let n2 := Byte.to_N b2 in
                  if negb (is_cont n2) then Raise UnicodeDecodeError
                  else if (n0 <? 0xF0)%N then
                    let c := ((n0 - 0xE0) * 4096 + (n1 - 0x80) * 64
                              + (n2 - 0x80))%N in
                    if (c <? 0x800)%N || is_surrogate c
                    then Raise UnicodeDecodeError
                    else s <- utf8_decode r2 ;; Ok (c :: s)
                  else
                    match r2 with
                    | [] => Raise UnicodeDecodeError
                    | b3 :: r3 =>
                        let n3 := Byte.to_N b3 in
                        let c := ((n0 - 0xF0) * 262144 + (n1 - 0x80) * 4096
                                  + (n2 - 0x80) * 64 + (n3 - 0x80))%N in
                        if negb (is_cont n3) || (0xF5 <=? n0)%N
                           || (c <? 0x10000)%N || (0x110000 <=? c)%N
                        then Raise UnicodeDecodeError
                        else s <- utf8_decode r3 ;; Ok (c :: s)
                    end
              end
        end
  end.

(** ** Base64 ([base64.b64encode], [base64.b64decode]) *)

(** The alphabet: [A-Z], [a-z], [0-9], [+], [/]. *)
Definition b64_char (i : N) : byte :=
  byte_of_N (if (i <? 26)%N then 65 + i
             else if (i <? 52)%N then 97 + (i - 26)
             else if (i <? 62)%N then 48 + (i - 52)
             else if (i =? 62)%N then 43
             else 47)%N.

Definition b64_index (b : byte) : option N :=
  let c := Byte.to_N b in
  if (65 <=? c)%N && (c <=? 90)%N then Some (c - 65)%N
  else if (97 <=? c)%N && (c <=? 122)%N then Some (c - 97 + 26)%N
  else if (48 <=? c)%N && (c <=? 57)%N then Some (c - 48 + 52)%N
  else if (c =? 43)%N then Some 62%N
  else if (c =? 47)%N then Some 63%N
  else None.

Definition b64_pad : byte := "="%byte.

(** Three bytes to four characters; a last group of one or two bytes is
    padded with [=]. *)
Fixpoint b64encode (bs : bytes) : bytes :=
  match bs with
  | [] => []
  | [a] =>
      let a := Byte.to_N a in
      [b64_char (a / 4); b64_char ((a mod 4) * 16); b64_pad; b64_pad]%N
  | [a; b] =>
      let a := Byte.to_N a in
      let b := Byte.to_N b in
      [b64_char (a / 4); b64_char ((a mod 4) * 16 + b / 16);
       b64_char ((b mod 16) * 4); b64_pad]%N
  | a :: b :: c :: rest =>
      let a := Byte.to_N a in
      let b := Byte.to_N b in
      let c := Byte.to_N c in
      [b64_char (a / 4); b64_char ((a mod 4) * 16 + b / 16);
       b64_char ((b mod 16) * 4 + c / 64); b64_char (c mod 64)]%N
      ++ b64encode rest
  end.

(** The decoder's loop ([binascii.a2b_base64]) in the default, not strict,
    mode, with the shifts and masks of the C code written as
    multiplications, divisions and remainders: characters
    outside the alphabet are skipped; a run of [=] that completes the
    current group of four ends the input; data that stops inside a group
    is an error.  [quad_pos] is the position in the group, [leftchar] the
    bits of the previous character not yet written, [pads] the [=] seen
    since the last data character, [acc] the output so far, reversed. *)
Fixpoint a2b_base64 (s : bytes) (quad_pos leftchar pads : N) (acc : bytes)
  : result bytes :=
  match s with
  | [] => if (quad_pos =? 0)%N then Ok (rev acc) else Raise BinasciiError
  | ch :: s' =>
      if Byte.eqb ch b64_pad then
        if (2 <=? quad_pos)%N then
          if (4 <=? quad_pos + (pads + 1))%N then Ok (rev acc)
          else a2b_base64 s' quad_pos leftchar (pads + 1)%N acc
        else a2b_base64 s' quad_pos leftchar pads acc
      else
        match b64_index ch with
        | None => a2b_base64 s' quad_pos leftchar pads acc
        | Some this_ch =>
            if (quad_pos =? 0)%N then
              a2b_base64 s' 1%N this_ch 0%N acc
            else if (quad_pos =? 1)%N then
              a2b_base64 s' 2%N (this_ch mod 16)%N 0%N
                (byte_of_N (leftchar * 4 + this_ch / 16) :: acc)
            else if (quad_pos =? 2)%N then
              a2b_base64 s' 3%N (this_ch mod 4)%N 0%N
                (byte_of_N (leftchar * 16 + this_ch / 4) :: acc)
            else
              a2b_base64 s' 0%N 0%N 0%N
                (byte_of_N (leftchar * 64 + this_ch) :: acc)
        end
  end.

Definition b64decode (s : bytes) : result bytes := a2b_base64 s 0 0 0 [].

(** ** JSON text: [json.dumps]

    The default encoder: ASCII output, [", "] and [": "] as separators,
    keys in dict order, floats by [float.__repr__], NaN and the
    infinities by their JavaScript names ([allow_nan] is on).  On decoded
    JSON it has nothing to refuse: every key is a [str], every value is of
    a JSON type, and a tree holds no cycle. *)

Definition hex_digit (n : N) : N :=
  if (n <? 10)%N then (48 + n)%N else (97 + (n - 10))%N.

(** [\uXXXX], four lower-case hexadecimal digits. *)
Definition escape_u (n : N) : str :=
  [92; 117; hex_digit (n / 4096); hex_digit ((n / 256) mod 16);
   hex_digit ((n / 16) mod 16); hex_digit (n mod 16)]%N.

Definition escape_char (c : N) : str :=
  if (c =? 34)%N then [92; 34]%N
  else if (c =? 92)%N then [92; 92]%N
  else if (c =? 10)%N then [92; 110]%N
  else if (c =? 13)%N then [92; 114]%N
  else if (c =? 9)%N then [92; 116]%N
  else if (c =? 8)%N then [92; 98]%N
  else if (c =? 12)%N then [92; 102]%N
  else if (32 <=? c)%N && (c <=? 126)%N then [c]
  else if (c <? 0x10000)%N then escape_u c
  else
    let n := (c - 0x10000)%N in
    escape_u (0xD800 + (n / 1024) mod 1024) ++ escape_u (0xDC00 + n mod 1024).

Definition dumps_str (s : str) : str :=
  [34%N] ++ flat_map escape_char s ++ [34%N].

Fixpoint digits_of_uint (d : Decimal.uint) : str :=
  match d with
  | Decimal.Nil => []
  | Decimal.D0 d' => 48%N :: digits_of_uint d'
  | Decimal.D1 d' => 49%N :: digits_of_uint d'
  | Decimal.D2 d' => 50%N :: digits_of_uint d'
  | Decimal.D3 d' => 51%N :: digits_of_uint d'
  | Decimal.D4 d' => 52%N :: digits_of_uint d'
  | Decimal.D5 d' => 53%N :: digits_of_uint d'
  | Decimal.D6 d' => 54%N :: digits_of_uint d'
  | Decimal.D7 d' => 55%N :: digits_of_uint d'
  | Decimal.D8 d' => 56%N :: digits_of_uint d'
  | Decimal.D9 d' => 57%N :: digits_of_uint d'
  end.

Definition dumps_int (z : Z) : str :=
  match Z.to_int z with
  | Decimal.Pos d => digits_of_uint d
  | Decimal.Neg d => 45%N :: digits_of_uint d
  end.

(** [sep.join(parts)]. *)
Fixpoint join (sep : str) (parts : list str) : str :=
  match parts with
  | [] => []
  | p :: rest =>
      match rest with
      | [] => p
      | _ :: _ => p ++ sep ++ join sep rest
      end
  end.

(** ** Floats and decimal text

    [float(text)] gives the float nearest to the decimal number, ties
    going to the even mantissa; [repr(x)] gives the shortest decimal
    number of which [x] is the nearest float. *)

(** Is [n/d >= 2^t]? *)
Definition ratio_ge_pow2 (n d t : Z) : bool :=
  if (0 <=? t)%Z then (d * 2 ^ t <=? n)%Z else (d <=? n * 2 ^ (- t))%Z.

(** The integer part of the binary logarithm of [n/d]. *)
Definition ratio_log2 (n d : Z) : Z :=
  let t := (Z.log2 n - Z.log2 d)%Z in
  if ratio_ge_pow2 n d t then t else (t - 1)%Z.

(** The float nearest to [n/d], for positive [n] and [d]: the exponent
    leaves 53 bits of mantissa, or is the least one; the quotient is
    rounded to the nearest integer, to the even one from half-way; a
    mantissa that reaches [2^53] moves to the next exponent; beyond the
    greatest exponent the result is an infinity. *)
Definition round_ratio (s : bool) (n d : Z) : spec_float :=
  let e := Z.max (ratio_log2 n d - 52) (-1074) in
  let num := if (0 <=? e)%Z then n else (n * 2 ^ (- e))%Z in
  let den := if (0 <=? e)%Z then (d * 2 ^ e)%Z else d in
  let q := (num / den)%Z in
  let r := (num mod den)%Z in
  let m :=
    if (den <? 2 * r)%Z || ((den =? 2 * r)%Z && Z.odd q) then (q + 1)%Z
    else q in
  let e' := if (m =? 2 ^ 53)%Z then (e + 1)%Z else e in
  let m' := if (m =? 2 ^ 53)%Z then (2 ^ 52)%Z else m in
  match m' with
  | Zpos p => if (e' <=? 971)%Z then S754_finite s p e' else S754_infinity s
  | _ => S754_zero s
  end.

(** The float nearest to [D * 10^k]. *)
Definition float_of_decimal (s : bool) (D : N) (k : Z) : spec_float :=
  match D with
  | N0 => S754_zero s
  | Npos _ =>
      if (0 <=? k)%Z then round_ratio s (Z.of_N D * 10 ^ k) 1
      else round_ratio s (Z.of_N D) (10 ^ (- k))
  end.

(** The decimal digits of a number, and the number of a digit string. *)
Definition digits_of_N (n : N) : str := digits_of_uint (N.to_uint n).

Definition digits_value (ds : str) : N :=
  fold_left (fun acc c => (acc * 10 + (c - 48))%N) ds 0%N.

(** [m * 2^e] written exactly as [X * 10^x]. *)
Definition exact_decimal (m : positive) (e : Z) : N * Z :=
  if (0 <=? e)%Z then (Z.to_N (Zpos m * 2 ^ e), 0%Z)
  else (Z.to_N (Zpos m * 5 ^ (- e)), e).

(** The decimal number of [n] digits for [f], when there is one that
    reads back as [f]: [f] cut to [n] digits or the next number of [n]
    digits above it, the nearer to [f] when both read back as [f], the
    even one when they are as near. *)
Definition candidate (f : spec_float) (s : bool) (X : N) (x : Z) (L n : nat)
  : option (N * Z) :=
  let p := (10 ^ N.of_nat (L - n))%N in
  let lo := (X / p)%N in
  let r := (X mod p)%N in
  let hi := (lo + 1)%N in
  let k := (x + Z.of_nat (L - n))%Z in
  let ok_lo := float_same (float_of_decimal s lo k) f in
  let ok_hi := float_same (float_of_decimal s hi k) f in
  if ok_lo && ok_hi then
    Some (if (2 * r <? p)%N then lo
          else if (p <? 2 * r)%N then hi
          else if N.even lo then lo else hi, k)
  else if ok_lo then Some (lo, k)
  else if ok_hi then Some (hi, k)
  else None.

(** The shortest such number, looked for from [n] digits on; 17 digits
    are always enough, and all [L] digits of [f] give [f] itself. *)
Fixpoint shortest (f : spec_float) (s : bool) (X : N) (x : Z) (L : nat)
    (fuel n : nat) : N * Z :=
  match fuel with
  | O => (X, x)
  | S fuel' =>
      if (L <=? n)%nat then (X, x)
      else
        match candidate f s X x L n with
        | Some c => c
        | None => shortest f s X x L fuel' (S n)
        end
  end.

(** Zeros at the end of the digits go into the exponent. *)
Fixpoint strip_zeros (fuel : nat) (D : N) (k : Z) : N * Z :=
  match fuel with
  | O => (D, k)
  | S fuel' =>
      if (D mod 10 =? 0)%N && negb (D =? 0)%N
      then strip_zeros fuel' (D / 10)%N (k + 1)%Z
      else (D, k)
  end.

(** The digits [D] and the exponent [k] of [repr]: [x = D * 10^k]. *)
Definition repr_decimal (s : bool) (m : positive) (e : Z) : N * Z :=
  let (X, x) := exact_decimal m e in
  let L := List.length (digits_of_N X) in
  let (D, k) := shortest (S754_finite s m e) s X x L 17 1 in
  strip_zeros L D k.

(** [e+XX], [e-XX]: at least two digits. *)
Definition exponent_text (x : Z) : str :=
  let ds := digits_of_N (Z.abs_N x) in
  [101%N] ++ [if (x <? 0)%Z then 45%N else 43%N]
  ++ (match ds with [_] => [48%N] | _ => [] end) ++ ds.

(** The digits [D] with the point [k] places from their end: in plain
    notation, or in scientific notation when the point falls more than
    three places before the digits or beyond the sixteenth place. *)
Definition format_decimal (D : N) (k : Z) : str :=
  let ds := digits_of_N D in
  let n := Z.of_nat (List.length ds) in
  let decpt := (n + k)%Z in
  if (decpt <=? -4)%Z || (16 <? decpt)%Z then
    firstn 1 ds
    ++ (match skipn 1 ds with [] => [] | t => 46%N :: t end)
    ++ exponent_text (decpt - 1)
  else if (decpt <=? 0)%Z then
    u "0." ++ repeat 48%N (Z.to_nat (- decpt)) ++ ds
  else if (decpt <? n)%Z then
    firstn (Z.to_nat decpt) ds ++ [46%N] ++ skipn (Z.to_nat decpt) ds
  else
    ds ++ repeat 48%N (Z.to_nat (decpt - n)) ++ u ".0".

(** [float.__repr__]. *)
Definition float_repr (f : spec_float) : str :=
  match f with
  | S754_nan => u "nan"
  | S754_infinity false => u "inf"
  | S754_infinity true => u "-inf"
  | S754_zero false => u "0.0"
  | S754_zero true => u "-0.0"
  | S754_finite s m e =>
      let (D, k) := repr_decimal s m e in
      (if s then [45%N] else []) ++ format_decimal D k
  end.

(** What the encoder writes for a float: [float.__repr__], and the
    JavaScript names of the values that are no numbers. *)
Definition dumps_float (f : spec_float) : str :=
  match f with
  | S754_nan => u "NaN"
  | S754_infinity false => u "Infinity"
  | S754_infinity true => u "-Infinity"
  | _ => float_repr f
  end.

Fixpoint json_dumps (v : json) : str :=
  match v with
  | JNull => u "null"
  | JBool true => u "true"
  | JBool false => u "false"
  | JInt z => dumps_int z
  | JFloat f => dumps_float f
  | JStr s => dumps_str s
  | JList l => u "[" ++ join (u ", ") (map json_dumps l) ++ u "]"
  | JDict d =>
      u "{" ++
      join (u ", ")
        (map (fun kv => dumps_str (fst kv) ++ u ": " ++ json_dumps (snd kv)) d)
      ++ u "}"
  end.

(** The fuel the parser needs for a value. *)
Fixpoint json_size (v : json) : nat :=
  match v with
  | JList l => S (list_sum (map (fun x => S (json_size x)) l))
  | JDict d => S (list_sum (map (fun kv => S (json_size (snd kv))) d))
  | _ => 1
  end.

(** ** JSON text: [json.loads]

    The default decoder (the C scanner): ASCII digits, strict strings,
    no hooks.  Every syntax error is [JSONDecodeError]; an integer
    literal of more than 4300 digits is a [ValueError].  Recursion depth
    is not modelled. *)

Definition is_ws (c : N) : bool :=
  (c =? 32)%N || (c =? 9)%N || (c =? 10)%N || (c =? 13)%N.

Fixpoint skip_ws (s : str) : str :=
  match s with
  | c :: r => if is_ws c then skip_ws r else s
  | [] => []
  end.

Definition is_digit (c : N) : bool := (48 <=? c)%N && (c <=? 57)%N.

(** The digits at the head of the text, and the text after them. *)
Fixpoint span_digits (s : str) : str * str :=
  match s with
  | c :: r =>
      if is_digit c then let (ds, r') := span_digits r in (c :: ds, r')
      else ([], s)
  | [] => ([], [])
  end.

(** A fraction [.d+]: its digits (none when no fraction follows) and the
    text after it. *)
Definition scan_fraction (s : str) : str * str :=
  match s with
  | c :: t =>
      if (c =? 46)%N && match t with c1 :: _ => is_digit c1 | [] => false end
      then span_digits t
      else ([], s)
  | [] => ([], s)
  end.

(** An exponent [[eE][+-]?d+]: its value and the text after it. *)
Definition scan_exponent (s : str) : option (Z * str) :=
  match s with
  | c :: t =>
      if (c =? 101)%N || (c =? 69)%N then
        let (neg, t1) :=
          match t with
          | c1 :: t' =>
              if (c1 =? 43)%N then (false, t')
              else if (c1 =? 45)%N then (true, t')
              else (false, t)
          | [] => (false, t)
          end in
        match span_digits t1 with
        | ([], _) => None
        | (es, rest) =>
            Some (if neg then (- Z.of_N (digits_value es))%Z
                  else Z.of_N (digits_value es), rest)
        end
      else None
  | [] => None
  end.

(** The interpreter's default limit on the digits of an integer
    literal. *)
Definition max_str_digits : nat := 4300.

(** A number after its sign. *)
Definition parse_unsigned (neg : bool) (s1 : str) : result (json * str) :=
  match s1 with
  | c :: r =>
      if is_digit c then
        let (ip, rest) := if (c =? 48)%N then ([c], r) else span_digits s1 in
        let (fs, rest1) := scan_fraction rest in
        match scan_exponent rest1, fs with
        | Some (E, rest2), _ =>
            Ok (JFloat (float_of_decimal neg (digits_value (ip ++ fs))
                          (E - Z.of_nat (List.length fs))), rest2)
        | None, _ :: _ =>
            Ok (JFloat (float_of_decimal neg (digits_value (ip ++ fs))
                          (- Z.of_nat (List.length fs))), rest1)
        | None, [] =>
            if (max_str_digits <? List.length ip)%nat then Raise ValueError
            else
              let z := Z.of_N (digits_value ip) in
              Ok (JInt (if neg then (- z)%Z else z), rest1)
        end
      else if is_prefix (u "Infinity") s1 then
        Ok (JFloat (S754_infinity neg), skipn 8 s1)
      else Raise JSONDecodeError
  | [] => Raise JSONDecodeError
  end.

Definition parse_number (s : str) : result (json * str) :=
  match s with
  | c :: r => if (c =? 45)%N then parse_unsigned true r else parse_unsigned false s
  | [] => Raise JSONDecodeError
  end.

Definition hex_value (c : N) : option N :=
  if (48 <=? c)%N && (c <=? 57)%N then Some (c - 48)%N
  else if (97 <=? c)%N && (c <=? 102)%N then Some (c - 97 + 10)%N
  else if (65 <=? c)%N && (c <=? 70)%N then Some (c - 65 + 10)%N
  else None.

Definition hex4 (h1 h2 h3 h4 : N) : option N :=
  match hex_value h1, hex_value h2, hex_value h3, hex_value h4 with
  | Some a, Some b, Some c, Some d => Some (a * 4096 + b * 256 + c * 16 + d)%N
  | _, _, _, _ => None
  end.

Definition is_high (c : N) : bool := (0xD800 <=? c)%N && (c <=? 0xDBFF)%N.
Definition is_low (c : N) : bool := (0xDC00 <=? c)%N && (c <=? 0xDFFF)%N.

Definition unescape (e : N) : option N :=
  if (e =? 34)%N then Some 34%N
  else if (e =? 92)%N then Some 92%N
  else if (e =? 47)%N then Some 47%N
  else if (e =? 98)%N then Some 8%N
  else if (e =? 102)%N then Some 12%N
  else if (e =? 110)%N then Some 10%N
  else if (e =? 114)%N then Some 13%N
  else if (e =? 116)%N then Some 9%N
  else None.

Definition push (c : N) (m : result (str * str)) : result (str * str) :=
  '(x, r) <- m ;; Ok (c :: x, r).

(** The text after an opening quote, up to the closing quote.  A
    [\uXXXX] high surrogate directly followed by a [\uXXXX] low
    surrogate is one code point. *)
Fixpoint scan_string (s : str) : result (str * str) :=
  match s with
  | [] => Raise JSONDecodeError
  | c :: r =>
      if (c =? 34)%N then Ok ([], r)
      else if (c =? 92)%N then
        match r with
        | [] => Raise JSONDecodeError
        | e :: r1 =>
            if (e =? 117)%N then
              match r1 with
              | h1 :: h2 :: h3 :: h4 :: r2 =>
                  match hex4 h1 h2 h3 h4 with
                  | None => Raise JSONDecodeError
                  | Some uni =>
                      match r2 with
                      | b :: v :: g1 :: g2 :: g3 :: g4 :: r3 =>
                          if is_high uni && (b =? 92)%N && (v =? 117)%N then
                            match hex4 g1 g2 g3 g4 with
                            | None => Raise JSONDecodeError
                            | Some uni2 =>
                                if is_low uni2 then
                                  push (0x10000 + (uni - 0xD800) * 1024
                                        + (uni2 - 0xDC00))%N (scan_string r3)
                                else push uni (scan_string r2)
                            end
                          else push uni (scan_string r2)
                      | _ => push uni (scan_string r2)
                      end
                  end
              | _ => Raise JSONDecodeError
              end
            else
              match unescape e with
              | Some c' => push c' (scan_string r1)
              | None => Raise JSONDecodeError
              end
        end
      else if (c <? 32)%N then Raise JSONDecodeError
      else push c (scan_string r)
  end.

Definition starts_with (c : N) (s : str) : bool :=
  match s with
  | c' :: _ => (c =? c')%N
  | [] => false
  end.

Fixpoint parse_value (fuel : nat) (s : str) {struct fuel} : result (json * str) :=
  match fuel with
  | O => Raise JSONDecodeError
  | S f =>
      match s with
      | [] => Raise JSONDecodeError
      | c :: r =>
          if (c =? 34)%N then
            '(x, r') <- scan_string r ;; Ok (JStr x, r')
          else if (c =? 123)%N then
            if starts_with 125 (skip_ws r) then Ok (JDict [], tl (skip_ws r))
            else '(kvs, r') <- parse_members f (skip_ws r) ;;
                 Ok (JDict (dict_of_pairs kvs), r')
          else if (c =? 91)%N then
            if starts_with 93 (skip_ws r) then Ok (JList [], tl (skip_ws r))
            else '(l, r') <- parse_items f (skip_ws r) ;; Ok (JList l, r')
          else if is_prefix (u "null") s then Ok (JNull, skipn 4 s)
          else if is_prefix (u "true") s then Ok (JBool true, skipn 4 s)
          else if is_prefix (u "false") s then Ok (JBool false, skipn 5 s)
          else if is_prefix (u "NaN") s then Ok (JFloat S754_nan, skipn 3 s)
          else parse_number s
      end
  end

with parse_items (fuel : nat) (s : str) {struct fuel} : result (list json * str) :=
  match fuel with
  | O => Raise JSONDecodeError
  | S f =>
      '(v, r) <- parse_value f s ;;
      match skip_ws r with
      | c :: r' =>
          if (c =? 93)%N then Ok ([v], r')
          else if (c =? 44)%N then
            '(l, r'') <- parse_items f (skip_ws r') ;; Ok (v :: l, r'')
          else Raise JSONDecodeError
      | [] => Raise JSONDecodeError
      end
  end

with parse_members (fuel : nat) (s : str) {struct fuel} : result (dict * str) :=
  match fuel with
  | O => Raise JSONDecodeError
  | S f =>
      match s with
      | q :: r =>
          if (q =? 34)%N then
            '(k, r1) <- scan_string r ;;
            match skip_ws r1 with
            | colon :: r2 =>
                if (colon =? 58)%N then
                  '(v, r3) <- parse_value f (skip_ws r2) ;;
                  match skip_ws r3 with
                  | c :: r4 =>
                      if (c =? 125)%N then Ok ([(k, v)], r4)
                      else if (c =? 44)%N then
                        '(kvs, r5) <- parse_members f (skip_ws r4) ;;
                        Ok ((k, v) :: kvs, r5)
                      else Raise JSONDecodeError
                  | [] => Raise JSONDecodeError
                  end
                else Raise JSONDecodeError
            | [] => Raise JSONDecodeError
            end
          else Raise JSONDecodeError
      | [] => Raise JSONDecodeError
      end
  end.

Definition json_loads (s : str) : result json :=
  if starts_with 0xFEFF s then Raise JSONDecodeError
  else
    '(v, r) <- parse_value (S (List.length s)) (skip_ws s) ;;
    match skip_ws r with
    | [] => Ok v
    | _ :: _ => Raise JSONDecodeError
    end.

(** ** The PNG container (PIL)

    The image payload is opaque; the text chunks are the [key, value]
    entries in file order.  [image.text] is the dict read from them, so a
    later chunk with the same key hides an earlier one. *)
Record png : Type := { pixels : bytes; chunks : list (str * str) }.

Definition png_text (image : png) (k : str) : option str :=
  fold_left (fun found kv => if str_eqb k (fst kv) then Some (snd kv) else found)
            (chunks image) None.

(** [PngInfo()], [PngInfo.add_text] and [image.save(path, 'PNG', pnginfo=...)]:
    the saved file carries the chunks of [pnginfo] and no other text. *)
Definition PngInfo : list (str * str) := [].
Definition add_text (info : list (str * str)) (k v : str) : list (str * str) :=
  info ++ [(k, v)].
Definition save (image : png) (pnginfo : list (str * str)) : png :=
  {| pixels := pixels image; chunks := pnginfo |}.

(** ** The codec entry points

    [path] is modelled by the PNG stored there: [read_character] takes the
    file's contents, [write_character] returns its new contents. *)

Definition read_character (image : png) : result json :=
  match png_text image (u "chara") with
  | None => Ok deep_empty_card
  | Some user_comment =>
      base64_bytes <- utf8_encode user_comment ;;
      json_bytes <- b64decode base64_bytes ;;
      json_str <- utf8_decode json_bytes ;;
      data <- json_loads json_str ;;
      normalize data
  end.

Definition write_character (image : png) (data : json) : result png :=
  let json_str := json_dumps data in
  json_bytes <- utf8_encode json_str ;;
  base64_str <- utf8_decode (b64encode json_bytes) ;;
  let metadata := add_text PngInfo (u "chara") base64_str in
  Ok (save image metadata).

(** ** Well-formed values and valid cards *)

(** A [str] that [json.dumps] and [json.loads] carry unchanged: code
    points below 0x110000, and no high surrogate directly before a low
    one (the decoder would join the two escapes). *)
Fixpoint wf_str (s : str) : bool :=
  match s with
  | [] => true
  | c :: r =>
      (c <? 0x110000)%N
      && negb (is_high c && match r with c2 :: _ => is_low c2 | [] => false end)
      && wf_str r
  end.

Fixpoint nodup_keys (l : list str) : bool :=
  match l with
  | [] => true
  | k :: r => negb (existsb (str_eqb k) r) && nodup_keys r
  end.

(** Decoded JSON as Python holds it and [json] writes and reads it: every
    dict has distinct keys, every float is a binary64 number, every int
    has no more digits than the interpreter converts. *)
Fixpoint wf_json (v : json) : bool :=
  match v with
  | JInt z => (List.length (digits_of_N (Z.abs_N z)) <=? max_str_digits)%nat
  | JFloat f => valid_float f
  | JStr s => wf_str s
  | JList l => forallb wf_json l
  | JDict d =>
      nodup_keys (dict_keys d)
      && forallb (fun kv => wf_str (fst kv) && wf_json (snd kv)) d
  | _ => true
  end.

(** No NaN anywhere in a value: the values that Python's [==] finds equal
    to themselves. *)
Fixpoint nan_free (v : json) : bool :=
  match v with
  | JFloat S754_nan => false
  | JList l => forallb nan_free l
  | JDict d => forallb (fun kv => nan_free (snd kv)) d
  | _ => true
  end.

Definition list_or_absent (k : str) (d : dict) : bool :=
  match dict_get k d with
  | None | Some (JList _) => true
  | Some _ => false
  end.

Definition valid_entry (entry : json) : bool :=
  match entry with
  | JDict e =>
      match dict_get (u "secondary_keys") e with
      | Some (JList _) => true
      | _ => false
      end
  | _ => false
  end.

Definition valid_book (book : json) : bool :=
  match book with
  | JDict b =>
      match dict_get (u "entries") b with
      | None => true
      | Some (JList l) => forallb valid_entry l
      | Some _ => false
      end
  | _ => false
  end.

(** The schema invariants of a card: [spec] is ["chara_card_v2"], [data]
    is a mapping, [tags] and [alternate_greetings] are sequences where
    present, and a character book is a mapping whose entries form a
    sequence of mappings with a sequence [secondary_keys] each. *)
Definition valid_card (c : json) : bool :=
  match c with
  | JDict top =>
      match dict_get (u "spec") top, dict_get (u "data") top with
      | Some (JStr sp), Some (JDict d) =>
          str_eqb sp (u "chara_card_v2")
          && list_or_absent (u "tags") d
          && list_or_absent (u "alternate_greetings") d
          && match dict_get (u "character_book") d with
             | None => true
             | Some book => valid_book book
             end
      | _, _ => false
      end
  | _ => false
  end.

(** The decoding failures of a present ["chara"] entry: [binascii.Error],
    [UnicodeDecodeError], [json.JSONDecodeError] and the [ValueError] of
    an integer literal beyond the digit limit.  In Python the first three
    are subclasses of [ValueError]. *)
Definition CorruptCardMetadata (e : exn) : Prop :=
  e = BinasciiError \/ e = UnicodeDecodeError \/ e = JSONDecodeError
  \/ e = ValueError.

(** ** Reading the merge and the worldbook branches *)

(** [d.get(k, default)] on a dict. *)
Definition field (k : str) (default : json) (d : dict) : json :=
  match dict_get k d with
  | Some v => v
  | None => default
  end.

(** The test of the precedence rule for [description] and [name]: the
    worldbook's value is not [""] and the book's value is [""]. *)
Definition adopts (k : str) (b w : dict) : bool :=
  negb (py_eq (field k (JStr []) w) (JStr []))
  && py_eq (field k (JStr []) b) (JStr []).

Definition adopt (k : str) (b w : dict) : dict :=
  if adopts k b w then dict_set k (field k (JStr []) w) b else b.

(** Does the document carry an ["entries"] field? *)
Definition has_entries (data : json) : bool :=
  match data with
  | JDict d => dict_has (u "entries") d
  | _ => false
  end.

(** ** Sample documents *)

Definition lore (content : string) : json :=
  JDict [(u "keys", JList []); (u "content", JStr (u content))].

(** A worldbook in the legacy form: entries keyed by id, the first one
    with its content repeated under ["entry"]. *)
Definition legacy_worldbook : json :=
  JDict [
    (u "entries", JDict [
      (u "0", JDict [(u "entry", JStr (u "x")); (u "content", JStr (u "x"))]);
      (u "1", JDict [(u "entry", JStr (u "x")); (u "content", JStr (u "y"))])
    ])
  ].

(** A whole card whose character book has no ["entries"]. *)
Definition card_with_empty_book : json :=
  JDict [
    (u "spec", JStr (u "chara_card_v2"));
    (u "spec_version", JStr (u "2.0"));
    (u "data", JDict [(u "name", JStr (u "Foo")); (u "character_book", JDict [])])
  ].

(** A card whose character book keeps its entries in a keyed mapping. *)
Definition card_with_mapping_entries (entries : dict) : json :=
  JDict [
    (u "spec", JStr (u "chara_card_v2"));
    (u "spec_version", JStr (u "2.0"));
    (u "data", JDict [
      (u "name", JStr (u "Foo"));
      (u "character_book", JDict [(u "entries", JDict entries)])
    ])
  ].

(** A book holding one entry and a worldbook holding two, with
    colliding extensions. *)
Definition book_E1 : json :=
  JDict [(u "description", JStr []); (u "extensions", JDict [(u "a", JInt 1)]);
         (u "entries", JList [lore "E1"])].

Definition worldbook_E2_E3 : json :=
  JDict [(u "description", JStr (u "W"));
         (u "extensions", JDict [(u "a", JInt 2); (u "b", JInt 3)]);
         (u "entries", JList [lore "E2"; lore "E3"])].

(** ** Normalization, statement by statement *)

(** Lines 105-108: a document whose [spec] is not ["chara_card_v2"]
    becomes the [data] of a fresh card. *)
Definition wrap_legacy (data : json) : result json :=
  spec <- py_get data (u "spec") JNull ;;
  if negb (py_eq spec (JStr (u "chara_card_v2"))) then
    py_setitem deep_empty_card (u "data") data
  else Ok data.

(** Lines 109-112: [tags] and [alternate_greetings]. *)
Definition fix_list_field (k : str) (d : json) : result json :=
  v <- py_get d k (JList []) ;;
  if negb (is_list v) then py_setitem d k (JList []) else Ok d.

(** Lines 113-116: the entries of the character book. *)
Definition fix_book (d : json) : result json :=
  has_book <- py_contains (u "character_book") d ;;
  if has_book then
    book <- py_getitem d (u "character_book") ;;
    has_entries <- py_contains (u "entries") book ;;
    if has_entries then
      entries <- py_getitem book (u "entries") ;;
      entries' <- fix_entries entries ;;
      book' <- py_setitem book (u "entries") entries' ;;
      py_setitem d (u "character_book") book'
    else Ok d
  else Ok d.

(** The values on which the loop over the entries changes nothing. *)
Definition entries_fixed (entries : json) : bool :=
  match entries with
  | JList l => forallb valid_entry l
  | JDict [] | JStr [] => true
  | _ => false
  end.

Definition book_fixed (d : dict) : bool :=
  match dict_get (u "character_book") d with
  | None => true
  | Some book =>
      match py_contains (u "entries") book with
      | Ok false => true
      | Ok true =>
          match py_getitem book (u "entries") with
          | Ok entries => entries_fixed entries
          | Raise _ => false
          end
      | Raise _ => false
      end
  end.

(** The cards normalization returns: exactly those it leaves alone. *)
Definition normal_card (c : json) : bool :=
  match c with
  | JDict top =>
      match dict_get (u "spec") top, dict_get (u "data") top with
      | Some sp, Some (JDict d) =>
          py_eq sp (JStr (u "chara_card_v2"))
          && list_or_absent (u "tags") d
          && list_or_absent (u "alternate_greetings") d
          && book_fixed d
      | _, _ => false
      end
  | _ => false
  end.

(** ** Sample images and a sample card *)

(** An image with a comment chunk and no card. *)
Definition blank_png : png :=
  {| pixels := []; chunks := [(u "Comment", u "no card here")] |}.

(** An image whose card entry breaks off inside a Base64 group. *)
Definition corrupt_png : png :=
  {| pixels := []; chunks := [(u "chara", u "eyJ")] |}.

(** An image whose card entry is the Base64 of the one byte [0xFF], which
    is no UTF-8. *)
Definition bad_utf8_png : png :=
  {| pixels := []; chunks := [(u "chara", u "/w==")] |}.

(** An image whose card entry is the Base64 of the text [{], which is no
    JSON. *)
Definition bad_json_png : png :=
  {| pixels := []; chunks := [(u "chara", u "ew==")] |}.

(** The float [1.5]. *)
Definition one_and_a_half : spec_float :=
  S754_finite false 6755399441055744 (-52).

(** A card as the editor saves it: tags, a greeting, and a character book
    with one entry, whose insertion order the form stores as a float. *)
Definition sample_card : json :=
  JDict [
    (u "spec", JStr (u "chara_card_v2"));
    (u "spec_version", JStr (u "2.0"));
    (u "data", JDict [
      (u "name", JStr (u "Ann"));
      (u "description", JStr (u "A guide."));
      (u "alternate_greetings", JList [JStr (u "Hello.")]);
      (u "tags", JList [JStr (u "guide"); JStr (u "town")]);
      (u "extensions", JDict [(u "depth", JInt 4)]);
      (u "character_book", JDict [
        (u "name", JStr (u "Town"));
        (u "extensions", JDict []);
        (u "entries", JList [
          JDict [
            (u "keys", JList [JStr (u "inn")]);
            (u "secondary_keys", JList []);
            (u "content", JStr (u "The inn is closed."));
            (u "enabled", JBool true);
            (u "insertion_order", JFloat one_and_a_half)
          ]
        ])
      ])
    ])
  ].

(** ** What follows a value in serialized text *)

(** The text after a serialized value is empty or starts with [,], []] or
    [}]. *)
Definition delim (rest : str) : bool :=
  match rest with
  | [] => true
  | c :: _ => (c =? 44)%N || (c =? 93)%N || (c =? 125)%N
  end.

(** The first character of a serialized value. *)
Definition value_start (c : N) : bool :=
  (c =? 110)%N || (c =? 116)%N || (c =? 102)%N || (c =? 45)%N || is_digit c
  || (c =? 34)%N || (c =? 91)%N || (c =? 123)%N || (c =? 78)%N || (c =? 73)%N.

(** Does the text start with the escape of a low surrogate (or with a
    [\\u] that is no escape at all)? *)
Definition low_escape_follows (t : str) : bool :=
  match t with
  | b :: v :: g1 :: g2 :: g3 :: g4 :: _ =>
      (b =? 92)%N && (v =? 117)%N &&
      match hex4 g1 g2 g3 g4 with
      | Some uni2 => is_low uni2
      | None => true
      end
  | _ => false
  end.

(** The text of one [key: value] member of a serialized dict. *)
Definition member_text (kv : str * json) : str :=
  dumps_str (fst kv) ++ u ": " ++ json_dumps (snd kv).

(** The parser, given enough fuel, reads a serialized value back and
    stops where its text stops. *)
Definition parses (v : json) : Prop :=
  forall (fuel : nat) (rest : str),
    json_size v <= fuel -> wf_json v = true -> delim rest = true ->
    parse_value fuel (json_dumps v ++ rest) = Ok (v, rest).

(** ** Kinds of text *)

(** Text made of ASCII characters. *)
Definition ascii_only (s : str) : Prop := Forall (fun c => (c < 128)%N) s.

(** Text made of Unicode scalar values: what decoding UTF-8 gives. *)
Definition scalar (c : N) : bool := (c <? 0x110000)%N && negb (is_surrogate c).
Definition scalar_text (s : str) : bool := forallb scalar s.

(** ** Form helpers

    The helpers between the card and the editor's form: tri-state check
    boxes, keys that are stored or deleted, the text boxes that hold JSON
    and comma-separated lists. *)

(** [Qt.CheckState]. *)
Inductive CheckState : Type := Unchecked | PartiallyChecked | Checked.

(** [data is True], [data is False]: identity with the two booleans, so
    [1] and ["true"] are neither. *)
Definition convertBoolToTristate (data : json) : CheckState :=
  match data with
  | JBool true => Checked
  | JBool false => Unchecked
  | _ => PartiallyChecked
  end.

Definition convertTristateToBool (data : CheckState) : json :=
  match data with
  | Checked => JBool true
  | Unchecked => JBool false
  | PartiallyChecked => JNull
  end.

(** [del obj[k]] on the mutated object. *)
Definition remove (k : str) : St unit :=
  fun s =>
    match py_delitem s k with
    | Ok s' => (s', Ok tt)
    | Raise e => (s, Raise e)
    end.

(** [updateOrDeleteKey(dictionary, key, value, nullvalue)], on the
    contents of [dictionary]; the default [nullvalue] is [None]. *)
Definition updateOrDeleteKey (key : str) (value nullvalue : json) : St unit :=
  if negb (py_eq value nullvalue) then assign key value
  else
    present <~ read (py_contains key) ;;
    if present then remove key else st_ret tt.

(** [safeJSONLoads]: [except Exception] turns every failure of the
    parser into the text itself. *)
Definition safeJSONLoads (jsonstring : str) : json :=
  match json_loads jsonstring with
  | Ok v => v
  | Raise _ => JStr jsonstring
  end.

(** [str.isspace] on one character: the white space [str.strip()]
    removes. *)
Definition isspace (c : N) : bool :=
  ((0x09 <=? c) && (c <=? 0x0D))%N || ((0x1C <=? c) && (c <=? 0x20))%N
  || (c =? 0x85)%N || (c =? 0xA0)%N || (c =? 0x1680)%N
  || ((0x2000 <=? c) && (c <=? 0x200A))%N
  || (c =? 0x2028)%N || (c =? 0x2029)%N || (c =? 0x202F)%N
  || (c =? 0x205F)%N || (c =? 0x3000)%N.

Fixpoint lstrip (s : str) : str :=
  match s with
  | c :: r => if isspace c then lstrip r else s
  | [] => []
  end.

Definition rstrip (s : str) : str := rev (lstrip (rev s)).

(** [s.strip()]. *)
Definition strip (s : str) : str := rstrip (lstrip s).

(** [s.split(sep)] for a separator of one character: at least one piece,
    empty pieces kept. *)
Fixpoint split (sep : N) (s : str) : list str :=
  match s with
  | [] => [[]]
  | c :: r =>
      if (c =? sep)%N then [] :: split sep r
      else
        match split sep r with
        | p :: ps => (c :: p) :: ps
        | [] => [[c]]
        end
  end.

(** [", ".join(items)]: every item has to be a [str]. *)
Definition comma_join (items : json) : result str :=
  l <- py_iter items ;;
  strs <- mapM (fun x => match x with JStr s => Ok s | _ => Raise TypeError end) l ;;
  Ok (join (u ", ") strs).

(** What [EditorWidget.updateUIFromData] shows in the tags box:
    [", ".join(data.get("tags", []))]. *)
Definition tags_text (data : json) : result str :=
  tags <- py_get data (u "tags") (JList []) ;;
  comma_join tags.

(** What [EditorWidget.updateDataFromUI] stores as [data["tags"]]:
    [[x.strip() for x in text.split(',') if x.strip() != ""]]. *)
Definition tags_of_text (text : str) : list str :=
  filter (fun x => negb (str_eqb x [])) (map strip (split 44 text)).

(** What [EntryWidget.getData] stores as [keys] and [secondary_keys]:
    [[x.strip() for x in text.split(',')]]. *)
Definition keys_of_text (text : str) : list str := map strip (split 44 text).

(** ** The import button

    [CharacterBookWidget.import_worldbook] once the file is chosen and
    parsed into [worldBook]: the contents of [self.fullData] after the
    click and the outcome.  The refresh of the form that follows is not
    part of the model. *)

(** The book mutated by the merge is the object stored in
    [fullData["data"]["character_book"]]. *)
Definition store_book (fullData data book : json) : json :=
  match fullData, data with
  | JDict top, JDict d =>
      JDict (dict_set (u "data")
               (JDict (dict_set (u "character_book") book d)) top)
  | _, _ => fullData
  end.

Definition import_worldbook_clicked (fullData worldBook : json)
  : json * result unit :=
  match snd (process_worldbook worldBook) with
  | Raise e => (fullData, Raise e)
  | Ok JNull => (fullData, Ok tt)
  | Ok worldBook =>
      match (data <- py_getitem fullData (u "data") ;;
             characterBook <- py_get data (u "character_book") (JDict []) ;;
             Ok (data, characterBook)) with
      | Raise e => (fullData, Raise e)
      | Ok (data, characterBook) =>
          let (book, r) := import_worldbook characterBook worldBook in
          (store_book fullData data book, _ <- r ;; Ok tt)
      end
  end.


(** ** Reading normalization field by field *)

(** The value [tags] or [alternate_greetings] has after normalization:
    a list is kept, anything else becomes [[]], an absent key stays
    absent. *)
Definition coerced (v : option json) : option json :=
  match v with
  | Some (JList l) => Some (JList l)
  | Some _ => Some (JList [])
  | None => None
  end.

(** The record normalization works on: the [data] of a V2 card, the whole
    document for a legacy one. *)
Definition is_v2 (top : dict) : bool :=
  py_eq (field (u "spec") JNull top) (JStr (u "chara_card_v2")).

(** [record top d]: [d] is the record normalization works on, the [data]
    of a V2 card or the whole of a legacy document. *)
Definition record (top d : dict) : Prop :=
  if is_v2 top then dict_get (u "data") top = Some (JDict d) else d = top.

(** The values that are no containers: [k in v] raises [TypeError]. *)
Definition not_container (v : json) : bool :=
  match v with
  | JNull | JBool _ | JInt _ | JFloat _ => true
  | _ => false
  end.

(** ** Reading the worldbook loop *)

(** The test of the loop of [process_worldbook] on a mapping: the entry
    has the legacy ["entry"] key, with the value of ["content"]. *)
Definition legacy_duplicate (e : dict) : bool :=
  dict_has (u "entry") e
  && py_eq (field (u "content") JNull e) (field (u "entry") JNull e).

(** [stripped e e']: what the loop may do to an item [e].  A mapping
    loses at most its ["entry"] key, and only as a duplicate of
    ["content"]; any other item is left alone. *)
Definition stripped (e e' : json) : Prop :=
  match e with
  | JDict a =>
      exists b, e' = JDict b /\
        legacy_duplicate b = false /\
        (legacy_duplicate a = false -> b = a) /\
        forall k, str_eqb k (u "entry") = false -> dict_get k b = dict_get k a
  | _ => e' = e
  end.

(** ** Reading the text boxes *)

(** Text with no white space at either end: what [strip] returns. *)
Definition trimmed (t : str) : bool :=
  match t with
  | [] => true
  | c :: _ => negb (isspace c) && negb (isspace (last t c))
  end.

Definition no_comma (t : str) : bool := forallb (fun c => negb (c =? 44)%N) t.

(** A tag that the tags box shows and reads back as it is: not empty,
    no white space at its ends, no comma. *)
Definition clean_tag (t : str) : bool :=
  negb (str_eqb t []) && trimmed t && no_comma t.

(** ** The suggested file name

    [EditorWidget.suggest_filename_from_name].  [str.isalnum] is a table
    of the Unicode database; the function is embedded over any such
    table. *)
Section SuggestFilename.

Variable isalnum : N -> bool.

(** [ch if ch.isalnum() or ch in (" ", "_", "-") else "_"]. *)
Definition safe_char (ch : N) : N :=
  if isalnum ch || (ch =? 32)%N || (ch =? 95)%N || (ch =? 45)%N
  then ch else 95%N.

(** [s.replace(" ", "_")]. *)
Definition replace_spaces (s : str) : str :=
  map (fun c => if (c =? 32)%N then 95%N else c) s.

Definition suggest_filename_from_name (fullData : json) : result str :=
  data <- py_getitem fullData (u "data") ;;
  name <- py_get data (u "name") (JStr []) ;;
  match name with
  | JStr name =>
      let name := strip name in
      let name := match name with [] => u "untitled_card" | _ :: _ => name end in
      let safe := replace_spaces (strip (map safe_char name)) in
      Ok (safe ++ u ".png")
  | _ => Raise AttributeError
  end.

End SuggestFilename.
(** * Properties *)

Arguments u : simpl never.

(** ** Strings and dicts *)

Lemma str_eqb_eq (a b : str) : str_eqb a b = true <-> a = b.
Proof.
  revert b; induction a as [|x a IH]; intros [|y b]; simpl;
    try (split; [discriminate | congruence]); try tauto.
  rewrite andb_true_iff, N.eqb_eq, IH. split.
  - intros [-> ->]; reflexivity.
  - intros E; injection E; auto.
Qed.

Lemma str_eqb_refl (a : str) : str_eqb a a = true.
Proof. apply str_eqb_eq; reflexivity. Qed.

Lemma str_eqb_neq (a b : str) : str_eqb a b = false <-> a <> b.
Proof.
  rewrite <- str_eqb_eq. destruct (str_eqb a b); split; congruence.
Qed.

Lemma str_eqb_sym (a b : str) : str_eqb a b = str_eqb b a.
Proof.
  destruct (str_eqb a b) eqn:E.
  - apply str_eqb_eq in E; subst; symmetry; apply str_eqb_refl.
  - apply str_eqb_neq in E. symmetry. apply str_eqb_neq. congruence.
Qed.

Lemma dict_get_set_same (k : str) (v : json) (d : dict) :
  dict_get k (dict_set k v d) = Some v.
Proof.
  induction d as [|[k' v'] d IH]; simpl.
  - rewrite str_eqb_refl; reflexivity.
  - destruct (str_eqb k k') eqn:E; simpl; rewrite E; auto.
Qed.

Lemma dict_get_set_other (k k' : str) (v : json) (d : dict) :
  str_eqb k k' = false -> dict_get k (dict_set k' v d) = dict_get k d.
Proof.
  intros N. induction d as [|[k0 v0] d IH]; simpl.
  - rewrite N; reflexivity.
  - destruct (str_eqb k' k0) eqn:E; simpl.
    + apply str_eqb_eq in E; subst k0. rewrite N; reflexivity.
    + rewrite IH; reflexivity.
Qed.

Lemma dict_get_set (k k' : str) (v : json) (d : dict) :
  dict_get k (dict_set k' v d) = if str_eqb k k' then Some v else dict_get k d.
Proof.
  destruct (str_eqb k k') eqn:E.
  - apply str_eqb_eq in E; subst; apply dict_get_set_same.
  - apply dict_get_set_other; assumption.
Qed.

(** Storing the value a key already has changes nothing. *)
Lemma dict_set_same_value (k : str) (v : json) (d : dict) :
  dict_get k d = Some v -> dict_set k v d = d.
Proof.
  induction d as [|[k' v'] d IH]; simpl; [discriminate|].
  destruct (str_eqb k k') eqn:E.
  - intros [= ->]; reflexivity.
  - intros H; rewrite IH; auto.
Qed.

Lemma dict_set_set (k : str) (v v' : json) (d : dict) :
  dict_set k v' (dict_set k v d) = dict_set k v' d.
Proof.
  induction d as [|[k0 v0] d IH]; simpl.
  - rewrite str_eqb_refl; reflexivity.
  - destruct (str_eqb k k0) eqn:E; simpl; rewrite E; [reflexivity|].
    rewrite IH; reflexivity.
Qed.

Lemma dict_get_absent (k : str) (d : dict) :
  existsb (str_eqb k) (dict_keys d) = false -> dict_get k d = None.
Proof.
  induction d as [|[k' v'] d IH]; simpl; [reflexivity|].
  destruct (str_eqb k k'); simpl; [discriminate | exact IH].
Qed.

(** On a collision the right operand of [|] wins; other keys keep the
    value of the left operand. *)
Lemma dict_get_union (k : str) (a b : dict) :
  nodup_keys (dict_keys b) = true ->
  dict_get k (dict_union a b) =
  match dict_get k b with
  | Some v => Some v
  | None => dict_get k a
  end.
Proof.
  unfold dict_union. revert a.
  induction b as [|[k' v'] b IH]; intros a; simpl; [reflexivity|].
  rewrite andb_true_iff, negb_true_iff. intros [Hk Hb].
  rewrite (IH _ Hb), dict_get_set.
  destruct (str_eqb k k') eqn:E; [|reflexivity].
  apply str_eqb_eq in E; subst k'.
  rewrite (dict_get_absent _ _ Hk); reflexivity.
Qed.

(** Building a dict from pairs with distinct keys keeps the pairs. *)
Lemma dict_set_fresh (k : str) (v : json) (d : dict) :
  existsb (str_eqb k) (dict_keys d) = false -> dict_set k v d = d ++ [(k, v)].
Proof.
  induction d as [|[k' v'] d IH]; simpl; [reflexivity|].
  destruct (str_eqb k k'); simpl; [discriminate|].
  intros H; rewrite IH; auto.
Qed.

Lemma existsb_app_false {A} (f : A -> bool) (l1 l2 : list A) :
  existsb f (l1 ++ l2) = false <-> existsb f l1 = false /\ existsb f l2 = false.
Proof. rewrite existsb_app, orb_false_iff; tauto. Qed.

Lemma dict_union_nodup (a b : dict) :
  nodup_keys (dict_keys (a ++ b)) = true -> dict_union a b = a ++ b.
Proof.
  unfold dict_union. revert a.
  induction b as [|[k v] b IH]; intros a; simpl.
  - rewrite app_nil_r; reflexivity.
  - intros H.
    assert (E : existsb (str_eqb k) (dict_keys a) = false).
    { clear IH. induction a as [|[k0 v0] a IHa]; simpl in *; [reflexivity|].
      apply andb_true_iff in H as [H1 H2]. apply negb_true_iff in H1.
      unfold dict_keys in *. rewrite map_app in H1. simpl in H1.
      apply existsb_app_false in H1 as [_ H1]. simpl in H1.
      apply orb_false_iff in H1 as [H1 _].
      rewrite str_eqb_sym, H1. simpl. apply IHa, H2. }
    rewrite (dict_set_fresh _ _ _ E).
    rewrite IH; rewrite <- app_assoc; simpl; auto.
Qed.

Lemma dict_of_pairs_nodup (d : dict) :
  nodup_keys (dict_keys d) = true -> dict_of_pairs d = d.
Proof. intros H. unfold dict_of_pairs. rewrite dict_union_nodup; auto. Qed.

(** ** The worldbook merge *)

Lemma adopt_step {A} (k : str) (b w : dict) (rest : St A) :
  (desc <~ lift (py_get (JDict w) k (JStr [])) ;;
   adopt <~ (if negb (py_eq desc (JStr [])) then
               cur <~ read (fun book => py_get book k (JStr [])) ;;
               st_ret (py_eq cur (JStr []))
             else st_ret false) ;;
   _ <~ (if adopt then assign k desc else st_ret tt) ;;
   rest) (JDict b) = rest (JDict (adopt k b w)).
Proof.
  unfold adopt, adopts, field, st_bind, lift, read, assign, st_ret, py_get, py_setitem.
  destruct (py_eq match dict_get k w with Some v => v | None => JStr [] end
                  (JStr [])); simpl; [reflexivity|].
  destruct (py_eq match dict_get k b with Some v => v | None => JStr [] end
                  (JStr [])); reflexivity.
Qed.

Lemma import_worldbook_dicts (b w : dict) :
  let b2 := adopt (u "name") (adopt (u "description") b w) w in
  let mine := field (u "entries") (JList []) b2 in
  let b3 := dict_set (u "entries") mine b2 in
  import_worldbook (JDict b) (JDict w) =
  match dict_get (u "entries") w with
  | None => (JDict b3, Raise KeyError)
  | Some theirs =>
      match py_iadd mine theirs with
      | Raise e => (JDict b3, Raise e)
      | Ok both =>
          let b4 := dict_set (u "entries") both b3 in
          match py_or (field (u "extensions") (JDict []) b4)
                      (field (u "extensions") (JDict []) w) with
          | Raise e => (JDict b4, Raise e)
          | Ok merged =>
              let b5 := dict_set (u "extensions") merged b4 in
              (JDict b5, Ok (JDict b5))
          end
      end
  end.
Proof.
  unfold import_worldbook. rewrite !adopt_step.
  set (b2 := adopt (u "name") (adopt (u "description") b w) w).
  unfold st_bind, lift, read, assign, st_ret, py_get, py_setitem, py_getitem.
  unfold field. rewrite dict_get_set_same.
  destruct (dict_get (u "entries") w) as [theirs|]; [|reflexivity].
  destruct (py_iadd _ theirs) as [both|e]; [|reflexivity].
  cbv zeta. unfold field.
  match goal with |- context [py_or ?x ?y] => destruct (py_or x y) end;
    reflexivity.
Qed.

Lemma field_adopt_other (k k' : str) (default : json) (b w : dict) :
  str_eqb k' k = false -> field k' default (adopt k b w) = field k' default b.
Proof.
  intros N. unfold adopt, field. destruct (adopts k b w); [|reflexivity].
  rewrite dict_get_set_other; auto.
Qed.

Lemma dict_get_adopt (k : str) (b w : dict) :
  dict_get k (adopt k b w) =
  if adopts k b w then Some (field k (JStr []) w) else dict_get k b.
Proof.
  unfold adopt. destruct (adopts k b w); [apply dict_get_set_same | reflexivity].
Qed.

Lemma dict_get_adopt_other (k k' : str) (b w : dict) :
  str_eqb k' k = false -> dict_get k' (adopt k b w) = dict_get k' b.
Proof.
  intros N. unfold adopt. destruct (adopts k b w); [|reflexivity].
  apply dict_get_set_other; assumption.
Qed.

Lemma adopts_adopt_other (k k' : str) (b w : dict) :
  str_eqb k' k = false -> adopts k' (adopt k b w) w = adopts k' b w.
Proof.
  intros N. unfold adopts. rewrite field_adopt_other; auto.
Qed.

(** Whatever the outcome, the book is left as a dict that agrees with the
    book after the two precedence steps on every key but ["entries"] and
    ["extensions"]. *)
Lemma import_worldbook_frame (b w : dict) :
  exists b',
    fst (import_worldbook (JDict b) (JDict w)) = JDict b' /\
    forall k, str_eqb k (u "entries") = false ->
              str_eqb k (u "extensions") = false ->
              dict_get k b' =
              dict_get k (adopt (u "name") (adopt (u "description") b w) w).
Proof.
  rewrite import_worldbook_dicts. cbv zeta.
  destruct (dict_get (u "entries") w) as [theirs|].
  2:{ eexists; split; [reflexivity|]. intros k N1 N2.
      rewrite dict_get_set_other; auto. }
  destruct (py_iadd _ theirs) as [both|e].
  2:{ eexists; split; [reflexivity|]. intros k N1 N2.
      rewrite dict_get_set_other; auto. }
  match goal with |- context [py_or ?x ?y] => destruct (py_or x y) end;
    (eexists; split; [reflexivity|]; intros k N1 N2;
     rewrite ?(dict_get_set_other k (u "extensions")) by assumption;
     rewrite !(dict_get_set_other k (u "entries")) by assumption;
     reflexivity).
Qed.

(** C6.  In [import_worldbook], for [description] and for [name]: the
    book takes the worldbook's value exactly when that value differs from
    the empty string and the book's own value (the empty string when the
    key is absent) is the empty string; otherwise the book's entry for
    the key is what it was before the call.  This holds of the book as
    the call leaves it, also when a later statement raises. *)
Theorem import_worldbook_description_name (b w : dict) :
  exists b',
    fst (import_worldbook (JDict b) (JDict w)) = JDict b' /\
    dict_get (u "description") b' =
      (if adopts (u "description") b w
       then Some (field (u "description") (JStr []) w)
       else dict_get (u "description") b) /\
    dict_get (u "name") b' =
      (if adopts (u "name") b w
       then Some (field (u "name") (JStr []) w)
       else dict_get (u "name") b).
Proof.
  destruct (import_worldbook_frame b w) as (b' & E & F).
  exists b'. split; [exact E|]. split.
  - rewrite F by reflexivity.
    rewrite dict_get_adopt_other by reflexivity. apply dict_get_adopt.
  - rewrite F by reflexivity.
    rewrite dict_get_adopt, adopts_adopt_other by reflexivity.
    rewrite dict_get_adopt_other by reflexivity. reflexivity.
Qed.

(** C7.  When the book's [entries] is a list or absent, the worldbook's
    [entries] is a list and both [extensions] are dicts or absent,
    [import_worldbook] returns the book with [entries] equal to the
    book's entries followed by the worldbook's, in order and with nothing
    removed, and with [extensions] a dict in which every key of the
    worldbook's extensions has the worldbook's value and every other key
    has the book's. *)
Theorem import_worldbook_entries_extensions
    (b w : dict) (mine theirs : list json) (eb ew : dict) :
  field (u "entries") (JList []) b = JList mine ->
  dict_get (u "entries") w = Some (JList theirs) ->
  field (u "extensions") (JDict []) b = JDict eb ->
  field (u "extensions") (JDict []) w = JDict ew ->
  nodup_keys (dict_keys ew) = true ->
  exists b' merged,
    import_worldbook (JDict b) (JDict w) = (JDict b', Ok (JDict b')) /\
    dict_get (u "entries") b' = Some (JList (mine ++ theirs)) /\
    dict_get (u "extensions") b' = Some (JDict merged) /\
    forall k, dict_get k merged =
              match dict_get k ew with
              | Some v => Some v
              | None => dict_get k eb
              end.
Proof.
  intros Hmine Htheirs Heb Hew Hnd.
  rewrite import_worldbook_dicts. cbv zeta.
  rewrite Htheirs, Hew.
  rewrite !field_adopt_other by reflexivity. rewrite Hmine. simpl py_iadd.
  unfold bind.
  assert (X : field (u "extensions") (JDict [])
                (dict_set (u "entries") (JList (mine ++ theirs))
                   (dict_set (u "entries") (JList mine)
                      (adopt (u "name") (adopt (u "description") b w) w)))
              = JDict eb).
  { unfold field. rewrite !dict_get_set_other by reflexivity.
    rewrite !dict_get_adopt_other by reflexivity. exact Heb. }
  rewrite X. simpl py_or.
  eexists. exists (dict_union eb ew). split; [reflexivity|]. split.
  - rewrite dict_get_set_other by reflexivity. apply dict_get_set_same.
  - split; [apply dict_get_set_same|].
    intros k. apply dict_get_union, Hnd.
Qed.

Lemma import_worldbook_entries_extensions_witness :
  exists b' merged,
    import_worldbook (book_E1) (worldbook_E2_E3)
      = (JDict b', Ok (JDict b')) /\
    dict_get (u "entries") b' = Some (JList ([lore "E1"] ++ [lore "E2"; lore "E3"])) /\
    dict_get (u "extensions") b' = Some (JDict merged) /\
    forall k, dict_get k merged =
              match dict_get k [(u "a", JInt 2); (u "b", JInt 3)] with
              | Some v => Some v
              | None => dict_get k [(u "a", JInt 1)]
              end.
Proof.
  apply (import_worldbook_entries_extensions _ _ [lore "E1"] [lore "E2"; lore "E3"]
           [(u "a", JInt 1)] [(u "a", JInt 2); (u "b", JInt 3)]);
    reflexivity.
Defined.

(** A worldbook without ["entries"] makes the merge raise [KeyError],
    after the book has been given an ["entries"] key. *)
Lemma import_worldbook_no_entries (b w : dict) :
  dict_get (u "entries") w = None ->
  snd (import_worldbook (JDict b) (JDict w)) = Raise KeyError.
Proof.
  intros H. rewrite import_worldbook_dicts. cbv zeta. rewrite H. reflexivity.
Qed.

(** C9.  [process_worldbook] on a whole card whose character book has no
    ["entries"] returns that book: a value that is not [None] and has no
    ["entries"] key.  [import_worldbook] with it raises [KeyError],
    whatever the book it is merged into. *)
Theorem fallback_worldbook_raises_key_error :
  exists wb : dict,
    process_worldbook card_with_empty_book
      = (card_with_empty_book, Ok (JDict wb)) /\
    dict_has (u "entries") wb = false /\
    forall b : dict,
      snd (import_worldbook (JDict b) (JDict wb)) = Raise KeyError.
Proof.
  exists []. split; [reflexivity|]. split; [reflexivity|].
  intros b. apply import_worldbook_no_entries. reflexivity.
Qed.

(** ** The worldbook normalizer *)





(** C8, as the code has it.  [process_worldbook] assigns into its
    argument.  When the document has an ["entries"] field, only that
    field of the argument is reassigned, and the value returned (when
    the loop does not raise) is the argument itself, conversions
    included; when it has none the argument is left as it was; a value
    that is not a dict is left alone and [None] is returned. *)
Theorem process_worldbook_argument (data : json) :
  match data with
  | JDict d =>
      if dict_has (u "entries") d then
        exists entries',
          fst (process_worldbook data) = JDict (dict_set (u "entries") entries' d) /\
          forall r, snd (process_worldbook data) = Ok r ->
                    r = fst (process_worldbook data)
      else fst (process_worldbook data) = data
  | _ => process_worldbook data = (data, Ok JNull)
  end.
Proof.
  destruct data; try reflexivity.
  unfold dict_has, process_worldbook.
  destruct (dict_get (u "entries") d) as [entries|]; [|reflexivity].
  match goal with |- context [strip_entries ?x] =>
    destruct (strip_entries x) as [entries2 r] end.
  exists entries2. split.
  - destruct entries; simpl; rewrite ?dict_set_set; reflexivity.
  - intros r0. destruct r; simpl; [|discriminate]. intros [= <-]. reflexivity.
Qed.

(** C8, as the specification has it, fails: the caller's document is not
    what it was before the call. *)
Lemma process_worldbook_changes_argument :
  fst (process_worldbook legacy_worldbook) <> legacy_worldbook /\
  py_eq (fst (process_worldbook legacy_worldbook)) legacy_worldbook = false /\
  snd (process_worldbook legacy_worldbook)
    = Ok (fst (process_worldbook legacy_worldbook)).
Proof.
  split; [|split]; [| reflexivity | reflexivity].
  vm_compute. discriminate.
Qed.




(** The worked examples of the legacy [entry] field. *)
Example strip_entry_duplicate :
  strip_entry (JDict [(u "entry", JStr (u "x")); (u "content", JStr (u "x"))])
  = Ok (JDict [(u "content", JStr (u "x"))]).
Proof. reflexivity. Qed.

Example strip_entry_distinct :
  strip_entry (JDict [(u "entry", JStr (u "x")); (u "content", JStr (u "y"))])
  = Ok (JDict [(u "entry", JStr (u "x")); (u "content", JStr (u "y"))]).
Proof. reflexivity. Qed.

(** ** Normalization *)

Lemma normalize_steps (x : json) :
  normalize x =
  (data <- wrap_legacy x ;;
   d <- py_getitem data (u "data") ;;
   d <- fix_list_field (u "tags") d ;;
   d <- fix_list_field (u "alternate_greetings") d ;;
   d <- fix_book d ;;
   py_setitem data (u "data") d).
Proof.
  unfold normalize, wrap_legacy, fix_list_field, fix_book.
  destruct (py_get x (u "spec") JNull) as [spec|]; [|reflexivity].
  cbn [bind].
  destruct (if negb (py_eq spec (JStr (u "chara_card_v2"))) then _ else _)
    as [data|]; [|reflexivity].
  cbn [bind].
  destruct (py_getitem data (u "data")) as [d|]; [|reflexivity].
  cbn [bind].
  destruct (py_get d (u "tags") (JList [])) as [tags|]; [|reflexivity].
  cbn [bind].
  destruct (if negb (is_list tags) then _ else _) as [d1|]; [|reflexivity].
  cbn [bind].
  destruct (py_get d1 _ _) as [gr|]; [|reflexivity].
  cbn [bind].
  destruct (if negb (is_list gr) then _ else _) as [d2|]; [|reflexivity].
  cbn [bind].
  destruct (py_contains (u "character_book") d2); reflexivity.
Qed.

(** C2, as the code has it.  A decoded value that is not an object has
    no [get] method: normalization raises [AttributeError] and returns
    no card. *)
Theorem normalize_non_object (x : json) :
  is_dict x = false -> normalize x = Raise AttributeError.
Proof. destruct x; simpl; intros H; try reflexivity; discriminate. Qed.

Lemma normalize_non_object_witness :
  is_dict (JList []) = false /\ normalize (JList []) = Raise AttributeError.
Proof.
  split; [reflexivity | apply (normalize_non_object (JList [])); reflexivity].
Defined.

(** C2, as the specification has it, fails: an array, a string and a
    number are not turned into the default card. *)
Lemma normalize_non_object_no_default :
  normalize (JList []) <> Ok deep_empty_card /\
  normalize (JStr (u "card")) <> Ok deep_empty_card /\
  normalize (JInt 7) <> Ok deep_empty_card.
Proof. repeat split; discriminate. Qed.

(** The worked examples of the specification. *)
Example normalize_legacy_wrap :
  normalize (JDict [(u "name", JStr (u "Foo"))])
  = Ok (JDict [(u "spec", JStr (u "chara_card_v2"));
               (u "spec_version", JStr (u "2.0"));
               (u "data", JDict [(u "name", JStr (u "Foo"))])]).
Proof. reflexivity. Qed.

Example normalize_tags_coercion :
  normalize (JDict [(u "spec", JStr (u "chara_card_v2"));
                    (u "data", JDict [(u "tags", JStr (u "not-an-array"))])])
  = Ok (JDict [(u "spec", JStr (u "chara_card_v2"));
               (u "data", JDict [(u "tags", JList [])])]).
Proof. reflexivity. Qed.

(** *** Fixed points of the entry loop *)

Lemma fix_entry_valid (e : json) : valid_entry e = true -> fix_entry e = Ok e.
Proof.
  destruct e; try discriminate. unfold valid_entry, fix_entry. simpl.
  destruct (dict_get (u "secondary_keys") d) as [[]|]; try discriminate.
  reflexivity.
Qed.

Lemma fix_entry_out (e e' : json) : fix_entry e = Ok e' -> valid_entry e' = true.
Proof.
  destruct e; try discriminate. unfold fix_entry. simpl.
  destruct (dict_get (u "secondary_keys") d) as [v|] eqn:E.
  - destruct v; simpl; intros [= <-]; simpl;
      rewrite ?dict_get_set_same, ?E; reflexivity.
  - simpl. intros [= <-]. simpl. rewrite dict_get_set_same. reflexivity.
Qed.

Lemma mapM_fix_entry_valid (l : list json) :
  forallb valid_entry l = true -> mapM fix_entry l = Ok l.
Proof.
  induction l as [|e l IH]; simpl; [reflexivity|].
  rewrite andb_true_iff. intros [He Hl].
  rewrite (fix_entry_valid _ He), (IH Hl). reflexivity.
Qed.

Lemma mapM_fix_entry_out (l l' : list json) :
  mapM fix_entry l = Ok l' -> forallb valid_entry l' = true.
Proof.
  revert l'; induction l as [|e l IH]; simpl; intros l'.
  - intros [= <-]; reflexivity.
  - destruct (fix_entry e) as [e'|] eqn:E; simpl; [|discriminate].
    destruct (mapM fix_entry l) as [l0|]; simpl; [|discriminate].
    intros [= <-]. simpl. rewrite (fix_entry_out _ _ E), (IH _ eq_refl). reflexivity.
Qed.

Lemma fix_entries_fixed (entries : json) :
  entries_fixed entries = true -> fix_entries entries = Ok entries.
Proof.
  destruct entries as [| | | |s|l|d]; try discriminate; simpl.
  - destruct s; [reflexivity | discriminate].
  - intros H. unfold fix_entries. simpl. rewrite (mapM_fix_entry_valid _ H).
    reflexivity.
  - destruct d; [reflexivity | discriminate].
Qed.

Lemma fix_entries_out (entries entries' : json) :
  fix_entries entries = Ok entries' -> entries_fixed entries' = true.
Proof.
  destruct entries as [| | | |s|l|d]; try discriminate; unfold fix_entries; simpl.
  - destruct s as [|c s]; simpl; [intros [= <-]; reflexivity | discriminate].
  - destruct (mapM fix_entry l) as [l'|] eqn:E; simpl; [|discriminate].
    intros [= <-]. simpl. apply (mapM_fix_entry_out _ _ E).
  - destruct d as [|[k v] d]; simpl; [intros [= <-]; reflexivity | discriminate].
Qed.

(** *** The statements on [data] *)

Lemma fix_list_field_fixed (k : str) (d : dict) :
  list_or_absent k d = true -> fix_list_field k (JDict d) = Ok (JDict d).
Proof.
  unfold list_or_absent, fix_list_field. simpl.
  destruct (dict_get k d) as [[]|]; try discriminate; reflexivity.
Qed.

Lemma fix_list_field_out (k : str) (d d' : json) :
  fix_list_field k d = Ok d' ->
  exists e e', d = JDict e /\ d' = JDict e' /\
    list_or_absent k e' = true /\
    forall k', str_eqb k' k = false -> dict_get k' e' = dict_get k' e.
Proof.
  destruct d as [| | | | | |e]; try discriminate.
  unfold fix_list_field, list_or_absent. simpl.
  destruct (dict_get k e) as [v|] eqn:E.
  - destruct v; simpl; intros [= <-]; do 2 eexists;
      (split; [reflexivity|]; split; [reflexivity|]; split;
       [rewrite ?dict_get_set_same, ?E; reflexivity
       | intros k' N; rewrite ?dict_get_set_other by assumption; reflexivity]).
  - simpl. intros [= <-]. do 2 eexists.
    split; [reflexivity|]. split; [reflexivity|]. rewrite E. split; auto.
Qed.

Lemma fix_book_fixed (d : dict) :
  book_fixed d = true -> fix_book (JDict d) = Ok (JDict d).
Proof.
  unfold book_fixed, fix_book. simpl. unfold dict_has.
  destruct (dict_get (u "character_book") d) as [book|] eqn:B; [|reflexivity].
  simpl. destruct (py_contains (u "entries") book) as [[]|]; try discriminate;
    [|reflexivity].
  simpl. destruct (py_getitem book (u "entries")) as [entries|] eqn:G;
    [|discriminate].
  intros F. simpl. rewrite (fix_entries_fixed _ F). simpl.
  destruct book; try discriminate. simpl in *.
  destruct (dict_get (u "entries") d0) eqn:G'; [|discriminate].
  injection G as ->. rewrite (dict_set_same_value _ _ _ G').
  rewrite (dict_set_same_value _ _ _ B). reflexivity.
Qed.

Lemma fix_book_out (e : dict) (d' : json) :
  fix_book (JDict e) = Ok d' ->
  exists e', d' = JDict e' /\ book_fixed e' = true /\
    forall k, str_eqb k (u "character_book") = false ->
              dict_get k e' = dict_get k e.
Proof.
  unfold fix_book, book_fixed. simpl. unfold dict_has.
  destruct (dict_get (u "character_book") e) as [book|] eqn:B.
  2:{ intros [= <-]. exists e. rewrite B. auto. }
  simpl.
  destruct (py_contains (u "entries") book) as [[]|] eqn:C; try discriminate.
  2:{ intros [= <-]. exists e. rewrite B, C. auto. }
  simpl.
  destruct (py_getitem book (u "entries")) as [entries|] eqn:G; [|discriminate].
  simpl.
  destruct (fix_entries entries) as [entries'|] eqn:F; [|discriminate].
  simpl. destruct book as [| | | | | |bk]; try discriminate. simpl.
  intros [= <-]. eexists. split; [reflexivity|]. split.
  - rewrite dict_get_set_same. simpl. unfold dict_has.
    rewrite !dict_get_set_same. apply (fix_entries_out _ _ F).
  - intros k N. apply dict_get_set_other, N.
Qed.

Lemma list_or_absent_ext (k : str) (e e' : dict) :
  dict_get k e' = dict_get k e -> list_or_absent k e' = list_or_absent k e.
Proof. unfold list_or_absent. intros ->. reflexivity. Qed.

Lemma wrap_legacy_out (x data : json) :
  wrap_legacy x = Ok data ->
  exists top sp, data = JDict top /\ dict_get (u "spec") top = Some sp /\
                 py_eq sp (JStr (u "chara_card_v2")) = true.
Proof.
  unfold wrap_legacy. destruct x as [| | | | | |top]; try discriminate. simpl.
  destruct (py_eq _ _) eqn:E; simpl; intros [= <-].
  - destruct (dict_get (u "spec") top) as [sp|] eqn:S; [|discriminate].
    exists top, sp. auto.
  - do 2 eexists. split; [reflexivity|]. split; reflexivity.
Qed.

(** A card in normal form is returned as it is. *)
Lemma normalize_normal (c : json) : normal_card c = true -> normalize c = Ok c.
Proof.
  rewrite normalize_steps. destruct c as [| | | | | |top]; try discriminate.
  unfold normal_card.
  destruct (dict_get (u "spec") top) as [sp|] eqn:S; [|discriminate].
  destruct (dict_get (u "data") top) as [[| | | | | |d]|] eqn:D; try discriminate.
  rewrite !andb_true_iff. intros [[[Hsp Htags] Hgr] Hbook].
  unfold wrap_legacy. cbn [py_get]. rewrite S. cbn [bind]. rewrite Hsp.
  cbn [negb bind py_getitem]. rewrite D. cbn [bind].
  rewrite (fix_list_field_fixed _ _ Htags). cbn [bind].
  rewrite (fix_list_field_fixed _ _ Hgr). cbn [bind].
  rewrite (fix_book_fixed _ Hbook). cbn [bind py_setitem].
  rewrite (dict_set_same_value _ _ _ D). reflexivity.
Qed.

(** Whatever normalization returns is in normal form. *)
Lemma normalize_gives_normal (x y : json) :
  normalize x = Ok y -> normal_card y = true.
Proof.
  rewrite normalize_steps.
  destruct (wrap_legacy x) as [data|] eqn:W; [|discriminate].
  destruct (wrap_legacy_out _ _ W) as (top & sp & -> & S & Hsp).
  cbn [bind]. destruct (py_getitem (JDict top) (u "data")) as [d0|]; [|discriminate].
  cbn [bind].
  destruct (fix_list_field (u "tags") d0) as [d1|] eqn:F1; [|discriminate].
  destruct (fix_list_field_out _ _ _ F1) as (e0 & e1 & -> & -> & T1 & _).
  cbn [bind].
  destruct (fix_list_field (u "alternate_greetings") (JDict e1)) as [d2|] eqn:F2;
    [|discriminate].
  destruct (fix_list_field_out _ _ _ F2) as (e1' & e2 & [= <-] & -> & G2 & K2).
  cbn [bind].
  destruct (fix_book (JDict e2)) as [d3|] eqn:F3; [|discriminate].
  destruct (fix_book_out _ _ F3) as (e3 & -> & B3 & K3).
  cbn [bind]. simpl. intros [= <-]. simpl.
  rewrite dict_get_set_other by reflexivity. rewrite S, dict_get_set_same.
  rewrite Hsp, B3.
  rewrite (list_or_absent_ext (u "tags") e2 e3) by (apply K3; reflexivity).
  rewrite (list_or_absent_ext (u "tags") e1 e2) by (apply K2; reflexivity).
  rewrite (list_or_absent_ext (u "alternate_greetings") e2 e3)
    by (apply K3; reflexivity).
  rewrite T1, G2. reflexivity.
Qed.

(** Normalizing twice is normalizing once. *)
Lemma normalize_idempotent (x y : json) :
  normalize x = Ok y -> normalize y = Ok y.
Proof. intros H. apply normalize_normal, (normalize_gives_normal _ _ H). Qed.

(** A card that meets the schema invariants is in normal form. *)
Lemma valid_card_normal (c : json) : valid_card c = true -> normal_card c = true.
Proof.
  destruct c as [| | | | | |top]; try discriminate. unfold valid_card, normal_card.
  destruct (dict_get (u "spec") top) as [[| | | |sp| |]|]; try discriminate.
  destruct (dict_get (u "data") top) as [[| | | | | |d]|]; try discriminate.
  intros H. apply andb_true_iff in H as [H Hbook].
  apply andb_true_iff in H as [H Hgr]. apply andb_true_iff in H as [Hsp Htags].
  simpl. rewrite Hsp, Htags, Hgr. simpl. unfold book_fixed.
  destruct (dict_get (u "character_book") d) as [book|]; [|reflexivity].
  destruct book as [| | | | | |b]; try discriminate. simpl in *. unfold dict_has.
  destruct (dict_get (u "entries") b) as [[]|]; try discriminate; auto.
Qed.

(** ** Rounding to the nearest float *)

Local Open Scope Z_scope.

Lemma pow2_pos (t : Z) : 0 <= t -> 0 < 2 ^ t.
Proof. intros H. apply Z.pow_pos_nonneg; lia. Qed.

Lemma pow_pos' (b t : Z) : 0 < b -> 0 <= t -> 0 < b ^ t.
Proof. intros Hb H. apply Z.pow_pos_nonneg; lia. Qed.

(** [n/d >= 2^t] with both sides scaled by [2^K]. *)
Lemma ratio_ge_pow2_shift (n d t K : Z) :
  0 <= K -> 0 <= t + K ->
  ratio_ge_pow2 n d t = (d * 2 ^ (t + K) <=? n * 2 ^ K).
Proof.
  intros HK HtK. unfold ratio_ge_pow2.
  apply eq_iff_eq_true. destruct (0 <=? t) eqn:Et.
  - apply Z.leb_le in Et. rewrite !Z.leb_le.
    rewrite Z.pow_add_r by lia.
    pose proof (pow2_pos K HK). pose proof (pow2_pos t Et). nia.
  - apply Z.leb_gt in Et. rewrite !Z.leb_le.
    replace K with ((- t) + (t + K)) at 2 by lia.
    rewrite (Z.pow_add_r 2 (- t) (t + K)) by lia.
    pose proof (pow2_pos (t + K) HtK).
    pose proof (pow2_pos (- t) ltac:(lia)). nia.
Qed.

Lemma ratio_ge_pow2_mono (n d t t' : Z) :
  0 < n -> 0 < d -> t' <= t ->
  ratio_ge_pow2 n d t = true -> ratio_ge_pow2 n d t' = true.
Proof.
  intros Hn Hd Ht H.
  set (K := Z.max 0 (- t')).
  rewrite (ratio_ge_pow2_shift n d t K) in H by lia.
  rewrite (ratio_ge_pow2_shift n d t' K) by lia.
  apply Z.leb_le in H. apply Z.leb_le.
  assert (2 ^ (t' + K) <= 2 ^ (t + K)) by (apply Z.pow_le_mono_r; lia).
  pose proof (pow2_pos (t' + K) ltac:(lia)). nia.
Qed.

Lemma ratio_log2_spec (n d : Z) :
  0 < n -> 0 < d ->
  ratio_ge_pow2 n d (ratio_log2 n d) = true /\
  ratio_ge_pow2 n d (ratio_log2 n d + 1) = false.
Proof.
  intros Hn Hd. unfold ratio_log2.
  destruct (Z.log2_spec n Hn) as [Ha1 Ha2].
  destruct (Z.log2_spec d Hd) as [Hb1 Hb2].
  pose proof (Z.log2_nonneg n) as Ha0. pose proof (Z.log2_nonneg d) as Hb0.
  set (a := Z.log2 n) in *. set (b := Z.log2 d) in *.
  destruct (ratio_ge_pow2 n d (a - b)) eqn:E.
  - split; [exact E|].
    rewrite (ratio_ge_pow2_shift n d (a - b + 1) b) by lia.
    apply Z.leb_gt. replace (a - b + 1 + b) with (Z.succ a) by lia.
    pose proof (pow2_pos b Hb0). nia.
  - split.
    + rewrite (ratio_ge_pow2_shift n d (a - b - 1) (b + 1)) by lia.
      apply Z.leb_le. replace (a - b - 1 + (b + 1)) with a by lia.
      replace (b + 1) with (Z.succ b) by lia.
      pose proof (pow2_pos a Ha0). nia.
    + replace (a - b - 1 + 1) with (a - b) by lia. exact E.
Qed.

Lemma ratio_log2_unique (n d a : Z) :
  0 < n -> 0 < d ->
  ratio_ge_pow2 n d a = true -> ratio_ge_pow2 n d (a + 1) = false ->
  ratio_log2 n d = a.
Proof.
  intros Hn Hd H1 H2.
  destruct (ratio_log2_spec n d Hn Hd) as [S1 S2].
  destruct (Z.lt_trichotomy (ratio_log2 n d) a) as [L|[E|G]]; [|exact E|].
  - rewrite (ratio_ge_pow2_mono n d a (ratio_log2 n d + 1) Hn Hd ltac:(lia) H1)
      in S2. discriminate.
  - rewrite (ratio_ge_pow2_mono n d (ratio_log2 n d) (a + 1) Hn Hd ltac:(lia) S1)
      in H2. discriminate.
Qed.

Lemma ratio_ge_pow2_scale (c n d t : Z) :
  0 < c -> ratio_ge_pow2 (c * n) (c * d) t = ratio_ge_pow2 n d t.
Proof.
  intros Hc. unfold ratio_ge_pow2. apply eq_iff_eq_true.
  destruct (0 <=? t); rewrite !Z.leb_le; nia.
Qed.

Lemma ratio_log2_scale (c n d : Z) :
  0 < c -> 0 < n -> 0 < d -> ratio_log2 (c * n) (c * d) = ratio_log2 n d.
Proof.
  intros Hc Hn Hd. destruct (ratio_log2_spec n d Hn Hd) as [S1 S2].
  apply ratio_log2_unique; try nia; rewrite ratio_ge_pow2_scale; assumption.
Qed.

(** The rounded quotient depends on the ratio only. *)
Lemma round_ratio_scale (s : bool) (c n d : Z) :
  0 < c -> 0 < n -> 0 < d ->
  round_ratio s (c * n) (c * d) = round_ratio s n d.
Proof.
  intros Hc Hn Hd. unfold round_ratio.
  rewrite (ratio_log2_scale c n d Hc Hn Hd).
  set (e := Z.max (ratio_log2 n d - 52) (-1074)).
  set (num := if 0 <=? e then n else n * 2 ^ (- e)).
  set (den := if 0 <=? e then d * 2 ^ e else d).
  assert (Hnum : (if 0 <=? e then c * n else c * n * 2 ^ (- e)) = c * num).
  { unfold num. destruct (0 <=? e); ring. }
  assert (Hden : (if 0 <=? e then c * d * 2 ^ e else c * d) = c * den).
  { unfold den. destruct (0 <=? e); ring. }
  assert (Dpos : 0 < den).
  { unfold den. destruct (0 <=? e) eqn:E; [|exact Hd].
    apply Z.leb_le in E. pose proof (pow2_pos e E). nia. }
  rewrite Hnum, Hden.
  rewrite (Z.div_mul_cancel_l num den c) by lia.
  rewrite (Z.mul_mod_distr_l num den c) by lia.
  replace (c * den <? 2 * (c * (num mod den))) with (den <? 2 * (num mod den)).
  2:{ apply eq_iff_eq_true. rewrite !Z.ltb_lt. nia. }
  replace (c * den =? 2 * (c * (num mod den))) with (den =? 2 * (num mod den)).
  2:{ apply eq_iff_eq_true. rewrite !Z.eqb_eq. nia. }
  reflexivity.
Qed.

(** The bounds of a valid mantissa and exponent. *)
Lemma valid_float_bounds (s : bool) (m : positive) (e : Z) :
  valid_float (S754_finite s m e) = true ->
  Zpos m < 2 ^ 53 /\ -1074 <= e <= 971 /\ (2 ^ 52 <= Zpos m \/ e = -1074).
Proof.
  cbn [valid_float]. rewrite !andb_true_iff, orb_true_iff.
  rewrite Z.ltb_lt, !Z.leb_le, Z.eqb_eq. tauto.
Qed.

(** A ratio that is a mantissa at the exponent the rounding chooses is
    rounded to itself. *)
Lemma round_ratio_core (s : bool) (m : positive) (e n d : Z) :
  valid_float (S754_finite s m e) = true ->
  0 < d ->
  Z.max (ratio_log2 n d - 52) (-1074) = e ->
  (if 0 <=? e then n else n * 2 ^ (- e))
  = Zpos m * (if 0 <=? e then d * 2 ^ e else d) ->
  round_ratio s n d = S754_finite s m e.
Proof.
  intros V Hd He Q.
  destruct (valid_float_bounds s m e V) as (M1 & E1 & M2).
  unfold round_ratio. rewrite He, Q.
  set (den := if 0 <=? e then d * 2 ^ e else d).
  assert (Dpos : 0 < den).
  { unfold den. destruct (0 <=? e) eqn:E; [|exact Hd].
    apply Z.leb_le in E. pose proof (pow2_pos e E). nia. }
  rewrite Z.div_mul, Z.mod_mul by lia.
  replace (den <? 2 * 0) with false by (symmetry; apply Z.ltb_ge; lia).
  replace (den =? 2 * 0) with false by (symmetry; apply Z.eqb_neq; lia).
  cbn [orb andb].
  replace (Zpos m =? 2 ^ 53) with false by (symmetry; apply Z.eqb_neq; lia).
  replace (e <=? 971) with true by (symmetry; apply Z.leb_le; lia).
  reflexivity.
Qed.

(** The logarithm of [m * 2^e] for a normal mantissa. *)
Lemma ratio_log2_normal (m e n d : Z) :
  0 < n -> 0 < d -> 2 ^ 52 <= m < 2 ^ 53 ->
  (0 <= e -> n = m * (d * 2 ^ e)) ->
  (e < 0 -> n * 2 ^ (- e) = m * d) ->
  ratio_log2 n d = e + 52.
Proof.
  intros Hn Hd Hm Hpos Hneg. apply ratio_log2_unique; try assumption.
  - rewrite (ratio_ge_pow2_shift n d (e + 52) (Z.max 0 (- e))) by lia.
    apply Z.leb_le. destruct (Z.le_gt_cases 0 e) as [E|E].
    + rewrite Z.max_l by lia. rewrite Z.add_0_r, Z.pow_0_r, Z.mul_1_r.
      rewrite (Hpos E), (Z.pow_add_r 2 e 52) by lia.
      pose proof (pow2_pos e E). nia.
    + rewrite Z.max_r by lia. replace (e + 52 + - e) with 52 by lia.
      rewrite (Hneg E). nia.
  - rewrite (ratio_ge_pow2_shift n d (e + 52 + 1) (Z.max 0 (- e))) by lia.
    apply Z.leb_gt. destruct (Z.le_gt_cases 0 e) as [E|E].
    + rewrite Z.max_l by lia. rewrite Z.add_0_r, Z.pow_0_r, Z.mul_1_r.
      replace (e + 52 + 1) with (e + 53) by lia.
      rewrite (Hpos E), (Z.pow_add_r 2 e 53) by lia.
      pose proof (pow2_pos e E). nia.
    + rewrite Z.max_r by lia. replace (e + 52 + 1 + - e) with 53 by lia.
      rewrite (Hneg E). nia.
Qed.

Lemma round_ratio_exact_pos (s : bool) (m : positive) (e : Z) :
  valid_float (S754_finite s m e) = true -> 0 <= e ->
  round_ratio s (Zpos m * 2 ^ e) 1 = S754_finite s m e.
Proof.
  intros V E. destruct (valid_float_bounds s m e V) as (M1 & E1 & M2).
  pose proof (pow2_pos e E) as P.
  apply round_ratio_core; try assumption; try lia.
  - rewrite (ratio_log2_normal (Zpos m) e) ; try lia; nia.
  - replace (0 <=? e) with true by (symmetry; apply Z.leb_le; lia). ring.
Qed.

Lemma round_ratio_exact_neg (s : bool) (m : positive) (e : Z) :
  valid_float (S754_finite s m e) = true -> e < 0 ->
  round_ratio s (Zpos m) (2 ^ (- e)) = S754_finite s m e.
Proof.
  intros V E. destruct (valid_float_bounds s m e V) as (M1 & E1 & M2).
  pose proof (pow2_pos (- e) ltac:(lia)) as P.
  apply round_ratio_core; try assumption.
  - destruct M2 as [M2|M2].
    + rewrite (ratio_log2_normal (Zpos m) e); try lia.
    + subst e. apply Z.max_r.
      destruct (ratio_log2_spec (Zpos m) (2 ^ (- -1074)) ltac:(lia) P) as [S1 _].
      destruct (Z.le_gt_cases (ratio_log2 (Zpos m) (2 ^ (- -1074)) - 52) (-1074))
        as [L|G]; [exact L|exfalso].
      assert (S1' : ratio_ge_pow2 (Zpos m) (2 ^ (- -1074)) (-1021) = true)
        by (apply (ratio_ge_pow2_mono _ _ (ratio_log2 (Zpos m) (2 ^ (- -1074))));
            auto; lia).
      rewrite (ratio_ge_pow2_shift _ _ (-1021) 1074) in S1' by lia.
      apply Z.leb_le in S1'.
      replace (-1021 + 1074) with 53 in S1' by lia.
      change (- -1074) with 1074 in *. nia.
  - replace (0 <=? e) with false by (symmetry; apply Z.leb_gt; lia). ring.
Qed.

(** Every rounded ratio is a float of the machine. *)
Lemma round_ratio_valid (s : bool) (n d : Z) :
  0 < n -> 0 < d -> valid_float (round_ratio s n d) = true.
Proof.
  intros Hn Hd. destruct (ratio_log2_spec n d Hn Hd) as [S1 S2].
  unfold round_ratio.
  set (lg := ratio_log2 n d) in *.
  set (e := Z.max (lg - 52) (-1074)).
  set (num := if 0 <=? e then n else n * 2 ^ (- e)).
  set (den := if 0 <=? e then d * 2 ^ e else d).
  assert (Dpos : 0 < den).
  { unfold den. destruct (0 <=? e) eqn:E; [|exact Hd].
    apply Z.leb_le in E. pose proof (pow2_pos e E). nia. }
  assert (Npos : 0 < num).
  { unfold num. destruct (0 <=? e) eqn:E; [exact Hn|].
    apply Z.leb_gt in E. pose proof (pow2_pos (- e) ltac:(lia)). nia. }
  (* the quotient is below 2^53 *)
  assert (Up : num < den * 2 ^ 53).
  { set (t := Z.max (lg + 1) e).
    assert (F : ratio_ge_pow2 n d t = false).
    { destruct (ratio_ge_pow2 n d t) eqn:F; [|reflexivity].
      rewrite (ratio_ge_pow2_mono n d t (lg + 1) Hn Hd ltac:(lia) F) in S2.
      discriminate. }
    rewrite (ratio_ge_pow2_shift n d t (Z.max 0 (- e))) in F by lia.
    apply Z.leb_gt in F.
    assert (T : 0 <= t - e <= 53) by lia.
    assert (P : 2 ^ (t - e) <= 2 ^ 53) by (apply Z.pow_le_mono_r; lia).
    unfold num, den. destruct (0 <=? e) eqn:E.
    - apply Z.leb_le in E. rewrite Z.max_l in F by lia.
      rewrite Z.add_0_r, Z.pow_0_r, Z.mul_1_r in F.
      replace t with (e + (t - e)) in F by lia.
      rewrite Z.pow_add_r in F by lia.
      pose proof (pow2_pos e E). nia.
    - apply Z.leb_gt in E. rewrite Z.max_r in F by lia.
      replace (t + - e) with (t - e) in F by lia. nia. }
  (* the quotient of a normal number is at least 2^52 *)
  assert (Lo : -1074 < e -> den * 2 ^ 52 <= num).
  { intros G. assert (El : e = lg - 52) by lia.
    rewrite (ratio_ge_pow2_shift n d lg (Z.max 0 (- e))) in S1 by lia.
    apply Z.leb_le in S1.
    unfold num, den. destruct (0 <=? e) eqn:E.
    - apply Z.leb_le in E. rewrite Z.max_l in S1 by lia.
      rewrite Z.add_0_r, Z.pow_0_r, Z.mul_1_r in S1.
      replace lg with (e + 52) in S1 by lia.
      rewrite Z.pow_add_r in S1 by lia. nia.
    - apply Z.leb_gt in E. rewrite Z.max_r in S1 by lia.
      replace (lg + - e) with 52 in S1 by lia. nia. }
  assert (Q1 : num / den < 2 ^ 53).
  { apply Z.div_lt_upper_bound; [exact Dpos | nia]. }
  assert (Q0 : 0 <= num / den) by (apply Z.div_pos; lia).
  assert (Q2 : -1074 < e -> 2 ^ 52 <= num / den).
  { intros G. apply Z.div_le_lower_bound; [exact Dpos|].
    specialize (Lo G). nia. }
  assert (E0 : -1074 <= e) by lia.
  set (q := num / den) in *.
  set (m := if (den <? 2 * (num mod den)) || ((den =? 2 * (num mod den)) && Z.odd q)
            then q + 1 else q).
  assert (Hm : q <= m <= q + 1) by (unfold m; destruct (_ || _); lia).
  destruct (m =? 2 ^ 53) eqn:R.
  - change (2 ^ 52) with 4503599627370496 at 1.
    destruct (e + 1 <=? 971) eqn:L; [|reflexivity].
    apply Z.leb_le in L. cbn [valid_float].
    rewrite !andb_true_iff, orb_true_iff, Z.ltb_lt, !Z.leb_le, Z.eqb_eq.
    lia.
  - apply Z.eqb_neq in R.
    destruct m as [|p|p] eqn:Em; try reflexivity.
    destruct (e <=? 971) eqn:L; [|reflexivity].
    apply Z.leb_le in L. cbn [valid_float].
    rewrite !andb_true_iff, orb_true_iff, Z.ltb_lt, !Z.leb_le, Z.eqb_eq.
    lia.
Qed.

Lemma float_of_decimal_valid (s : bool) (D : N) (k : Z) :
  valid_float (float_of_decimal s D k) = true.
Proof.
  unfold float_of_decimal. destruct D as [|p]; [reflexivity|].
  destruct (0 <=? k) eqn:E.
  - apply Z.leb_le in E. apply round_ratio_valid; [|lia].
    pose proof (pow_pos' 10 k ltac:(lia) E). cbn [Z.of_N]. nia.
  - apply Z.leb_gt in E. apply round_ratio_valid; [reflexivity|].
    apply pow_pos'; lia.
Qed.

(** A zero at the end of the digits can go into the exponent. *)
Lemma float_of_decimal_shift (s : bool) (D : N) (k : Z) :
  float_of_decimal s (10 * D) k = float_of_decimal s D (k + 1).
Proof.
  unfold float_of_decimal. destruct D as [|p]; [reflexivity|].
  change (10 * N.pos p)%N with (N.pos (10 * p)).
  cbn [Z.of_N]. change (Z.pos (10 * p)) with (10 * Z.pos p).
  destruct (0 <=? k) eqn:E.
  - apply Z.leb_le in E.
    replace (0 <=? k + 1) with true by (symmetry; apply Z.leb_le; lia).
    rewrite Z.pow_add_r, Z.pow_1_r by lia. f_equal. ring.
  - apply Z.leb_gt in E. destruct (0 <=? k + 1) eqn:E1.
    + apply Z.leb_le in E1. assert (k = -1) by lia. subst k.
      change (-1 + 1) with 0. change (- -1) with 1.
      rewrite Z.pow_0_r, Z.pow_1_r, Z.mul_1_r.
      replace 10 with (10 * 1) at 2 by reflexivity.
      apply round_ratio_scale; lia.
    + apply Z.leb_gt in E1.
      replace (- k) with (1 + - (k + 1)) by lia.
      rewrite Z.pow_add_r, Z.pow_1_r by lia.
      apply round_ratio_scale; first [lia | apply pow_pos'; lia].
Qed.

Lemma float_of_decimal_shift_n (s : bool) (D : N) (k : Z) (j : nat) :
  float_of_decimal s (D * 10 ^ N.of_nat j) k
  = float_of_decimal s D (k + Z.of_nat j).
Proof.
  revert D k. induction j as [|j IH]; intros D k.
  - cbn [N.of_nat]. rewrite N.pow_0_r, N.mul_1_r, Z.add_0_r. reflexivity.
  - rewrite Nat2N.inj_succ, N.pow_succ_r', Nat2Z.inj_succ.
    replace (D * (10 * 10 ^ N.of_nat j))%N with (10 * (D * 10 ^ N.of_nat j))%N
      by lia.
    rewrite float_of_decimal_shift, IH. f_equal. lia.
Qed.

(** The exact decimal expansion of a float reads back as the float. *)
Lemma exact_decimal_reads_back (s : bool) (m : positive) (e : Z) :
  valid_float (S754_finite s m e) = true ->
  float_of_decimal s (fst (exact_decimal m e)) (snd (exact_decimal m e))
  = S754_finite s m e.
Proof.
  intros V. unfold exact_decimal. destruct (0 <=? e) eqn:E; cbn [fst snd].
  - apply Z.leb_le in E. pose proof (pow2_pos e E) as P.
    unfold float_of_decimal.
    destruct (Z.to_N (Z.pos m * 2 ^ e)) as [|p] eqn:X.
    + exfalso. assert (0 < Z.pos m * 2 ^ e) by nia. lia.
    + rewrite <- X. rewrite Z2N.id by nia.
      cbn [Z.leb Z.compare]. rewrite Z.pow_0_r, Z.mul_1_r.
      apply round_ratio_exact_pos; assumption.
  - apply Z.leb_gt in E.
    pose proof (pow_pos' 5 (- e) ltac:(lia) ltac:(lia)) as P5.
    pose proof (pow2_pos (- e) ltac:(lia)) as P2.
    unfold float_of_decimal.
    destruct (Z.to_N (Z.pos m * 5 ^ (- e))) as [|p] eqn:X.
    + exfalso. assert (0 < Z.pos m * 5 ^ (- e)) by nia. lia.
    + rewrite <- X. rewrite Z2N.id by nia.
      replace (0 <=? e) with false by (symmetry; apply Z.leb_gt; lia).
      replace (10 ^ (- e)) with (5 ^ (- e) * 2 ^ (- e))
        by (rewrite <- Z.pow_mul_l; reflexivity).
      rewrite (Z.mul_comm (Z.pos m)).
      rewrite round_ratio_scale by lia.
      apply round_ratio_exact_neg; assumption.
Qed.

Lemma float_same_eq (a b : spec_float) : float_same a b = true <-> a = b.
Proof.
  destruct a as [s|s| |s m e], b as [s'|s'| |s' m' e']; cbn [float_same];
    try (split; [discriminate | congruence]); try tauto.
  - rewrite Bool.eqb_true_iff. split; congruence.
  - rewrite Bool.eqb_true_iff. split; congruence.
  - rewrite !andb_true_iff, Bool.eqb_true_iff, Pos.eqb_eq, Z.eqb_eq.
    split; [intros [[-> ->] ->]; reflexivity | intros H; injection H; auto].
Qed.

Close Scope Z_scope.

(** ** The shortest decimal number of a float *)

Lemma candidate_reads_back (f : spec_float) (s : bool) (X : N) (x : Z)
    (L n : nat) (D : N) (k : Z) :
  candidate f s X x L n = Some (D, k) -> float_of_decimal s D k = f.
Proof.
  unfold candidate.
  set (p := (10 ^ N.of_nat (L - n))%N).
  set (k0 := (x + Z.of_nat (L - n))%Z).
  destruct (float_same (float_of_decimal s (X / p) k0) f) eqn:Lo;
    destruct (float_same (float_of_decimal s (X / p + 1) k0) f) eqn:Hi;
    cbn [andb]; intros H; try discriminate;
    apply float_same_eq in Lo || clear Lo;
    apply float_same_eq in Hi || clear Hi;
    injection H as <- <-;
    repeat match goal with |- context [if ?b then _ else _] => destruct b end;
    assumption.
Qed.

Lemma shortest_reads_back (f : spec_float) (s : bool) (X : N) (x : Z) (L : nat) :
  float_of_decimal s X x = f ->
  forall fuel n,
    float_of_decimal s (fst (shortest f s X x L fuel n))
                       (snd (shortest f s X x L fuel n)) = f.
Proof.
  intros E fuel. induction fuel as [|fuel IH]; intros n; cbn [shortest].
  - exact E.
  - destruct (L <=? n)%nat; [exact E|].
    destruct (candidate f s X x L n) as [[D k]|] eqn:C.
    + apply (candidate_reads_back f s X x L n D k C).
    + apply IH.
Qed.

Lemma strip_zeros_reads_back (s : bool) (fuel : nat) (D : N) (k : Z) :
  float_of_decimal s (fst (strip_zeros fuel D k)) (snd (strip_zeros fuel D k))
  = float_of_decimal s D k.
Proof.
  revert D k. induction fuel as [|fuel IH]; intros D k; cbn [strip_zeros].
  - reflexivity.
  - destruct ((D mod 10 =? 0)%N && negb (D =? 0)%N) eqn:Z0; [|reflexivity].
    apply andb_true_iff in Z0. destruct Z0 as [Z0 _].
    apply N.eqb_eq in Z0. rewrite IH, <- float_of_decimal_shift.
    f_equal. pose proof (N.div_mod D 10 ltac:(discriminate)). lia.
Qed.

Lemma repr_decimal_reads_back (s : bool) (m : positive) (e : Z) :
  valid_float (S754_finite s m e) = true ->
  float_of_decimal s (fst (repr_decimal s m e)) (snd (repr_decimal s m e))
  = S754_finite s m e.
Proof.
  intros V. unfold repr_decimal.
  pose proof (exact_decimal_reads_back s m e V) as E.
  destruct (exact_decimal m e) as [X x]. cbn [fst snd] in E.
  pose proof (shortest_reads_back _ s X x
                (List.length (digits_of_N X)) E 17 1) as H.
  destruct (shortest _ s X x _ 17 1) as [D k]. cbn [fst snd] in H.
  rewrite strip_zeros_reads_back. exact H.
Qed.

Lemma repr_decimal_nonzero (s : bool) (m : positive) (e : Z) :
  valid_float (S754_finite s m e) = true ->
  fst (repr_decimal s m e) <> 0%N.
Proof.
  intros V E. pose proof (repr_decimal_reads_back s m e V) as H.
  rewrite E in H. discriminate.
Qed.

(** ** Digit strings *)

Lemma digits_value_acc (ds : str) (acc : N) :
  fold_left (fun a c => (a * 10 + (c - 48))%N) ds acc
  = (acc * 10 ^ N.of_nat (List.length ds) + digits_value ds)%N.
Proof.
  unfold digits_value. revert acc.
  induction ds as [|c ds IH]; intros acc; cbn [fold_left List.length].
  - cbn. lia.
  - rewrite IH, (IH (0 * 10 + (c - 48))%N).
    rewrite Nat2N.inj_succ, N.pow_succ_r'. lia.
Qed.

Lemma digits_value_app (a b : str) :
  digits_value (a ++ b)
  = (digits_value a * 10 ^ N.of_nat (List.length b) + digits_value b)%N.
Proof.
  unfold digits_value at 1. rewrite fold_left_app.
  fold (digits_value a). apply digits_value_acc.
Qed.

Lemma digits_value_cons (c : N) (ds : str) :
  digits_value (c :: ds)
  = ((c - 48) * 10 ^ N.of_nat (List.length ds) + digits_value ds)%N.
Proof.
  change (c :: ds) with ([c] ++ ds). rewrite digits_value_app.
  f_equal.
Qed.

Lemma digits_value_zeros (j : nat) : digits_value (repeat 48%N j) = 0%N.
Proof.
  induction j as [|j IH]; [reflexivity|].
  cbn [repeat]. rewrite digits_value_cons, IH. reflexivity.
Qed.

Lemma digits_of_uint_digits (d : Decimal.uint) :
  forallb is_digit (digits_of_uint d) = true.
Proof. induction d; cbn [digits_of_uint forallb]; auto. Qed.

Lemma digits_value_of_uint_acc (d : Decimal.uint) (acc : positive) :
  fold_left (fun a c => (a * 10 + (c - 48))%N) (digits_of_uint d) (Npos acc)
  = Npos (Pos.of_uint_acc d acc).
Proof.
  revert acc. induction d; intros acc;
    cbn [digits_of_uint fold_left Pos.of_uint_acc];
    [reflexivity | rewrite <- IHd; f_equal; lia ..].
Qed.

Lemma digits_value_of_uint (d : Decimal.uint) :
  digits_value (digits_of_uint d) = N.of_uint d.
Proof.
  unfold digits_value, N.of_uint.
  induction d; cbn [digits_of_uint fold_left Pos.of_uint];
    [reflexivity | exact IHd | apply digits_value_of_uint_acc ..].
Qed.

Lemma digits_value_of_N (n : N) : digits_value (digits_of_N n) = n.
Proof.
  unfold digits_of_N. rewrite digits_value_of_uint.
  apply DecimalN.Unsigned.of_to.
Qed.

Lemma digits_of_N_digits (n : N) : forallb is_digit (digits_of_N n) = true.
Proof. apply digits_of_uint_digits. Qed.

(** The decimal form of a positive number starts with a digit that is
    not [0]. *)
Lemma to_uint_head (p : positive) :
  exists c t, digits_of_uint (Pos.to_uint p) = c :: t /\
              is_digit c = true /\ (c =? 48)%N = false.
Proof.
  assert (N : Decimal.unorm (Pos.to_uint p) = Pos.to_uint p).
  { rewrite <- (DecimalPos.Unsigned.to_of (Pos.to_uint p)).
    rewrite DecimalPos.Unsigned.of_to. reflexivity. }
  pose proof (DecimalPos.Unsigned.to_uint_nonzero p) as Z.
  pose proof (DecimalPos.Unsigned.to_uint_nonnil p) as NI.
  destruct (Pos.to_uint p) as [|d|d|d|d|d|d|d|d|d|d] eqn:E;
    try (do 2 eexists; split; [reflexivity | split; reflexivity]).
  - congruence.
  - exfalso. unfold Decimal.unorm in N. rewrite DecimalFacts.nzhead_D0 in N.
    destruct (Decimal.nzhead d) eqn:H; try congruence.
    apply (DecimalFacts.nzhead_nonzero d d). congruence.
Qed.

Lemma digits_of_N_head (n : N) :
  n <> 0%N ->
  exists c t, digits_of_N n = c :: t /\
              is_digit c = true /\ (c =? 48)%N = false.
Proof.
  destruct n as [|p]; [congruence|]. intros _. apply to_uint_head.
Qed.

Lemma digits_of_N_zero : digits_of_N 0 = [48%N].
Proof. reflexivity. Qed.

Lemma is_digit_not_minus (c : N) : is_digit c = true -> (c =? 45)%N = false.
Proof.
  unfold is_digit. intros H. apply andb_true_iff in H as [A B].
  apply N.leb_le in A. apply N.eqb_neq. lia.
Qed.

Lemma is_digit_bounds (c : N) : is_digit c = true -> (48 <= c <= 57)%N.
Proof.
  unfold is_digit. intros H. apply andb_true_iff in H as [A B].
  apply N.leb_le in A. apply N.leb_le in B. lia.
Qed.

Lemma digits_value_upper (ds : str) :
  forallb is_digit ds = true ->
  (digits_value ds < 10 ^ N.of_nat (List.length ds))%N.
Proof.
  induction ds as [|c ds IH]; [intros _; cbn; lia|].
  cbn [forallb]. intros H. apply andb_true_iff in H as [Hc Hd].
  specialize (IH Hd). apply is_digit_bounds in Hc.
  rewrite digits_value_cons. cbn [List.length].
  rewrite Nat2N.inj_succ, N.pow_succ_r'. nia.
Qed.

Lemma digits_value_lower (c : N) (ds : str) :
  is_digit c = true -> (c =? 48)%N = false ->
  (10 ^ N.of_nat (List.length ds) <= digits_value (c :: ds))%N.
Proof.
  intros Hc H0. apply is_digit_bounds in Hc. apply N.eqb_neq in H0.
  rewrite digits_value_cons. nia.
Qed.

(** A number written with [L] digits has a decimal form of at most [L]
    digits. *)
Lemma digits_of_N_length (ds : str) :
  forallb is_digit ds = true -> ds <> [] ->
  List.length (digits_of_N (digits_value ds)) <= List.length ds.
Proof.
  intros Hd Hn. destruct (N.eq_dec (digits_value ds) 0) as [E|E].
  - rewrite E. destruct ds; [congruence | cbn; lia].
  - destruct (digits_of_N_head _ E) as (c & t & Et & Hc & H0).
    pose proof (digits_value_lower c t Hc H0) as Lo.
    rewrite <- Et, digits_value_of_N in Lo.
    pose proof (digits_value_upper ds Hd) as Up.
    rewrite Et. cbn [List.length].
    assert (P : (10 ^ N.of_nat (List.length t)
                 < 10 ^ N.of_nat (List.length ds))%N) by lia.
    apply N.pow_lt_mono_r_iff in P; lia.
Qed.

Lemma span_digits_rest (rest : str) :
  match rest with c :: _ => is_digit c | [] => false end = false ->
  span_digits rest = ([], rest).
Proof. destruct rest as [|c r]; cbn; [reflexivity|]. intros ->. reflexivity. Qed.

Lemma span_digits_app (ds rest : str) :
  forallb is_digit ds = true ->
  match rest with c :: _ => is_digit c | [] => false end = false ->
  span_digits (ds ++ rest) = (ds, rest).
Proof.
  intros Hd Hr. induction ds as [|c ds IH]; cbn [app].
  - apply span_digits_rest, Hr.
  - cbn [forallb] in Hd. apply andb_true_iff in Hd as [Hc Hd].
    cbn [span_digits]. rewrite Hc, (IH Hd). reflexivity.
Qed.

(** What [span_digits] returns: digits, and the text split in two. *)
Lemma span_digits_spec (s : str) :
  forallb is_digit (fst (span_digits s)) = true /\
  s = fst (span_digits s) ++ snd (span_digits s).
Proof.
  induction s as [|c s [IH1 IH2]]; [split; reflexivity|].
  cbn [span_digits]. destruct (is_digit c) eqn:E; [|split; reflexivity].
  destruct (span_digits s) as [ds r]. cbn [fst snd forallb] in *.
  split; [rewrite E; exact IH1 | rewrite IH2 at 1; reflexivity].
Qed.

Lemma delim_not_digit (rest : str) :
  delim rest = true ->
  match rest with c :: _ => is_digit c | [] => false end = false.
Proof.
  destruct rest as [|c r]; [reflexivity|]. unfold delim, is_digit.
  rewrite !orb_true_iff, !N.eqb_eq. intros [[->| ->]| ->]; reflexivity.
Qed.

Lemma scan_fraction_delim (rest : str) :
  delim rest = true -> scan_fraction rest = ([], rest).
Proof.
  destruct rest as [|c r]; [reflexivity|]. unfold delim.
  rewrite !orb_true_iff, !N.eqb_eq. intros [[->| ->]| ->]; reflexivity.
Qed.

Lemma scan_exponent_delim (rest : str) :
  delim rest = true -> scan_exponent rest = None.
Proof.
  destruct rest as [|c r]; [reflexivity|]. unfold delim.
  rewrite !orb_true_iff, !N.eqb_eq. intros [[->| ->]| ->]; reflexivity.
Qed.

(** *** Integers *)

Lemma parse_unsigned_int (neg : bool) (p : positive) (rest : str) :
  wf_json (JInt (Zpos p)) = true -> delim rest = true ->
  parse_unsigned neg (digits_of_N (Npos p) ++ rest)
  = Ok (JInt (if neg then Zneg p else Zpos p), rest).
Proof.
  cbn [wf_json Z.abs_N]. intros W D. pose proof (delim_not_digit _ D) as ND.
  destruct (digits_of_N_head (Npos p) ltac:(discriminate))
    as (c & t & E & Hd & H0).
  unfold parse_unsigned. rewrite E. cbn [app]. rewrite Hd, H0.
  change (c :: t ++ rest) with ((c :: t) ++ rest). rewrite <- E.
  rewrite (span_digits_app _ _ (digits_of_N_digits _) ND).
  rewrite (scan_fraction_delim _ D), (scan_exponent_delim _ D).
  replace (max_str_digits <? List.length (digits_of_N (N.pos p)))%nat
    with false
    by (symmetry; apply Nat.ltb_ge; apply Nat.leb_le; exact W).
  rewrite digits_value_of_N. destruct neg; reflexivity.
Qed.

Lemma parse_number_dumps_int (z : Z) (rest : str) :
  wf_json (JInt z) = true -> delim rest = true ->
  parse_number (dumps_int z ++ rest) = Ok (JInt z, rest).
Proof.
  intros W D. unfold dumps_int, Z.to_int. destruct z as [|p|p].
  - cbn. rewrite (scan_fraction_delim _ D), (scan_exponent_delim _ D).
    reflexivity.
  - change (digits_of_uint (Pos.to_uint p)) with (digits_of_N (Npos p)).
    destruct (digits_of_N_head (Npos p) ltac:(discriminate))
      as (c & t & E & Hd & H0).
    unfold parse_number. rewrite E. cbn [app].
    rewrite (is_digit_not_minus c Hd).
    change (c :: t ++ rest) with ((c :: t) ++ rest). rewrite <- E.
    apply (parse_unsigned_int false p rest W D).
  - change (digits_of_uint (Pos.to_uint p)) with (digits_of_N (Npos p)).
    unfold parse_number. cbn [app]. rewrite N.eqb_refl.
    apply (parse_unsigned_int true p rest W D).
Qed.

(** ** The text of a float *)

Lemma digits_of_N_nonnil (n : N) : digits_of_N n <> [].
Proof.
  destruct n as [|p]; [discriminate|].
  destruct (digits_of_N_head (Npos p) ltac:(discriminate)) as (c & t & E & _).
  rewrite E. discriminate.
Qed.

Lemma repeat_digits (j : nat) : forallb is_digit (repeat 48%N j) = true.
Proof. induction j; cbn [repeat forallb]; auto. Qed.

Lemma forallb_firstn {A} (f : A -> bool) (n : nat) (l : list A) :
  forallb f l = true -> forallb f (firstn n l) = true.
Proof.
  revert n. induction l as [|a l IH]; intros [|n] H; cbn [firstn forallb]; auto.
  cbn [forallb] in H. apply andb_true_iff in H as [Ha Hl].
  rewrite Ha. apply IH, Hl.
Qed.

Lemma forallb_skipn {A} (f : A -> bool) (n : nat) (l : list A) :
  forallb f l = true -> forallb f (skipn n l) = true.
Proof.
  revert n. induction l as [|a l IH]; intros [|n] H; cbn [skipn]; auto.
  cbn [forallb] in H. apply andb_true_iff in H as [Ha Hl]. apply IH, Hl.
Qed.

Lemma digits_value_leading_zeros (j : nat) (ds : str) :
  digits_value (repeat 48%N j ++ ds) = digits_value ds.
Proof. rewrite digits_value_app, digits_value_zeros. reflexivity. Qed.

Lemma digits_value_trailing_zeros (ds : str) (j : nat) :
  digits_value (ds ++ repeat 48%N j) = (digits_value ds * 10 ^ N.of_nat j)%N.
Proof.
  rewrite digits_value_app, digits_value_zeros, repeat_length. lia.
Qed.

(** The exponent reads back. *)
Lemma scan_exponent_text (x : Z) (rest : str) :
  delim rest = true ->
  scan_exponent (exponent_text x ++ rest) = Some (x, rest).
Proof.
  intros D. pose proof (delim_not_digit _ D) as ND.
  unfold exponent_text.
  set (eds := digits_of_N (Z.abs_N x)).
  set (pad := match eds with [_] => [48%N] | _ => [] end).
  assert (Hpad : pad = [] \/ pad = [48%N])
    by (unfold pad; destruct eds as [|? [|? ?]]; auto).
  assert (Hdig : forallb is_digit (pad ++ eds) = true).
  { rewrite forallb_app. unfold eds. rewrite digits_of_N_digits.
    destruct Hpad as [-> | ->]; reflexivity. }
  assert (Hval : digits_value (pad ++ eds) = Z.abs_N x).
  { destruct Hpad as [-> | ->].
    - apply digits_value_of_N.
    - change ([48%N] ++ eds) with (repeat 48%N 1 ++ eds).
      rewrite digits_value_leading_zeros. apply digits_value_of_N. }
  assert (Hnn : pad ++ eds <> []).
  { intros E. apply app_eq_nil in E as [_ E].
    exact (digits_of_N_nonnil _ E). }
  assert (R : span_digits (pad ++ eds ++ rest) = (pad ++ eds, rest))
    by (rewrite app_assoc; apply span_digits_app; assumption).
  rewrite <- !app_assoc. cbn [app].
  destruct (x <? 0)%Z eqn:S;
    cbn [scan_exponent N.eqb Pos.eqb orb]; rewrite R;
    (destruct (pad ++ eds) as [|c0 es]; [congruence|]);
    rewrite Hval; do 2 f_equal;
    [apply Z.ltb_lt in S | apply Z.ltb_ge in S]; lia.
Qed.

Lemma scan_exponent_none (c : N) (t : str) :
  (c =? 101)%N || (c =? 69)%N = false -> scan_exponent (c :: t) = None.
Proof. intros H. cbn [scan_exponent]. rewrite H. reflexivity. Qed.

Lemma scan_fraction_digits (c : N) (fs rest : str) :
  is_digit c = true -> forallb is_digit fs = true ->
  match rest with c1 :: _ => is_digit c1 | [] => false end = false ->
  scan_fraction (46%N :: c :: fs ++ rest) = (c :: fs, rest).
Proof.
  intros Hc Hf Hr. cbn [scan_fraction N.eqb Pos.eqb andb]. rewrite Hc.
  change (c :: fs ++ rest) with ((c :: fs) ++ rest).
  apply span_digits_app; [|exact Hr]. cbn [forallb]. rewrite Hc. exact Hf.
Qed.

Lemma exponent_text_head (x : Z) :
  exists t, exponent_text x = 101%N :: t.
Proof. eexists. reflexivity. Qed.

Lemma float_result_eq (neg : bool) (D D' : N) (k k' : Z) (rest : str) :
  D' = D -> k' = k ->
  Ok (JFloat (float_of_decimal neg D' k'), rest)
  = Ok (JFloat (float_of_decimal neg D k), rest).
Proof. intros -> ->. reflexivity. Qed.

(** A formatted decimal number reads back as its digits and exponent. *)
Lemma parse_format_decimal (neg : bool) (D : N) (k : Z) (rest : str) :
  D <> 0%N -> delim rest = true ->
  parse_unsigned neg (format_decimal D k ++ rest)
  = Ok (JFloat (float_of_decimal neg D k), rest).
Proof.
  intros HD Dl. pose proof (delim_not_digit _ Dl) as ND.
  destruct (digits_of_N_head D HD) as (c & t & E & Hc & H0).
  pose proof (digits_of_N_digits D) as Hds.
  pose proof (digits_value_of_N D) as Hv.
  unfold format_decimal. rewrite E in *.
  cbn [forallb] in Hds. apply andb_true_iff in Hds as [_ Ht].
  set (n := Z.of_nat (List.length (c :: t))).
  assert (Hn : n = Z.of_nat (S (List.length t))) by reflexivity.
  destruct ((n + k <=? -4)%Z || (16 <? n + k)%Z) eqn:C1.
  - (* scientific notation *)
    cbn [firstn skipn].
    destruct t as [|c1 t1].
    + cbn [app]. unfold parse_unsigned. rewrite Hc, H0.
      destruct (exponent_text_head (n + k - 1)) as (et & Ee).
      rewrite Ee. cbn [app span_digits]. rewrite Hc.
      cbn [is_digit N.leb N.compare Pos.compare Pos.compare_cont andb
           scan_fraction N.eqb Pos.eqb].
      change (101%N :: et ++ rest) with ((101%N :: et) ++ rest).
      rewrite <- Ee, (scan_exponent_text _ _ Dl).
      apply float_result_eq; [exact Hv | cbn [List.length] in *; lia].
    + cbn [app]. unfold parse_unsigned. rewrite Hc, H0.
      cbn [span_digits]. rewrite Hc.
      cbn [is_digit N.leb N.compare Pos.compare Pos.compare_cont andb].
      cbn [forallb] in Ht. apply andb_true_iff in Ht as [Hc1 Ht1].
      destruct (exponent_text_head (n + k - 1)) as (et & Ee).
      rewrite <- app_assoc.
      change ((c1 :: t1) ++ exponent_text (n + k - 1) ++ rest)
        with (c1 :: t1 ++ exponent_text (n + k - 1) ++ rest).
      rewrite (scan_fraction_digits c1 t1 _ Hc1 Ht1)
        by (rewrite Ee; reflexivity).
      rewrite (scan_exponent_text _ _ Dl).
      apply float_result_eq; [exact Hv | cbn [List.length] in *; lia].
  - destruct (n + k <=? 0)%Z eqn:C2.
    + (* 0.00ddd *)
      apply Z.leb_le in C2.
      set (zs := repeat 48%N (Z.to_nat (- (n + k)))).
      assert (Hz : forallb is_digit (zs ++ c :: t) = true).
      { rewrite forallb_app. unfold zs. rewrite repeat_digits.
        cbn [forallb]. rewrite Hc. exact Ht. }
      destruct (zs ++ c :: t) as [|f0 fs] eqn:F.
      { destruct zs; discriminate. }
      cbn [forallb] in Hz. apply andb_true_iff in Hz as [Hf0 Hfs].
      replace ((u "0." ++ f0 :: fs) ++ rest)
        with (48%N :: 46%N :: f0 :: fs ++ rest) by reflexivity.
      unfold parse_unsigned.
      cbn [is_digit N.leb N.compare Pos.compare Pos.compare_cont andb
           N.eqb Pos.eqb].
      rewrite (scan_fraction_digits f0 fs rest Hf0 Hfs ND).
      rewrite (scan_exponent_delim _ Dl).
      apply float_result_eq.
      * change ([48%N] ++ f0 :: fs) with (repeat 48%N 1 ++ f0 :: fs).
        rewrite digits_value_leading_zeros, <- F. unfold zs.
        rewrite digits_value_leading_zeros. exact Hv.
      * rewrite <- F, length_app. unfold zs. rewrite repeat_length.
        fold n. lia.
    + apply Z.leb_gt in C2. destruct (n + k <? n)%Z eqn:C3.
      * (* ddd.ddd *)
        apply Z.ltb_lt in C3.
        set (p := Z.to_nat (n + k)).
        assert (Hp : (0 < p < S (List.length t))%nat) by lia.
        destruct p as [|p'] eqn:Ep; [lia|].
        cbn [firstn skipn].
        assert (Hsk : skipn p' t <> []).
        { intros Z. apply (f_equal (@List.length N)) in Z.
          rewrite length_skipn in Z. cbn [List.length] in Z. lia. }
        destruct (skipn p' t) as [|f0 fs] eqn:Sk; [congruence|].
        pose proof (forallb_skipn is_digit p' t Ht) as Hsd.
        rewrite Sk in Hsd. cbn [forallb] in Hsd.
        apply andb_true_iff in Hsd as [Hf0 Hfs].
        pose proof (forallb_firstn is_digit p' t Ht) as Hfd.
        replace (((c :: firstn p' t) ++ [46%N] ++ f0 :: fs) ++ rest)
          with ((c :: firstn p' t) ++ 46%N :: f0 :: fs ++ rest)
          by (rewrite <- app_assoc; reflexivity).
        unfold parse_unsigned. cbn [app]. rewrite Hc, H0.
        change (c :: firstn p' t ++ 46%N :: f0 :: fs ++ rest)
          with ((c :: firstn p' t) ++ 46%N :: f0 :: fs ++ rest).
        rewrite span_digits_app; [| cbn [forallb]; rewrite Hc; exact Hfd
                                  | reflexivity].
        rewrite (scan_fraction_digits f0 fs rest Hf0 Hfs ND).
        rewrite (scan_exponent_delim _ Dl).
        apply float_result_eq.
        -- rewrite <- Hv. f_equal. cbn [app]. f_equal.
           rewrite <- Sk. apply firstn_skipn.
        -- assert (L : List.length (f0 :: fs) = List.length t - p')
             by (rewrite <- Sk; apply length_skipn).
           rewrite L. lia.
      * (* ddd000.0 *)
        apply Z.ltb_ge in C3.
        set (j := Z.to_nat (n + k - n)).
        replace (((c :: t) ++ repeat 48%N j ++ u ".0") ++ rest)
          with (((c :: t) ++ repeat 48%N j) ++ 46%N :: 48%N :: [] ++ rest)
          by (rewrite <- !app_assoc; reflexivity).
        assert (Hall : forallb is_digit ((c :: t) ++ repeat 48%N j) = true).
        { rewrite forallb_app, repeat_digits. cbn [forallb].
          rewrite Hc, Ht. reflexivity. }
        pose proof (scan_fraction_digits 48%N [] rest eq_refl eq_refl ND)
          as SF.
        cbn [app] in SF.
        unfold parse_unsigned. cbn [app]. rewrite Hc, H0.
        change (c :: (t ++ repeat 48%N j) ++ 46%N :: 48%N :: rest)
          with (((c :: t) ++ repeat 48%N j) ++ 46%N :: 48%N :: rest).
        rewrite (span_digits_app _ _ Hall) by reflexivity.
        rewrite SF.
        rewrite (scan_exponent_delim _ Dl).
        rewrite <- app_assoc.
        change (repeat 48%N j ++ [48%N]) with (repeat 48%N j ++ repeat 48%N 1).
        rewrite <- repeat_app, digits_value_trailing_zeros, Hv.
        rewrite float_of_decimal_shift_n.
        apply float_result_eq; [reflexivity | cbn [List.length]; lia].
Qed.

(** A formatted decimal number starts with a digit. *)
Lemma format_decimal_head (D : N) (k : Z) :
  exists c t, format_decimal D k = c :: t /\ is_digit c = true.
Proof.
  pose proof (digits_of_N_digits D) as Hds.
  pose proof (digits_of_N_nonnil D) as NN.
  unfold format_decimal.
  destruct (digits_of_N D) as [|c t]; [congruence|].
  cbn [forallb] in Hds. apply andb_true_iff in Hds as [Hc _].
  set (n := Z.of_nat (List.length (c :: t))).
  assert (Hn : n = Z.of_nat (S (List.length t))) by reflexivity.
  destruct ((n + k <=? -4)%Z || (16 <? n + k)%Z).
  - cbn [firstn app]. eauto.
  - destruct (n + k <=? 0)%Z eqn:C2.
    + exists 48%N. eexists. split; reflexivity.
    + apply Z.leb_gt in C2. destruct (n + k <? n)%Z.
      * destruct (Z.to_nat (n + k)) as [|p] eqn:Ep; [lia|].
        cbn [firstn app]. eauto.
      * cbn [app]. eauto.
Qed.

(** The text of a float starts with a digit, a minus sign, or the first
    letter of [NaN] or [Infinity]. *)
Lemma dumps_float_start (f : spec_float) :
  exists c t, dumps_float f = c :: t /\
    (c =? 45)%N || is_digit c || (c =? 78)%N || (c =? 73)%N = true.
Proof.
  destruct f as [[]|[]| |s m e]; try (do 2 eexists; split; reflexivity).
  unfold dumps_float, float_repr. destruct (repr_decimal s m e) as [D k].
  destruct s; cbn [app]; [do 2 eexists; split; reflexivity|].
  destruct (format_decimal_head D k) as (c & t & E & Hc).
  exists c, t. split; [exact E|]. rewrite Hc, orb_true_r. reflexivity.
Qed.

Lemma dumps_float_number_start (f : spec_float) :
  f <> S754_nan ->
  exists c t, dumps_float f = c :: t /\
    (c =? 45)%N || is_digit c || (c =? 73)%N = true.
Proof.
  intros NN.
  destruct f as [[]|[]| |s m e]; try (do 2 eexists; split; reflexivity);
    [congruence|].
  unfold dumps_float, float_repr. destruct (repr_decimal s m e) as [D k].
  destruct s; cbn [app]; [do 2 eexists; split; reflexivity|].
  destruct (format_decimal_head D k) as (c & t & E & Hc).
  exists c, t. split; [exact E|]. rewrite Hc, orb_true_r. reflexivity.
Qed.

(** The text of a float that is a number, or an infinity, reads back as the
    float. *)
Lemma parse_number_dumps_float (f : spec_float) (rest : str) :
  valid_float f = true -> f <> S754_nan -> delim rest = true ->
  parse_number (dumps_float f ++ rest) = Ok (JFloat f, rest).
Proof.
  intros V NN Dl. pose proof (delim_not_digit _ Dl) as ND.
  destruct f as [s|s| |s m e]; [| |congruence|].
  - pose proof (scan_fraction_digits 48%N [] rest eq_refl eq_refl ND) as SF.
    cbn [app] in SF.
    destruct s.
    + change (dumps_float (S754_zero true) ++ rest)
        with (45%N :: 48%N :: 46%N :: 48%N :: rest).
      unfold parse_number, parse_unsigned.
      cbn [N.eqb Pos.eqb is_digit N.leb N.compare Pos.compare
           Pos.compare_cont andb].
      rewrite SF, (scan_exponent_delim _ Dl). reflexivity.
    + change (dumps_float (S754_zero false) ++ rest)
        with (48%N :: 46%N :: 48%N :: rest).
      unfold parse_number, parse_unsigned.
      cbn [N.eqb Pos.eqb is_digit N.leb N.compare Pos.compare
           Pos.compare_cont andb].
      rewrite SF, (scan_exponent_delim _ Dl). reflexivity.
  - destruct s; reflexivity.
  - pose proof (repr_decimal_reads_back s m e V) as RB.
    pose proof (repr_decimal_nonzero s m e V) as NZ.
    unfold dumps_float, float_repr.
    destruct (repr_decimal s m e) as [D k]. cbn [fst snd] in RB, NZ.
    rewrite <- RB.
    destruct s.
    + cbn [app]. unfold parse_number.
      cbn [N.eqb Pos.eqb]. apply parse_format_decimal; assumption.
    + cbn [app]. pose proof (parse_format_decimal false D k rest NZ Dl) as P.
      destruct (format_decimal_head D k) as (c & t & E & Hc).
      rewrite E in *. cbn [app] in *. unfold parse_number.
      rewrite (is_digit_not_minus c Hc). exact P.
Qed.

(** ** Floats on sample texts *)

Example dumps_one_and_a_half : json_dumps (JFloat one_and_a_half) = u "1.5".
Proof. vm_compute. reflexivity. Qed.

Example dumps_tenth :
  json_dumps (JFloat (S754_finite false 7205759403792794 (-56))) = u "0.1".
Proof. vm_compute. reflexivity. Qed.

Example dumps_scientific :
  json_dumps (JList [JFloat (S754_finite false 5000000000000000 1);
                     JFloat (S754_finite true 5902958103587057 (-69));
                     JFloat (S754_finite false 1 (-1074))])
  = u "[1e+16, -1e-05, 5e-324]".
Proof. vm_compute. reflexivity. Qed.

Example dumps_not_numbers :
  json_dumps (JList [JFloat S754_nan; JFloat (S754_infinity true);
                     JFloat (S754_zero true)])
  = u "[NaN, -Infinity, -0.0]".
Proof. vm_compute. reflexivity. Qed.

Example loads_floats :
  json_loads (u "[1.5, 0.1, 1E16, -1e-05, 5e-324, 1e400, -0.0, 10.0]")
  = Ok (JList [JFloat one_and_a_half;
               JFloat (S754_finite false 7205759403792794 (-56));
               JFloat (S754_finite false 5000000000000000 1);
               JFloat (S754_finite true 5902958103587057 (-69));
               JFloat (S754_finite false 1 (-1074));
               JFloat (S754_infinity false);
               JFloat (S754_zero true);
               JFloat (S754_finite false 5629499534213120 (-49))]).
Proof. vm_compute. reflexivity. Qed.

Example loads_no_float :
  json_loads (u "1.") = Raise JSONDecodeError
  /\ json_loads (u ".5") = Raise JSONDecodeError
  /\ json_loads (u "1e") = Raise JSONDecodeError
  /\ json_loads (u "01") = Raise JSONDecodeError
  /\ json_loads (u "-") = Raise JSONDecodeError.
Proof. repeat split; vm_compute; reflexivity. Qed.

(** The digit limit of an integer literal. *)
Example loads_long_integer :
  json_loads (repeat 49%N 4301) = Raise ValueError
  /\ json_loads (45%N :: repeat 49%N 4301) = Raise ValueError
  /\ exists z, json_loads (repeat 49%N 4300) = Ok (JInt z).
Proof.
  split; [vm_compute; reflexivity|]. split; [vm_compute; reflexivity|].
  eexists. vm_compute. reflexivity.
Qed.

(** ** Bytes, UTF-8 and Base64 *)

Lemma to_N_byte_of_N (n : N) : (n < 256)%N -> Byte.to_N (byte_of_N n) = n.
Proof.
  intros H. unfold byte_of_N. destruct (Byte.of_N n) as [b|] eqn:E.
  - apply Byte.to_of_N, E.
  - apply Byte.of_N_None_iff in E. lia.
Qed.

Lemma byte_of_N_to_N (b : byte) : byte_of_N (Byte.to_N b) = b.
Proof. unfold byte_of_N. rewrite Byte.of_to_N. reflexivity. Qed.

Lemma to_N_lt_256 (b : byte) : (Byte.to_N b < 256)%N.
Proof. pose proof (Byte.to_N_bounded b). lia. Qed.

(** A property checked on every number below a bound. *)
Lemma forall_below (f : N -> bool) (n : N) :
  forallb f (map N.of_nat (seq 0 (N.to_nat n))) = true ->
  forall i, (i < n)%N -> f i = true.
Proof.
  intros H i Hi. rewrite forallb_forall in H. apply H.
  apply in_map_iff. exists (N.to_nat i). split; [apply N2Nat.id|].
  apply in_seq. lia.
Qed.

(** ASCII text and its UTF-8 form are the same numbers. *)

Lemma utf8_encode_ascii (s : str) :
  ascii_only s -> utf8_encode s = Ok (map byte_of_N s).
Proof.
  induction 1 as [|c s Hc Hs IH]; simpl; [reflexivity|].
  unfold utf8_encode_char. destruct (N.ltb_spec c 0x80); [|lia].
  simpl. rewrite IH. reflexivity.
Qed.

Lemma utf8_decode_ascii (s : str) :
  ascii_only s -> utf8_decode (map byte_of_N s) = Ok s.
Proof.
  induction 1 as [|c s Hc Hs IH]; simpl; [reflexivity|].
  rewrite to_N_byte_of_N by lia. destruct (N.ltb_spec c 0x80); [|lia].
  rewrite IH. reflexivity.
Qed.

Lemma utf8_decode_ascii_bytes (bs : bytes) :
  Forall (fun b => (Byte.to_N b < 128)%N) bs ->
  utf8_decode bs = Ok (map Byte.to_N bs).
Proof.
  induction 1 as [|b bs Hb Hbs IH]; simpl; [reflexivity|].
  destruct (N.ltb_spec (Byte.to_N b) 0x80); [|lia].
  rewrite IH. reflexivity.
Qed.

Lemma map_byte_of_N_to_N (bs : bytes) : map byte_of_N (map Byte.to_N bs) = bs.
Proof.
  induction bs as [|b bs IH]; simpl; [reflexivity|].
  rewrite byte_of_N_to_N, IH. reflexivity.
Qed.

(** *** The Base64 alphabet *)

Lemma b64_index_char (i : N) : (i < 64)%N -> b64_index (b64_char i) = Some i.
Proof.
  intros H.
  pose (f := fun i => match b64_index (b64_char i) with
                      | Some j => (j =? i)%N
                      | None => false
                      end).
  assert (K : forallb f (map N.of_nat (seq 0 (N.to_nat 64))) = true)
    by (vm_compute; reflexivity).
  pose proof (forall_below f 64 K i H) as C. unfold f in C. destruct (b64_index (b64_char i)); [|discriminate].
  apply N.eqb_eq in C. congruence.
Qed.

Lemma b64_char_not_pad (i : N) : (i < 64)%N -> Byte.eqb (b64_char i) b64_pad = false.
Proof.
  intros H.
  pose (f := fun i => negb (Byte.eqb (b64_char i) b64_pad)).
  assert (K : forallb f (map N.of_nat (seq 0 (N.to_nat 64))) = true)
    by (vm_compute; reflexivity).
  pose proof (forall_below f 64 K i H) as C. unfold f in C.
  apply negb_true_iff, C.
Qed.

Lemma b64_char_ascii (i : N) : (Byte.to_N (b64_char i) < 128)%N.
Proof.
  unfold b64_char.
  destruct (N.ltb_spec i 26); [rewrite to_N_byte_of_N; lia|].
  destruct (N.ltb_spec i 52); [rewrite to_N_byte_of_N; lia|].
  destruct (N.ltb_spec i 62); [rewrite to_N_byte_of_N; lia|].
  destruct (i =? 62)%N; vm_compute; reflexivity.
Qed.

Lemma b64encode_ascii (bs : bytes) :
  Forall (fun b => (Byte.to_N b < 128)%N) (b64encode bs).
Proof.
  assert (P : (Byte.to_N b64_pad < 128)%N) by (vm_compute; reflexivity).
  revert bs. fix IH 1. intros [|a [|b [|c rest]]]; simpl.
  - constructor.
  - repeat constructor; auto using b64_char_ascii.
  - repeat constructor; auto using b64_char_ascii.
  - repeat (constructor; [apply b64_char_ascii|]). apply IH.
Qed.

(** *** Decoding what was encoded *)

(** One step of the decoder on a character of the alphabet. *)
Lemma a2b_base64_data (i : N) (s : bytes) (quad_pos leftchar pads : N) (acc : bytes) :
  (i < 64)%N ->
  a2b_base64 (b64_char i :: s) quad_pos leftchar pads acc =
  if (quad_pos =? 0)%N then a2b_base64 s 1%N i 0%N acc
  else if (quad_pos =? 1)%N then
    a2b_base64 s 2%N (i mod 16)%N 0%N (byte_of_N (leftchar * 4 + i / 16) :: acc)
  else if (quad_pos =? 2)%N then
    a2b_base64 s 3%N (i mod 4)%N 0%N (byte_of_N (leftchar * 16 + i / 4) :: acc)
  else a2b_base64 s 0%N 0%N 0%N (byte_of_N (leftchar * 64 + i) :: acc).
Proof.
  intros H. simpl. rewrite (b64_char_not_pad _ H), (b64_index_char _ H).
  reflexivity.
Qed.

Ltac divmod := zify; Z.to_euclidean_division_equations; lia.

Lemma a2b_base64_q0 (i : N) (s : bytes) (leftchar pads : N) (acc : bytes) :
  (i < 64)%N ->
  a2b_base64 (b64_char i :: s) 0 leftchar pads acc = a2b_base64 s 1 i 0 acc.
Proof. intros H. rewrite a2b_base64_data by assumption. reflexivity. Qed.

Lemma a2b_base64_q1 (i : N) (s : bytes) (leftchar pads : N) (acc : bytes) :
  (i < 64)%N ->
  a2b_base64 (b64_char i :: s) 1 leftchar pads acc =
  a2b_base64 s 2 (i mod 16) 0 (byte_of_N (leftchar * 4 + i / 16) :: acc).
Proof. intros H. rewrite a2b_base64_data by assumption. reflexivity. Qed.

Lemma a2b_base64_q2 (i : N) (s : bytes) (leftchar pads : N) (acc : bytes) :
  (i < 64)%N ->
  a2b_base64 (b64_char i :: s) 2 leftchar pads acc =
  a2b_base64 s 3 (i mod 4) 0 (byte_of_N (leftchar * 16 + i / 4) :: acc).
Proof. intros H. rewrite a2b_base64_data by assumption. reflexivity. Qed.

Lemma a2b_base64_q3 (i : N) (s : bytes) (leftchar pads : N) (acc : bytes) :
  (i < 64)%N ->
  a2b_base64 (b64_char i :: s) 3 leftchar pads acc =
  a2b_base64 s 0 0 0 (byte_of_N (leftchar * 64 + i) :: acc).
Proof. intros H. rewrite a2b_base64_data by assumption. reflexivity. Qed.

(** The padding that closes a group ends the decoding. *)
Lemma a2b_base64_pad2 (s : bytes) (leftchar : N) (acc : bytes) :
  a2b_base64 (b64_pad :: b64_pad :: s) 2 leftchar 0 acc = Ok (rev acc).
Proof. reflexivity. Qed.

Lemma a2b_base64_pad1 (s : bytes) (leftchar : N) (acc : bytes) :
  a2b_base64 (b64_pad :: s) 3 leftchar 0 acc = Ok (rev acc).
Proof. reflexivity. Qed.

Lemma rebuild_byte (n : N) (b : byte) : n = Byte.to_N b -> byte_of_N n = b.
Proof. intros ->. apply byte_of_N_to_N. Qed.

Lemma a2b_base64_encode (bs : bytes) (acc : bytes) :
  a2b_base64 (b64encode bs) 0 0 0 acc = Ok (rev acc ++ bs).
Proof.
  revert bs acc. fix IH 1. intros [|a [|b [|c rest]]] acc.
  - simpl. rewrite app_nil_r. reflexivity.
  - pose proof (to_N_lt_256 a). cbn [b64encode].
    rewrite a2b_base64_q0, a2b_base64_q1 by divmod.
    rewrite a2b_base64_pad2. rewrite (rebuild_byte _ a) by divmod.
    reflexivity.
  - pose proof (to_N_lt_256 a). pose proof (to_N_lt_256 b). cbn [b64encode].
    rewrite a2b_base64_q0, a2b_base64_q1, a2b_base64_q2 by divmod.
    rewrite a2b_base64_pad1.
    rewrite (rebuild_byte _ b), (rebuild_byte _ a) by divmod.
    simpl. rewrite <- app_assoc. reflexivity.
  - pose proof (to_N_lt_256 a). pose proof (to_N_lt_256 b).
    pose proof (to_N_lt_256 c). cbn [b64encode app].
    rewrite a2b_base64_q0, a2b_base64_q1, a2b_base64_q2, a2b_base64_q3 by divmod.
    rewrite (rebuild_byte _ c), (rebuild_byte _ b), (rebuild_byte _ a) by divmod.
    rewrite IH. simpl. rewrite <- !app_assoc. reflexivity.
Qed.

(** Decoding inverts encoding, on every byte string. *)
Lemma b64decode_b64encode (bs : bytes) : b64decode (b64encode bs) = Ok bs.
Proof. unfold b64decode. rewrite a2b_base64_encode. reflexivity. Qed.

(** ** Induction over decoded JSON *)

Lemma json_ind (P : json -> Prop) :
  P JNull -> (forall b, P (JBool b)) -> (forall z, P (JInt z)) ->
  (forall f, P (JFloat f)) -> (forall s, P (JStr s)) ->
  (forall l, Forall P l -> P (JList l)) ->
  (forall d, Forall (fun kv => P (snd kv)) d -> P (JDict d)) ->
  forall v, P v.
Proof.
  intros HN HB HI HF HS HL HD. fix IH 1.
  intros [|b|z|f|s|l|d];
    [exact HN | apply HB | apply HI | apply HF | apply HS | |].
  - apply HL. induction l as [|x l IHl]; constructor; [apply IH | exact IHl].
  - apply HD. induction d as [|[k x] d IHd]; constructor; [apply IH | exact IHd].
Qed.

(** ** [json.dumps] writes ASCII *)

Lemma ascii_only_app (a b : str) : ascii_only a -> ascii_only b -> ascii_only (a ++ b).
Proof. intros; apply Forall_app; auto. Qed.

Ltac ascii_literal := unfold ascii_only; repeat constructor.

Lemma hex_digit_ascii (n : N) : (n < 16)%N -> (hex_digit n < 128)%N.
Proof. intros H. unfold hex_digit. destruct (N.ltb_spec n 10); lia. Qed.

Lemma escape_u_ascii (n : N) : (n < 65536)%N -> ascii_only (escape_u n).
Proof.
  intros H. unfold escape_u.
  repeat (constructor; [try lia; apply hex_digit_ascii; divmod|]). constructor.
Qed.

Lemma escape_char_ascii (c : N) : ascii_only (escape_char c).
Proof.
  unfold escape_char.
  repeat match goal with
         | |- context [(c =? ?k)%N] =>
             destruct (N.eqb_spec c k); [ascii_literal|]
         end.
  destruct (N.leb_spec 32 c); destruct (N.leb_spec c 126); cbn [andb];
    try (constructor; [lia | constructor]).
  all: destruct (N.ltb_spec c 0x10000); [apply escape_u_ascii; assumption|];
    apply ascii_only_app; apply escape_u_ascii; divmod.
Qed.

Lemma dumps_str_ascii (s : str) : ascii_only (dumps_str s).
Proof.
  unfold dumps_str. constructor; [reflexivity|]. apply ascii_only_app.
  - induction s as [|c s IH]; simpl; [constructor|].
    apply ascii_only_app; [apply escape_char_ascii | exact IH].
  - ascii_literal.
Qed.

Lemma digits_of_uint_ascii (d : Decimal.uint) : ascii_only (digits_of_uint d).
Proof. induction d; simpl; constructor; (reflexivity || assumption). Qed.

Lemma dumps_int_ascii (z : Z) : ascii_only (dumps_int z).
Proof.
  unfold dumps_int. destruct (Z.to_int z); [|constructor; [reflexivity|]];
    apply digits_of_uint_ascii.
Qed.

Lemma ascii_only_firstn (n : nat) (s : str) :
  ascii_only s -> ascii_only (firstn n s).
Proof.
  intros H. revert n. unfold ascii_only in *.
  induction H as [|c s Hc Hs IH]; intros [|n]; cbn [firstn];
    constructor; [exact Hc | apply IH].
Qed.

Lemma ascii_only_skipn (n : nat) (s : str) :
  ascii_only s -> ascii_only (skipn n s).
Proof.
  intros H. revert n. unfold ascii_only in *.
  induction H as [|c s Hc Hs IH]; intros [|n]; cbn [skipn];
    [constructor | constructor | constructor; assumption | apply IH].
Qed.

Lemma ascii_only_zeros (n : nat) : ascii_only (repeat 48%N n).
Proof. induction n; cbn [repeat]; constructor; [reflexivity | assumption]. Qed.

Lemma digits_of_N_ascii (n : N) : ascii_only (digits_of_N n).
Proof. apply digits_of_uint_ascii. Qed.

Lemma exponent_text_ascii (x : Z) : ascii_only (exponent_text x).
Proof.
  unfold exponent_text. apply ascii_only_app; [ascii_literal|].
  apply ascii_only_app; [destruct (x <? 0)%Z; ascii_literal|].
  apply ascii_only_app; [|apply digits_of_N_ascii].
  destruct (digits_of_N (Z.abs_N x)) as [|? [|? ?]]; ascii_literal.
Qed.

Lemma format_decimal_ascii (D : N) (k : Z) : ascii_only (format_decimal D k).
Proof.
  pose proof (digits_of_N_ascii D) as H. unfold format_decimal.
  destruct (_ || _).
  - apply ascii_only_app; [apply ascii_only_firstn; exact H|].
    apply ascii_only_app; [|apply exponent_text_ascii].
    pose proof (ascii_only_skipn 1 _ H) as K.
    destruct (skipn 1 (digits_of_N D)); [constructor|].
    constructor; [reflexivity | exact K].
  - destruct (_ <=? 0)%Z.
    + apply ascii_only_app; [ascii_literal|].
      apply ascii_only_app; [apply ascii_only_zeros | exact H].
    + destruct (_ <? _)%Z.
      * apply ascii_only_app; [apply ascii_only_firstn; exact H|].
        apply ascii_only_app; [ascii_literal|].
        apply ascii_only_skipn; exact H.
      * apply ascii_only_app; [exact H|].
        apply ascii_only_app; [apply ascii_only_zeros | ascii_literal].
Qed.

Lemma dumps_float_ascii (f : spec_float) : ascii_only (dumps_float f).
Proof.
  destruct f as [[]|[]| |s m e]; try ascii_literal.
  unfold dumps_float, float_repr. destruct (repr_decimal s m e) as [D k].
  apply ascii_only_app; [destruct s; ascii_literal|].
  apply format_decimal_ascii.
Qed.

Lemma join_ascii (sep : str) (parts : list str) :
  ascii_only sep -> Forall ascii_only parts -> ascii_only (join sep parts).
Proof.
  intros Hsep. induction 1 as [|p parts Hp Hparts IH]; [constructor|].
  cbn [join]. destruct parts; [exact Hp|].
  apply ascii_only_app; [exact Hp|]. apply ascii_only_app; assumption.
Qed.

Lemma json_dumps_ascii (v : json) : ascii_only (json_dumps v).
Proof.
  induction v as [|[]|z|f|s|l IH|d IH] using json_ind; cbn [json_dumps].
  - ascii_literal.
  - ascii_literal.
  - ascii_literal.
  - apply dumps_int_ascii.
  - apply dumps_float_ascii.
  - apply dumps_str_ascii.
  - apply ascii_only_app; [ascii_literal|].
    apply ascii_only_app; [|ascii_literal].
    apply join_ascii; [ascii_literal|].
    apply Forall_map. exact IH.
  - apply ascii_only_app; [ascii_literal|].
    apply ascii_only_app; [|ascii_literal].
    apply join_ascii; [ascii_literal|].
    apply Forall_map. revert IH. apply Forall_impl. intros [k x] Hx.
    apply ascii_only_app; [apply dumps_str_ascii|].
    apply ascii_only_app; [ascii_literal | exact Hx].
Qed.

(** ** What [json.loads] raises *)

Lemma push_raises (c : N) (m : result (str * str)) (e : exn) :
  push c m = Raise e -> m = Raise e.
Proof. destruct m as [[x r]|e0]; [discriminate|]. exact (fun H => H). Qed.

Lemma scan_string_raises_aux (n : nat) :
  forall s e, List.length s <= n -> scan_string s = Raise e ->
              e = JSONDecodeError.
Proof.
  induction n as [|n IH]; intros s e Hlen H;
    (destruct s as [|c s1]; [cbn in H; congruence|]);
    cbn [List.length] in Hlen; [lia|].
  cbn [scan_string] in H.
  destruct (c =? 34)%N; [discriminate H|].
  destruct (c =? 92)%N.
  - destruct s1 as [|e1 s2]; [congruence|]. cbn [List.length] in Hlen.
    destruct (e1 =? 117)%N.
    + destruct s2 as [|h1 [|h2 [|h3 [|h4 r2]]]]; try congruence.
      cbn [List.length] in Hlen.
      destruct (hex4 h1 h2 h3 h4) as [uni|]; [|congruence].
      assert (P : push uni (scan_string r2) = Raise e -> e = JSONDecodeError).
      { intros Hp. apply push_raises in Hp. apply (IH r2 e); [lia | exact Hp]. }
      destruct r2 as [|b [|v [|g1 [|g2 [|g3 [|g4 r3]]]]]]; try exact (P H).
      cbn [List.length] in Hlen.
      destruct (is_high uni && (b =? 92)%N && (v =? 117)%N); [|exact (P H)].
      destruct (hex4 g1 g2 g3 g4) as [uni2|]; [|congruence].
      destruct (is_low uni2); [|exact (P H)].
      apply push_raises in H. apply (IH r3 e); [lia | exact H].
    + destruct (unescape e1) as [c'|]; [|congruence].
      apply push_raises in H. apply (IH s2 e); [lia | exact H].
  - destruct (c <? 32)%N; [congruence|].
    apply push_raises in H. apply (IH s1 e); [lia | exact H].
Qed.

(** A string that does not scan is a [JSONDecodeError]. *)
Lemma scan_string_raises (s : str) (e : exn) :
  scan_string s = Raise e -> e = JSONDecodeError.
Proof. apply (scan_string_raises_aux (List.length s)), le_n. Qed.

(** A number that does not parse is a [JSONDecodeError], or the
    [ValueError] of an integer literal beyond the digit limit. *)
Lemma parse_number_raises (s : str) (e : exn) :
  parse_number s = Raise e -> e = JSONDecodeError \/ e = ValueError.
Proof.
  assert (U : forall neg s1, parse_unsigned neg s1 = Raise e ->
                             e = JSONDecodeError \/ e = ValueError).
  { intros neg s1. unfold parse_unsigned. destruct s1 as [|c r]; [left; congruence|].
    destruct (is_digit c).
    - destruct (if (c =? 48)%N then _ else _) as [ip rest].
      destruct (scan_fraction rest) as [fs rest1].
      destruct (scan_exponent rest1) as [[E rest2]|]; [discriminate|].
      destruct fs; [|discriminate].
      destruct (_ <? _)%nat; [right; congruence | discriminate].
    - destruct (is_prefix _ _); [discriminate | left; congruence]. }
  unfold parse_number. destruct s as [|c r]; [left; congruence|].
  destruct (c =? 45)%N; apply U.
Qed.

Lemma parse_raises (fuel : nat) :
  (forall s e, parse_value fuel s = Raise e ->
               e = JSONDecodeError \/ e = ValueError) /\
  (forall s e, parse_items fuel s = Raise e ->
               e = JSONDecodeError \/ e = ValueError) /\
  (forall s e, parse_members fuel s = Raise e ->
               e = JSONDecodeError \/ e = ValueError).
Proof.
  induction fuel as [|f (IHv & IHi & IHm)];
    [repeat split; intros s e H; left; cbn in H; congruence|].
  split; [|split].
  - intros s e. cbn [parse_value]. destruct s as [|c t]; [left; congruence|].
    destruct (c =? 34)%N.
    { destruct (scan_string t) as [[x r']|e0] eqn:E; [discriminate|].
      cbn [bind]. intros [= <-]. left. apply (scan_string_raises _ _ E). }
    destruct (c =? 123)%N.
    { destruct (starts_with 125 (skip_ws t)); [discriminate|].
      destruct (parse_members f (skip_ws t)) as [[kvs r']|e0] eqn:E;
        [discriminate|].
      cbn [bind]. intros [= <-]. apply (IHm _ _ E). }
    destruct (c =? 91)%N.
    { destruct (starts_with 93 (skip_ws t)); [discriminate|].
      destruct (parse_items f (skip_ws t)) as [[l r']|e0] eqn:E;
        [discriminate|].
      cbn [bind]. intros [= <-]. apply (IHi _ _ E). }
    destruct (is_prefix (u "null") (c :: t)); [discriminate|].
    destruct (is_prefix (u "true") (c :: t)); [discriminate|].
    destruct (is_prefix (u "false") (c :: t)); [discriminate|].
    destruct (is_prefix (u "NaN") (c :: t)); [discriminate|].
    apply parse_number_raises.
  - intros s e. cbn [parse_items].
    destruct (parse_value f s) as [[v r0]|e0] eqn:E;
      [|cbn [bind]; intros [= <-]; apply (IHv _ _ E)].
    cbn [bind]. destruct (skip_ws r0) as [|c r1]; [left; congruence|].
    destruct (c =? 93)%N; [discriminate|].
    destruct (c =? 44)%N; [|left; congruence].
    destruct (parse_items f (skip_ws r1)) as [[l' r2]|e0] eqn:E2;
      [discriminate|].
    cbn [bind]. intros [= <-]. apply (IHi _ _ E2).
  - intros s e. cbn [parse_members].
    destruct s as [|q t]; [left; congruence|].
    destruct (q =? 34)%N; [|left; congruence].
    destruct (scan_string t) as [[k r1]|e0] eqn:E;
      [|cbn [bind]; intros [= <-]; left; apply (scan_string_raises _ _ E)].
    cbn [bind]. destruct (skip_ws r1) as [|colon r2]; [left; congruence|].
    destruct (colon =? 58)%N; [|left; congruence].
    destruct (parse_value f (skip_ws r2)) as [[v r3]|e0] eqn:E2;
      [|cbn [bind]; intros [= <-]; apply (IHv _ _ E2)].
    cbn [bind]. destruct (skip_ws r3) as [|c r4]; [left; congruence|].
    destruct (c =? 125)%N; [discriminate|].
    destruct (c =? 44)%N; [|left; congruence].
    destruct (parse_members f (skip_ws r4)) as [[kvs' r5]|e0] eqn:E3;
      [discriminate|].
    cbn [bind]. intros [= <-]. apply (IHm _ _ E3).
Qed.

(** [json.loads] raises [json.JSONDecodeError], or [ValueError] on an
    integer literal beyond the digit limit; both are [ValueError]s. *)
Lemma json_loads_raises (s : str) (e : exn) :
  json_loads s = Raise e -> e = JSONDecodeError \/ e = ValueError.
Proof.
  unfold json_loads. destruct (starts_with 0xFEFF s); [left; congruence|].
  destruct (parse_value _ _) as [[v r]|e0] eqn:E;
    [|cbn [bind]; intros [= <-]; apply (proj1 (parse_raises _) _ _ E)].
  cbn [bind]. destruct (skip_ws r); [discriminate | left; congruence].
Qed.

(** ** Writing and reading a card *)

Lemma ascii_only_to_N (bs : bytes) :
  Forall (fun b => (Byte.to_N b < 128)%N) bs -> ascii_only (map Byte.to_N bs).
Proof. intros H. apply Forall_map. exact H. Qed.

(** [write_character] never fails, and what it stores is the Base64 of
    the ASCII JSON text. *)
Lemma write_character_value (image : png) (data : json) :
  write_character image data =
  Ok (save image
        [(u "chara",
          map Byte.to_N (b64encode (map byte_of_N (json_dumps data))))]).
Proof.
  unfold write_character.
  rewrite (utf8_encode_ascii _ (json_dumps_ascii data)). cbn [bind].
  rewrite (utf8_decode_ascii_bytes _ (b64encode_ascii _)). reflexivity.
Qed.

(** C10.  Whatever text chunks the input PNG carries, the PNG written by
    [write_character] keeps the image payload and carries exactly one
    text chunk, keyed ["chara"]. *)
Theorem write_character_replaces_text (image : png) (data : json) :
  exists v,
    write_character image data
    = Ok {| pixels := pixels image; chunks := [(u "chara", v)] |}.
Proof. eexists. apply write_character_value. Qed.

Example write_character_drops_comment :
  exists out, write_character blank_png base = Ok out /\
              png_text blank_png (u "Comment") = Some (u "no card here") /\
              png_text out (u "Comment") = None.
Proof.
  eexists. split; [apply write_character_value|]. split; reflexivity.
Qed.

(** Reading back what was written parses the JSON text that was
    serialized and normalizes it. *)
Lemma read_after_write (image : png) (data : json) :
  exists out,
    write_character image data = Ok out /\
    read_character out = (x <- json_loads (json_dumps data) ;; normalize x).
Proof.
  eexists. split; [apply write_character_value|].
  unfold read_character, save, png_text. cbn [chunks fold_left fst snd].
  rewrite str_eqb_refl.
  rewrite (utf8_encode_ascii _ (ascii_only_to_N _ (b64encode_ascii _))).
  cbn [bind]. rewrite map_byte_of_N_to_N, b64decode_b64encode. cbn [bind].
  rewrite (utf8_decode_ascii _ (json_dumps_ascii data)). reflexivity.
Qed.

(** The decoders raise their own exception and no other. *)
Lemma a2b_base64_raises (s : bytes) (quad_pos leftchar pads : N) (acc : bytes)
    (e : exn) :
  a2b_base64 s quad_pos leftchar pads acc = Raise e -> e = BinasciiError.
Proof.
  revert quad_pos leftchar pads acc.
  induction s as [|ch s IH]; intros quad_pos leftchar pads acc; simpl.
  - destruct (quad_pos =? 0)%N; [discriminate | congruence].
  - destruct (Byte.eqb ch b64_pad).
    + destruct (2 <=? quad_pos)%N; [|apply IH].
      destruct (4 <=? quad_pos + (pads + 1))%N; [discriminate | apply IH].
    + destruct (b64_index ch); [|apply IH].
      destruct (quad_pos =? 0)%N; [apply IH|].
      destruct (quad_pos =? 1)%N; [apply IH|].
      destruct (quad_pos =? 2)%N; apply IH.
Qed.

Lemma b64decode_raises (s : bytes) (e : exn) :
  b64decode s = Raise e -> e = BinasciiError.
Proof. apply a2b_base64_raises. Qed.

Lemma bind_raises {A B} (m : result A) (f : A -> result B) (e e0 : exn) :
  (forall e', m = Raise e' -> e' = e0) ->
  (forall a e', f a = Raise e' -> e' = e0) ->
  bind m f = Raise e -> e = e0.
Proof.
  intros Hm Hf. destruct m as [a|e1]; simpl.
  - apply Hf.
  - intros [= <-]. apply Hm. reflexivity.
Qed.

Lemma utf8_decode_raises (bs : bytes) (e : exn) :
  utf8_decode bs = Raise e -> e = UnicodeDecodeError.
Proof.
  revert bs e. fix IH 1. intros [|b0 r0] e; [discriminate|].
  cbn [utf8_decode]. cbv zeta.
  assert (K : forall (c : N) (r : bytes) (IHr : forall e, utf8_decode r = Raise e -> e = UnicodeDecodeError) e',
             (s <- utf8_decode r ;; Ok (c :: s)) = Raise e' -> e' = UnicodeDecodeError).
  { intros c r IHr e'. destruct (utf8_decode r); simpl; [discriminate|].
    intros [= <-]. apply IHr. reflexivity. }
  destruct (_ <? 0x80)%N; [apply K, IH|].
  destruct (_ <? 0xC2)%N; [congruence|].
  destruct r0 as [|b1 r1]; [congruence|].
  destruct (negb _); [congruence|].
  destruct (_ <? 0xE0)%N; [apply K, IH|].
  destruct r1 as [|b2 r2]; [congruence|].
  destruct (negb _); [congruence|].
  destruct (_ <? 0xF0)%N.
  - destruct (_ || _); [congruence | apply K, IH].
  - destruct r2 as [|b3 r3]; [congruence|].
    destruct (_ || _); [congruence | apply K, IH].
Qed.

(** C4.  A PNG without a ["chara"] entry reads as the default card, with
    no error.  When the entry is present and its Base64 decoding, its
    UTF-8 decoding or its JSON parsing fails, with whatever exception,
    [read_character] raises that exception and returns no card; the
    exception is one of [CorruptCardMetadata]: [binascii.Error],
    [UnicodeDecodeError], [json.JSONDecodeError] or the plain
    [ValueError] they all derive from. *)
Theorem read_character_missing_or_corrupt (image : png) :
  (png_text image (u "chara") = None ->
   read_character image = Ok deep_empty_card) /\
  (forall user_comment base64_bytes e,
     png_text image (u "chara") = Some user_comment ->
     utf8_encode user_comment = Ok base64_bytes ->
     (b64decode base64_bytes = Raise e \/
      (exists json_bytes,
         b64decode base64_bytes = Ok json_bytes /\
         utf8_decode json_bytes = Raise e) \/
      (exists json_bytes json_str,
         b64decode base64_bytes = Ok json_bytes /\
         utf8_decode json_bytes = Ok json_str /\
         json_loads json_str = Raise e)) ->
     CorruptCardMetadata e /\ read_character image = Raise e).
Proof.
  unfold read_character, CorruptCardMetadata. split.
  - intros ->. reflexivity.
  - intros uc bb e Hp Hu H. rewrite Hp, Hu. cbn [bind].
    destruct H as [H | [(jb & Hb & H) | (jb & js & Hb & Hs & H)]].
    + rewrite H. pose proof (b64decode_raises _ _ H). auto.
    + rewrite Hb. cbn [bind]. rewrite H.
      pose proof (utf8_decode_raises _ _ H). auto.
    + rewrite Hb. cbn [bind]. rewrite Hs. cbn [bind]. rewrite H.
      destruct (json_loads_raises _ _ H); auto.
Qed.

(** The missing entry and the three failures on sample images. *)
Lemma read_character_missing_or_corrupt_witness :
  read_character blank_png = Ok deep_empty_card /\
  (CorruptCardMetadata BinasciiError /\
   read_character corrupt_png = Raise BinasciiError) /\
  (CorruptCardMetadata UnicodeDecodeError /\
   read_character bad_utf8_png = Raise UnicodeDecodeError) /\
  (CorruptCardMetadata JSONDecodeError /\
   read_character bad_json_png = Raise JSONDecodeError).
Proof.
  split; [|split; [|split]].
  - apply (proj1 (read_character_missing_or_corrupt blank_png)). reflexivity.
  - apply (proj2 (read_character_missing_or_corrupt corrupt_png)
             (u "eyJ") (map byte_of_N (u "eyJ")) BinasciiError);
      [reflexivity | reflexivity | left; reflexivity].
  - apply (proj2 (read_character_missing_or_corrupt bad_utf8_png)
             (u "/w==") (map byte_of_N (u "/w==")) UnicodeDecodeError);
      [reflexivity | reflexivity |].
    right; left. exists [xff]. split; reflexivity.
  - apply (proj2 (read_character_missing_or_corrupt bad_json_png)
             (u "ew==") (map byte_of_N (u "ew==")) JSONDecodeError);
      [reflexivity | reflexivity |].
    right; right. exists [x7b], [123%N]. repeat split; reflexivity.
Defined.

(** *** Strings *)

Lemma hex_value_digit (k : N) : (k < 16)%N -> hex_value (hex_digit k) = Some k.
Proof.
  intros H.
  pose (f := fun k => match hex_value (hex_digit k) with
                      | Some j => (j =? k)%N
                      | None => false
                      end).
  assert (K : forallb f (map N.of_nat (seq 0 (N.to_nat 16))) = true)
    by (vm_compute; reflexivity).
  pose proof (forall_below f 16 K k H) as C. unfold f in C.
  destruct (hex_value (hex_digit k)); [|discriminate].
  apply N.eqb_eq in C. congruence.
Qed.

Lemma hex4_digits (n : N) :
  (n < 65536)%N ->
  hex4 (hex_digit (n / 4096)) (hex_digit ((n / 256) mod 16))
       (hex_digit ((n / 16) mod 16)) (hex_digit (n mod 16)) = Some n.
Proof.
  intros H. unfold hex4. rewrite !hex_value_digit by divmod.
  f_equal. divmod.
Qed.

(** The decoder on one [\\uXXXX] escape. *)
Lemma scan_string_u (n : N) (t : str) :
  (n < 65536)%N ->
  is_high n && low_escape_follows t = false ->
  scan_string (escape_u n ++ t) = push n (scan_string t).
Proof.
  intros H L. unfold escape_u. cbn [app scan_string].
  change (92 =? 34)%N with false. change (92 =? 92)%N with true.
  change (117 =? 117)%N with true. cbv iota.
  rewrite (hex4_digits _ H).
  destruct t as [|b [|v [|g1 [|g2 [|g3 [|g4 r3]]]]]]; try reflexivity.
  unfold low_escape_follows in L.
  destruct (is_high n); [|reflexivity]. cbn [andb] in *.
  destruct (b =? 92)%N; [|reflexivity].
  destruct (v =? 117)%N; [|reflexivity]. cbn [andb] in *.
  destruct (hex4 g1 g2 g3 g4); [|discriminate]. rewrite L. reflexivity.
Qed.

(** The decoder on a surrogate pair of escapes. *)
Lemma scan_string_pair (hi lo : N) (t : str) :
  is_high hi = true -> is_low lo = true ->
  scan_string (escape_u hi ++ escape_u lo ++ t) =
  push (0x10000 + (hi - 0xD800) * 1024 + (lo - 0xDC00))%N (scan_string t).
Proof.
  intros Hh Hl.
  assert (Bh : (hi < 65536)%N).
  { unfold is_high in Hh. apply andb_true_iff in Hh as [_ B].
    apply N.leb_le in B. lia. }
  assert (Bl : (lo < 65536)%N).
  { unfold is_low in Hl. apply andb_true_iff in Hl as [_ B].
    apply N.leb_le in B. lia. }
  unfold escape_u at 1. cbn [app scan_string].
  change (92 =? 34)%N with false. change (92 =? 92)%N with true.
  change (117 =? 117)%N with true. cbv iota.
  rewrite (hex4_digits _ Bh). unfold escape_u. cbn [app].
  rewrite Hh. change (92 =? 92)%N with true. change (117 =? 117)%N with true.
  cbn [andb]. rewrite (hex4_digits _ Bl), Hl. reflexivity.
Qed.

Lemma low_escape_follows_head (b : N) (t : str) :
  (b =? 92)%N = false -> low_escape_follows (b :: t) = false.
Proof.
  intros H. destruct t as [|v [|g1 [|g2 [|g3 [|g4 r3]]]]]; try reflexivity.
  unfold low_escape_follows. rewrite H. reflexivity.
Qed.

Lemma low_escape_follows_second (b v : N) (t : str) :
  (v =? 117)%N = false -> low_escape_follows (b :: v :: t) = false.
Proof.
  intros H. destruct t as [|g1 [|g2 [|g3 [|g4 r3]]]]; try reflexivity.
  unfold low_escape_follows. rewrite H, andb_false_r. reflexivity.
Qed.

Lemma low_escape_follows_u (n : N) (t : str) :
  (n < 65536)%N -> low_escape_follows (escape_u n ++ t) = is_low n.
Proof.
  intros H. unfold escape_u, low_escape_follows. cbn [app].
  rewrite (hex4_digits _ H). reflexivity.
Qed.

(** The two halves of a code point above the basic plane. *)
Lemma surrogates (c : N) :
  (0x10000 <= c)%N -> (c < 0x110000)%N ->
  let n := (c - 0x10000)%N in
  is_high (0xD800 + (n / 1024) mod 1024) = true /\
  is_low (0xDC00 + n mod 1024) = true /\
  (0x10000 + (0xD800 + (n / 1024) mod 1024 - 0xD800) * 1024
   + (0xDC00 + n mod 1024 - 0xDC00))%N = c.
Proof.
  intros L H n. unfold is_high, is_low.
  rewrite !andb_true_iff, !N.leb_le. subst n. repeat split; divmod.
Qed.

Lemma is_high_not_low (c : N) : is_high c = true -> is_low c = false.
Proof.
  unfold is_high, is_low. rewrite andb_true_iff, !N.leb_le. intros [_ H].
  apply andb_false_iff. left. apply N.leb_gt. lia.
Qed.

(** What follows a character in serialized text is the escape of a low
    surrogate only if the next character is one. *)
Lemma low_escape_follows_text (s rest : str) :
  low_escape_follows (flat_map escape_char s ++ 34%N :: rest) =
  match s with
  | c2 :: _ => is_low c2 && (c2 <? 0x10000)%N
  | [] => false
  end
  \/ exists c2 s', s = c2 :: s' /\ (0x110000 <= c2)%N.
Proof.
  destruct s as [|c2 s'].
  - left. apply low_escape_follows_head. reflexivity.
  - destruct (N.leb_spec 0x110000 c2) as [Big|Small]; [right; eauto|].
    left. cbn [flat_map]. rewrite <- app_assoc.
    set (t := flat_map escape_char s' ++ 34%N :: rest).
    assert (NL : forall k, c2 = k -> is_low k = false ->
                 is_low c2 && (c2 <? 65536)%N = false)
      by (intros k -> ->; reflexivity).
    unfold escape_char.
    repeat match goal with
           | |- context [(c2 =? ?k)%N] =>
               destruct (N.eqb_spec c2 k);
                 [rewrite (NL k) by (assumption || reflexivity);
                  apply low_escape_follows_second; reflexivity|]
           end.
    destruct (N.leb_spec 32 c2); destruct (N.leb_spec c2 126); cbn [andb].
    + cbn [app]. rewrite low_escape_follows_head by (apply N.eqb_neq; assumption).
      symmetry. apply andb_false_iff. left. unfold is_low.
      apply andb_false_iff. left. apply N.leb_gt. lia.
    + destruct (N.ltb_spec c2 0x10000).
      * rewrite low_escape_follows_u by assumption. rewrite andb_true_r.
        reflexivity.
      * destruct (surrogates c2) as (Hh & _ & _); [lia | lia |].
        rewrite <- app_assoc, low_escape_follows_u.
        -- rewrite (is_high_not_low _ Hh), andb_false_r. reflexivity.
        -- divmod.
    + destruct (N.ltb_spec c2 0x10000); [|lia].
      rewrite low_escape_follows_u by assumption. rewrite andb_true_r.
      reflexivity.
    + lia.
Qed.

(** The decoder on the serialized form of one character. *)
Lemma scan_string_char (c : N) (t : str) :
  (c < 0x110000)%N ->
  is_high c && low_escape_follows t = false ->
  scan_string (escape_char c ++ t) = push c (scan_string t).
Proof.
  intros B L. unfold escape_char.
  repeat match goal with
         | |- context [(c =? ?k)%N] =>
             destruct (N.eqb_spec c k); [subst c; reflexivity|]
         end.
  destruct (N.leb_spec 32 c); destruct (N.leb_spec c 126); cbn [andb].
  - cbn [app scan_string].
    destruct (N.eqb_spec c 34); [contradiction|].
    destruct (N.eqb_spec c 92); [contradiction|].
    destruct (N.ltb_spec c 32); [lia | reflexivity].
  - destruct (N.ltb_spec c 0x10000); [apply scan_string_u; assumption|].
    destruct (surrogates c) as (Hh & Hl & E); [lia | lia |].
    rewrite <- app_assoc, (scan_string_pair _ _ _ Hh Hl), E. reflexivity.
  - destruct (N.ltb_spec c 0x10000); [apply scan_string_u; assumption | lia].
  - lia.
Qed.

Lemma wf_str_head (s : str) :
  wf_str s = true ->
  match s with c :: _ => (c <? 0x110000)%N | [] => true end = true.
Proof.
  destruct s as [|c s]; [reflexivity|]. cbn [wf_str].
  rewrite !andb_true_iff. tauto.
Qed.

(** The decoder inverts the string encoder. *)
Lemma scan_string_escaped (s rest : str) :
  wf_str s = true ->
  scan_string (flat_map escape_char s ++ 34%N :: rest) = Ok (s, rest).
Proof.
  induction s as [|c s IH]; [reflexivity|].
  cbn [wf_str]. rewrite !andb_true_iff, negb_true_iff.
  intros [[B NP] W]. apply N.ltb_lt in B.
  cbn [flat_map]. rewrite <- app_assoc, scan_string_char, (IH W); auto.
  destruct (low_escape_follows_text s rest) as [-> | (c2 & s' & -> & Big)].
  - destruct s as [|c2 s']; [apply andb_false_r|].
    destruct (is_high c); [|reflexivity]. cbn [andb] in *. rewrite NP.
    reflexivity.
  - apply wf_str_head in W. apply N.ltb_lt in W. lia.
Qed.

Lemma parse_dumps_str (s rest : str) :
  wf_str s = true -> scan_string (tl (dumps_str s ++ rest)) = Ok (s, rest).
Proof.
  intros W. unfold dumps_str. cbn [app tl]. rewrite <- app_assoc.
  apply scan_string_escaped, W.
Qed.

(** *** Values *)

Lemma value_start_facts (c : N) :
  value_start c = true ->
  is_ws c = false /\ (93 =? c)%N = false /\ (125 =? c)%N = false /\
  (0xFEFF =? c)%N = false.
Proof.
  unfold value_start, is_digit, is_ws.
  rewrite !orb_true_iff, andb_true_iff, !N.eqb_eq, !N.leb_le.
  intros H. rewrite !orb_false_iff, !N.eqb_neq. lia.
Qed.

Lemma skip_ws_value (c : N) (t : str) :
  value_start c = true -> skip_ws (c :: t) = c :: t.
Proof.
  intros H. apply value_start_facts in H as (W & _). cbn [skip_ws].
  rewrite W. reflexivity.
Qed.

Lemma dumps_int_start (z : Z) :
  exists c t, dumps_int z = c :: t /\ (c =? 45)%N || is_digit c = true.
Proof.
  unfold dumps_int, Z.to_int. destruct z as [|p|p].
  - do 2 eexists. split; reflexivity.
  - destruct (to_uint_head p) as (c & t & E & D & _).
    exists c, t. rewrite D, orb_true_r. auto.
  - do 2 eexists. split; reflexivity.
Qed.

(** Serialized text starts with the first character of a value. *)
Lemma json_dumps_start (v : json) :
  exists c t, json_dumps v = c :: t /\ value_start c = true.
Proof.
  destruct v as [|[]|z|f|s|l|d]; try (do 2 eexists; split; reflexivity).
  - destruct (dumps_int_start z) as (c & t & E & H).
    exists c, t. split; [exact E|]. unfold value_start.
    apply orb_true_iff in H as [H|H]; rewrite H, ?orb_true_r; reflexivity.
  - destruct (dumps_float_start f) as (c & t & E & H).
    exists c, t. split; [exact E|]. unfold value_start. cbn [json_dumps].
    rewrite !orb_true_iff in H. destruct H as [[[H|H]|H]|H];
      rewrite H, ?orb_true_r; reflexivity.
Qed.

Lemma skip_ws_dumps (v : json) (t : str) :
  skip_ws (json_dumps v ++ t) = json_dumps v ++ t.
Proof.
  destruct (json_dumps_start v) as (c & r & -> & H). apply skip_ws_value, H.
Qed.

(** A minus sign, a digit or the first letter of [Infinity] starts a
    number. *)
Lemma parse_value_number (f : nat) (c : N) (t : str) :
  (c =? 45)%N || is_digit c || (c =? 73)%N = true ->
  parse_value (S f) (c :: t) = parse_number (c :: t).
Proof.
  intros H.
  assert (A : c = 45%N \/ (48 <= c <= 57)%N \/ c = 73%N).
  { unfold is_digit in H.
    rewrite !orb_true_iff, andb_true_iff, !N.eqb_eq, !N.leb_le in H. lia. }
  cbn [parse_value].
  destruct (N.eqb_spec c 34); [lia|].
  destruct (N.eqb_spec c 123); [lia|].
  destruct (N.eqb_spec c 91); [lia|].
  change (u "null") with [110; 117; 108; 108]%N.
  change (u "true") with [116; 114; 117; 101]%N.
  change (u "false") with [102; 97; 108; 115; 101]%N.
  change (u "NaN") with [78; 97; 78]%N.
  cbn [is_prefix].
  destruct (N.eqb_spec 110 c); [lia|].
  destruct (N.eqb_spec 116 c); [lia|].
  destruct (N.eqb_spec 102 c); [lia|].
  destruct (N.eqb_spec 78 c); [lia|]. reflexivity.
Qed.

(** The fuel bound: a value has at most as many nodes as its text has
    characters. *)
Lemma join_length_bound (sep : str) (ws : list nat) (parts : list str) :
  1 <= List.length sep ->
  Forall2 (fun w p => w <= List.length p) ws parts ->
  list_sum (map S ws) <= S (List.length (join sep parts)).
Proof.
  intros Hsep. induction 1 as [|w p ws parts Hw Hall IH]; [simpl; lia|].
  destruct parts as [|q parts'].
  - inversion Hall; subst. simpl. lia.
  - change (join sep (p :: q :: parts')) with (p ++ sep ++ join sep (q :: parts')).
    cbn [map]. change (list_sum (S w :: map S ws)) with (S w + list_sum (map S ws)).
    rewrite !length_app. lia.
Qed.

Lemma json_size_le (v : json) : json_size v <= List.length (json_dumps v).
Proof.
  induction v as [|[]|z|f|s|l IH|d IH] using json_ind;
    cbn [json_size json_dumps].
  - simpl; lia.
  - simpl; lia.
  - simpl; lia.
  - destruct (dumps_int_start z) as (c & t & -> & _). simpl; lia.
  - destruct (dumps_float_start f) as (c & t & -> & _). simpl; lia.
  - unfold dumps_str. simpl. lia.
  - assert (F : Forall2 (fun w p => w <= List.length p)
                  (map json_size l) (map json_dumps l)).
    { induction IH as [|x l' Hx Hl IHl]; cbn [map];
        [apply Forall2_nil | apply Forall2_cons; assumption]. }
    pose proof (join_length_bound (u ", ") _ _ ltac:(cbv; lia) F) as B.
    rewrite map_map in B.
    rewrite !length_app. change (List.length (u "[")) with 1.
    change (List.length (u "]")) with 1. lia.
  - assert (F : Forall2 (fun w p => w <= List.length p)
                  (map (fun kv => json_size (snd kv)) d)
                  (map (fun kv => dumps_str (fst kv) ++ u ": " ++ json_dumps (snd kv)) d)).
    { induction IH as [|[k x] d' Hx Hd IHd]; cbn [map];
        [apply Forall2_nil | apply Forall2_cons; [|assumption]].
      cbn [fst snd] in *. rewrite !length_app. lia. }
    pose proof (join_length_bound (u ", ") _ _ ltac:(cbv; lia) F) as B.
    rewrite map_map in B.
    rewrite !length_app. change (List.length (u "{")) with 1.
    change (List.length (u "}")) with 1. lia.
Qed.

(** *** Lists and dicts *)

(** Evaluate the parser on the punctuation that [json.dumps] writes. *)
Ltac punct :=
  repeat (progress (cbn [bind app skip_ws];
                    change (is_ws 44) with false; change (is_ws 32) with true;
                    change (is_ws 58) with false; change (is_ws 93) with false;
                    change (is_ws 125) with false;
                    change (34 =? 34)%N with true; change (58 =? 58)%N with true;
                    change (44 =? 93)%N with false; change (44 =? 44)%N with true;
                    change (44 =? 125)%N with false;
                    change (93 =? 93)%N with true; change (125 =? 125)%N with true;
                    cbv iota)).

Lemma join_cons (sep p : str) (ps : list str) :
  exists t, join sep (p :: ps) = p ++ t.
Proof.
  destruct ps as [|q ps]; cbn [join]; [exists []; symmetry; apply app_nil_r|].
  eexists; reflexivity.
Qed.

Lemma skip_ws_join (x : json) (l : list json) (t : str) :
  skip_ws (join (u ", ") (map json_dumps (x :: l)) ++ t)
  = join (u ", ") (map json_dumps (x :: l)) ++ t.
Proof.
  cbn [map]. destruct (join_cons (u ", ") (json_dumps x) (map json_dumps l)) as [r ->].
  rewrite <- app_assoc. apply skip_ws_dumps.
Qed.

Lemma parse_items_join (l : list json) :
  l <> [] -> Forall parses l ->
  forall (fuel : nat) (rest : str),
    list_sum (map (fun x => S (json_size x)) l) <= fuel ->
    forallb wf_json l = true ->
    parse_items fuel (join (u ", ") (map json_dumps l) ++ 93%N :: rest)
    = Ok (l, rest).
Proof.
  intros NE F. induction F as [|x l Hx Hl IH]; [congruence|].
  intros fuel rest Hfuel Hwf. clear NE.
  cbn [map] in Hfuel.
  change (list_sum (S (json_size x) :: map (fun x => S (json_size x)) l))
    with (S (json_size x) + list_sum (map (fun x => S (json_size x)) l)) in Hfuel.
  destruct fuel as [|f]; [lia|].
  cbn [forallb] in Hwf. apply andb_true_iff in Hwf as [Wx Wl].
  destruct l as [|y l'].
  - cbn [map join parse_items].
    rewrite (Hx f (93%N :: rest)) by (lia || assumption || reflexivity).
    reflexivity.
  - change (join (u ", ") (map json_dumps (x :: y :: l')))
      with (json_dumps x ++ [44; 32]%N ++ join (u ", ") (map json_dumps (y :: l'))).
    rewrite <- !app_assoc. cbn [parse_items].
    rewrite (Hx f) by (lia || assumption || reflexivity).
    punct.
    rewrite skip_ws_join, IH by (lia || assumption || discriminate).
    reflexivity.
Qed.

Lemma skip_ws_members (kv : str * json) (d : dict) (t : str) :
  skip_ws (join (u ", ") (map member_text (kv :: d)) ++ t)
  = join (u ", ") (map member_text (kv :: d)) ++ t.
Proof.
  cbn [map]. destruct (join_cons (u ", ") (member_text kv) (map member_text d)) as [r ->].
  reflexivity.
Qed.

Lemma member_text_eq (k : str) (x : json) (t : str) :
  member_text (k, x) ++ t
  = 34%N :: flat_map escape_char k ++ 34%N :: 58%N :: 32%N :: json_dumps x ++ t.
Proof.
  unfold member_text, dumps_str. cbn [fst snd].
  change (u ": ") with [58; 32]%N. cbn [app].
  rewrite <- !app_assoc. reflexivity.
Qed.

Lemma parse_members_join (d : dict) :
  d <> [] -> Forall (fun kv => parses (snd kv)) d ->
  forall (fuel : nat) (rest : str),
    list_sum (map (fun kv => S (json_size (snd kv))) d) <= fuel ->
    forallb (fun kv => wf_str (fst kv) && wf_json (snd kv)) d = true ->
    parse_members fuel (join (u ", ") (map member_text d) ++ 125%N :: rest)
    = Ok (d, rest).
Proof.
  intros NE F. induction F as [|[k x] d Hx Hd IH]; [congruence|].
  intros fuel rest Hfuel Hwf. clear NE. cbn [snd] in Hx.
  cbn [map snd] in Hfuel.
  change (list_sum (S (json_size x) :: map (fun kv => S (json_size (snd kv))) d))
    with (S (json_size x) + list_sum (map (fun kv => S (json_size (snd kv))) d))
    in Hfuel.
  destruct fuel as [|f]; [lia|].
  cbn [forallb fst snd] in Hwf. apply andb_true_iff in Hwf as [Wkx Wd].
  apply andb_true_iff in Wkx as [Wk Wx].
  destruct d as [|kv d'].
  - cbn [map join]. rewrite member_text_eq. cbn [parse_members].
    punct. rewrite (scan_string_escaped _ _ Wk). punct.
    rewrite skip_ws_dumps.
    rewrite (Hx f (125%N :: rest)) by (lia || assumption || reflexivity).
    reflexivity.
  - change (join (u ", ") (map member_text ((k, x) :: kv :: d')))
      with (member_text (k, x) ++ [44; 32]%N
            ++ join (u ", ") (map member_text (kv :: d'))).
    rewrite <- !app_assoc. rewrite member_text_eq. cbn [parse_members].
    punct. rewrite (scan_string_escaped _ _ Wk). punct.
    rewrite skip_ws_dumps.
    rewrite (Hx f) by (lia || assumption || reflexivity).
    punct.
    rewrite skip_ws_members, IH by (lia || assumption || discriminate).
    reflexivity.
Qed.

Lemma starts_with_dumps (c : N) (v : json) (t : str) :
  c = 93%N \/ c = 125%N \/ c = 0xFEFF%N ->
  starts_with c (json_dumps v ++ t) = false.
Proof.
  destruct (json_dumps_start v) as (c0 & r & -> & H).
  apply value_start_facts in H as (_ & A & B & C).
  intros [-> | [-> | ->]]; assumption.
Qed.

Lemma spec_float_nan_dec (x : spec_float) : x = S754_nan \/ x <> S754_nan.
Proof. destruct x; [right | right | left | right]; congruence. Qed.

(** Every value is read back from its text. *)
Lemma parse_value_dumps (v : json) : parses v.
Proof.
  induction v as [|b|z|x|s|l IH|d IH] using json_ind;
    intros fuel rest Hfuel Hwf Hrest;
    (destruct fuel as [|f]; [cbn [json_size] in Hfuel; lia|]).
  - reflexivity.
  - destruct b; reflexivity.
  - cbn [json_dumps]. destruct (dumps_int_start z) as (c & t & E & H).
    pose proof (parse_number_dumps_int z rest Hwf Hrest) as P.
    rewrite E in *. cbn [app] in *.
    rewrite parse_value_number by (rewrite H; reflexivity).
    exact P.
  - cbn [json_dumps wf_json] in *.
    destruct (spec_float_nan_dec x) as [->|NN]; [reflexivity|].
    destruct (dumps_float_number_start x NN) as (c & t & E & H).
    pose proof (parse_number_dumps_float x rest Hwf NN Hrest) as P.
    rewrite E in *. cbn [app] in *. rewrite parse_value_number by exact H.
    exact P.
  - cbn [json_dumps wf_json] in *. unfold dumps_str. rewrite <- !app_assoc.
    cbn [app parse_value]. punct.
    rewrite (scan_string_escaped _ _ Hwf). reflexivity.
  - cbn [json_dumps wf_json json_size] in *.
    change (u "[") with [91%N]. change (u "]") with [93%N].
    rewrite <- !app_assoc. cbn [app parse_value].
    change (91 =? 34)%N with false. change (91 =? 123)%N with false.
    change (91 =? 91)%N with true. cbv iota.
    destruct l as [|x l']; [reflexivity|].
    rewrite skip_ws_join.
    assert (S93 : starts_with 93
              (join (u ", ") (map json_dumps (x :: l')) ++ 93%N :: rest) = false).
    { cbn [map].
      destruct (join_cons (u ", ") (json_dumps x) (map json_dumps l')) as [r ->].
      rewrite <- app_assoc. apply starts_with_dumps. auto. }
    rewrite S93, parse_items_join by (lia || assumption || discriminate).
    reflexivity.
  - cbn [json_dumps wf_json json_size] in *.
    apply andb_true_iff in Hwf as [Hnd Hwf].
    change (u "{") with [123%N]. change (u "}") with [125%N].
    change (fun kv : str * json =>
              dumps_str (fst kv) ++ u ": " ++ json_dumps (snd kv))
      with member_text.
    rewrite <- !app_assoc. cbn [app parse_value].
    change (123 =? 34)%N with false. change (123 =? 123)%N with true. cbv iota.
    destruct d as [|kv d']; [reflexivity|].
    rewrite skip_ws_members.
    assert (S125 : starts_with 125
              (join (u ", ") (map member_text (kv :: d')) ++ 125%N :: rest) = false).
    { cbn [map].
      destruct (join_cons (u ", ") (member_text kv) (map member_text d')) as [r ->].
      reflexivity. }
    rewrite S125, parse_members_join by (lia || assumption || discriminate).
    cbn [bind]. rewrite (dict_of_pairs_nodup _ Hnd). reflexivity.
Qed.

(** [json.loads(json.dumps(v)) == v], for every well-formed [v]. *)
Lemma json_loads_dumps (v : json) :
  wf_json v = true -> json_loads (json_dumps v) = Ok v.
Proof.
  intros W. unfold json_loads.
  pose proof (starts_with_dumps 0xFEFF v [] ltac:(auto)) as B.
  pose proof (skip_ws_dumps v []) as K.
  pose proof (parse_value_dumps v (S (List.length (json_dumps v))) []) as P.
  rewrite app_nil_r in *. rewrite B, K, P; [reflexivity | | exact W | reflexivity].
  pose proof (json_size_le v). lia.
Qed.

(** [deep_empty_card()] is [json.loads(json.dumps(base))]. *)
Example deep_empty_card_copy : json_loads (json_dumps base) = Ok deep_empty_card.
Proof. apply json_loads_dumps. reflexivity. Qed.

(** ** Python's [==] on a value and itself *)

Lemma SFeqb_refl (f : spec_float) : f <> S754_nan -> SFeqb f f = true.
Proof.
  intros NN. unfold SFeqb, SFcompare.
  destruct f as [s|[]| |[] m e]; try congruence; try reflexivity;
    rewrite Z.compare_refl, Pos.compare_cont_refl; reflexivity.
Qed.

Lemma dict_get_member (k : str) (v : json) (d : dict) :
  nodup_keys (dict_keys d) = true -> In (k, v) d -> dict_get k d = Some v.
Proof.
  unfold dict_keys. induction d as [|[k0 v0] d IH]; [intros _ []|].
  cbn [map fst nodup_keys dict_get]. intros N [E|I].
  - injection E as -> ->. rewrite str_eqb_refl. reflexivity.
  - apply andb_true_iff in N as [N0 N1].
    destruct (str_eqb k k0) eqn:K; [|apply IH; assumption].
    apply str_eqb_eq in K. subst k0. apply negb_true_iff in N0.
    assert (X : existsb (str_eqb k) (map fst d) = true).
    { apply existsb_exists. exists k. split; [|apply str_eqb_refl].
      apply (in_map fst _ _ I). }
    congruence.
Qed.

(** A value that holds no NaN is [==] to itself, that is, to every value
    that is the same value. *)
Lemma py_eq_refl (v : json) :
  wf_json v = true -> nan_free v = true -> py_eq v v = true.
Proof.
  induction v as [|b|z|f|s|l IH|d IH] using json_ind; intros W NF.
  - reflexivity.
  - apply eqb_reflx.
  - apply Z.eqb_refl.
  - cbn [py_eq]. apply SFeqb_refl. intros ->. discriminate.
  - apply str_eqb_refl.
  - cbn [py_eq wf_json nan_free] in *.
    induction IH as [|x l Hx Hl IHl]; [reflexivity|].
    cbn [forallb] in W, NF.
    apply andb_true_iff in W as [Wx Wl]. apply andb_true_iff in NF as [Nx Nl].
    rewrite (Hx Wx Nx), (IHl Wl Nl). reflexivity.
  - cbn [py_eq]. rewrite Nat.eqb_refl. cbn [andb].
    cbn [wf_json nan_free] in W, NF. apply andb_true_iff in W as [Nd W].
    assert (G : forall x : dict,
              incl x d ->
              Forall (fun kv => wf_json (snd kv) = true ->
                                nan_free (snd kv) = true ->
                                py_eq (snd kv) (snd kv) = true) x ->
              forallb (fun kv => wf_str (fst kv) && wf_json (snd kv)) x = true ->
              forallb (fun kv => nan_free (snd kv)) x = true ->
              (fix sub (x : dict) : bool :=
                 match x with
                 | [] => true
                 | (k, v) :: x' =>
                     match dict_get k d with
                     | Some v' => py_eq v v'
                     | None => false
                     end && sub x'
                 end) x = true).
    { induction x as [|[k v] x IHx]; intros I F Wx Nx; [reflexivity|].
      inversion F as [|? ? Hv Hx]; subst.
      cbn [forallb fst snd] in Wx, Nx, Hv.
      apply andb_true_iff in Wx as [Wkv Wx].
      apply andb_true_iff in Wkv as [_ Wv].
      apply andb_true_iff in Nx as [Nv Nx].
      rewrite (dict_get_member k v d Nd (I _ (in_eq _ _))).
      rewrite (Hv Wv Nv). cbn [andb].
      apply IHx; try assumption.
      intros a Ha. apply I, in_cons, Ha. }
    apply G; [apply incl_refl | exact IH | exact W | exact NF].
Qed.

(** ** Normalization keeps values well formed *)

Lemma nodup_keys_set (k : str) (v : json) (d : dict) :
  nodup_keys (dict_keys (dict_set k v d)) = nodup_keys (dict_keys d)
  /\ forall k', existsb (str_eqb k') (dict_keys (dict_set k v d))
                = existsb (str_eqb k') (dict_keys d) || str_eqb k' k.
Proof.
  unfold dict_keys.
  induction d as [|[k0 v0] d [IH1 IH2]]; cbn [dict_set map fst nodup_keys existsb].
  - split; [reflexivity|]. intros k'. rewrite orb_false_r. reflexivity.
  - destruct (str_eqb k k0) eqn:E; cbn [map fst nodup_keys existsb].
    + split; [reflexivity|]. intros k'. apply str_eqb_eq in E; subst k0.
      destruct (str_eqb k' k); destruct (existsb _ _); reflexivity.
    + rewrite IH1, IH2. split.
      * rewrite str_eqb_sym, E, orb_false_r. reflexivity.
      * intros k'. rewrite IH2, orb_assoc. reflexivity.
Qed.

Lemma wf_dict_set (k : str) (v : json) (d : dict) :
  wf_str k = true -> wf_json v = true -> wf_json (JDict d) = true ->
  wf_json (JDict (dict_set k v d)) = true.
Proof.
  intros Wk Wv. cbn [wf_json]. rewrite !andb_true_iff. intros [Hn Hall].
  split; [rewrite (proj1 (nodup_keys_set k v d)); exact Hn|].
  clear Hn. induction d as [|[k0 v0] d IH]; cbn [dict_set forallb fst snd] in *.
  - rewrite Wk, Wv. reflexivity.
  - apply andb_true_iff in Hall as [H0 Hd].
    apply andb_true_iff in H0 as [Hk0 Hv0].
    destruct (str_eqb k k0); cbn [forallb fst snd].
    + rewrite Hk0, Wv, Hd. reflexivity.
    + rewrite Hk0, Hv0, (IH Hd). reflexivity.
Qed.

Lemma wf_dict_get (k : str) (d : dict) (v : json) :
  wf_json (JDict d) = true -> dict_get k d = Some v -> wf_json v = true.
Proof.
  cbn [wf_json]. rewrite andb_true_iff. intros [_ Hall].
  induction d as [|[k0 v0] d IH]; cbn [dict_get forallb fst snd] in *;
    [discriminate|].
  apply andb_true_iff in Hall as [H0 Hd].
  apply andb_true_iff in H0 as [_ Hv0].
  destruct (str_eqb k k0); [intros [= <-]; exact Hv0 | apply IH, Hd].
Qed.

Lemma wf_py_setitem (obj : json) (k : str) (v r : json) :
  py_setitem obj k v = Ok r ->
  wf_json obj = true -> wf_str k = true -> wf_json v = true -> wf_json r = true.
Proof.
  destruct obj; try discriminate. intros [= <-] Wo Wk Wv.
  apply wf_dict_set; assumption.
Qed.

Lemma wf_py_getitem (obj : json) (k : str) (r : json) :
  py_getitem obj k = Ok r -> wf_json obj = true -> wf_json r = true.
Proof.
  destruct obj; try discriminate. cbn [py_getitem].
  destruct (dict_get k d) eqn:E; [|discriminate]. intros [= <-] W.
  apply (wf_dict_get _ _ _ W E).
Qed.

Lemma wf_py_get (obj : json) (k : str) (default r : json) :
  py_get obj k default = Ok r ->
  wf_json obj = true -> wf_json default = true -> wf_json r = true.
Proof.
  destruct obj; try discriminate. cbn [py_get].
  destruct (dict_get k d) eqn:E; intros [= <-] W Wd; [|exact Wd].
  apply (wf_dict_get _ _ _ W E).
Qed.

Lemma fix_entry_wf (e e' : json) :
  fix_entry e = Ok e' -> wf_json e = true -> wf_json e' = true.
Proof.
  unfold fix_entry. destruct (py_get e _ _) as [sk|]; [|discriminate].
  cbn [bind]. destruct (negb (is_list sk)).
  - intros H W. apply (wf_py_setitem _ _ _ _ H W); reflexivity.
  - intros [= <-]. auto.
Qed.

Lemma mapM_fix_entry_wf (l l' : list json) :
  mapM fix_entry l = Ok l' -> forallb wf_json l = true ->
  forallb wf_json l' = true.
Proof.
  revert l'; induction l as [|e l IH]; cbn [mapM forallb]; intros l'.
  - intros [= <-]; reflexivity.
  - destruct (fix_entry e) as [e'|] eqn:E; [|discriminate]. cbn [bind].
    destruct (mapM fix_entry l) as [l0|]; [|discriminate]. cbn [bind].
    intros [= <-]. rewrite andb_true_iff. intros [We Wl]. cbn [forallb].
    rewrite (fix_entry_wf _ _ E We), (IH _ eq_refl Wl). reflexivity.
Qed.

Lemma fix_entries_wf (entries entries' : json) :
  fix_entries entries = Ok entries' -> wf_json entries = true ->
  wf_json entries' = true.
Proof.
  unfold fix_entries. destruct (py_iter entries) as [items|] eqn:I; [|discriminate].
  cbn [bind]. destruct (mapM fix_entry items) as [items'|] eqn:M; [|discriminate].
  cbn [bind]. intros [= <-] W.
  destruct entries; try exact W. cbn [py_iter] in I. injection I as <-.
  cbn [wf_json] in *. apply (mapM_fix_entry_wf _ _ M W).
Qed.

Lemma fix_list_field_wf (k : str) (d d' : json) :
  wf_str k = true ->
  fix_list_field k d = Ok d' -> wf_json d = true -> wf_json d' = true.
Proof.
  intros Wk. unfold fix_list_field.
  destruct (py_get d k (JList [])) as [v|]; [|discriminate]. cbn [bind].
  destruct (negb (is_list v)).
  - intros H W. apply (wf_py_setitem _ _ _ _ H W Wk). reflexivity.
  - intros [= <-]. auto.
Qed.

Lemma fix_book_wf (d d' : json) :
  fix_book d = Ok d' -> wf_json d = true -> wf_json d' = true.
Proof.
  unfold fix_book.
  destruct (py_contains (u "character_book") d) as [[]|]; try discriminate;
    cbn [bind]; [|intros [= <-]; auto].
  destruct (py_getitem d (u "character_book")) as [book|] eqn:B; [|discriminate].
  cbn [bind].
  destruct (py_contains (u "entries") book) as [[]|]; try discriminate;
    cbn [bind]; [|intros [= <-]; auto].
  destruct (py_getitem book (u "entries")) as [entries|] eqn:G; [|discriminate].
  cbn [bind].
  destruct (fix_entries entries) as [entries'|] eqn:F; [|discriminate].
  cbn [bind].
  destruct (py_setitem book (u "entries") entries') as [book'|] eqn:S;
    [|discriminate].
  cbn [bind]. intros H W.
  pose proof (wf_py_getitem _ _ _ B W) as Wb.
  pose proof (wf_py_getitem _ _ _ G Wb) as We.
  pose proof (fix_entries_wf _ _ F We) as We'.
  pose proof (wf_py_setitem _ (u "entries") _ _ S Wb eq_refl We') as Wb'.
  apply (wf_py_setitem _ (u "character_book") _ _ H W eq_refl Wb').
Qed.

Lemma wrap_legacy_wf (x data : json) :
  wrap_legacy x = Ok data -> wf_json x = true -> wf_json data = true.
Proof.
  unfold wrap_legacy. destruct (py_get x _ _) as [spec|]; [|discriminate].
  cbn [bind]. destruct (negb _).
  - intros H W. apply (wf_py_setitem deep_empty_card (u "data") _ _ H eq_refl eq_refl W).
  - intros [= <-]. auto.
Qed.

Lemma normalize_wf (x y : json) :
  normalize x = Ok y -> wf_json x = true -> wf_json y = true.
Proof.
  rewrite normalize_steps. intros H W.
  destruct (wrap_legacy x) as [data|] eqn:E0; [|discriminate]. cbn [bind] in H.
  pose proof (wrap_legacy_wf _ _ E0 W) as W0.
  destruct (py_getitem data (u "data")) as [d0|] eqn:E1; [|discriminate].
  cbn [bind] in H. pose proof (wf_py_getitem _ _ _ E1 W0) as W1.
  destruct (fix_list_field (u "tags") d0) as [d1|] eqn:E2; [|discriminate].
  cbn [bind] in H. pose proof (fix_list_field_wf (u "tags") _ _ eq_refl E2 W1) as W2.
  destruct (fix_list_field (u "alternate_greetings") d1) as [d2|] eqn:E3;
    [|discriminate].
  cbn [bind] in H. pose proof (fix_list_field_wf (u "alternate_greetings") _ _ eq_refl E3 W2) as W3.
  destruct (fix_book d2) as [d3|] eqn:E4; [|discriminate].
  cbn [bind] in H. pose proof (fix_book_wf _ _ E4 W3) as W4.
  apply (wf_py_setitem _ (u "data") _ _ H W0 eq_refl W4).
Qed.

(** ** The round-trip laws *)

(** Serializing a normalized card, parsing the text and normalizing
    again changes nothing. *)
Lemma normalize_through_text (x y : json) :
  wf_json x = true -> normalize x = Ok y ->
  (z <- json_loads (json_dumps y) ;; normalize z) = Ok y.
Proof.
  intros W E. rewrite (json_loads_dumps _ (normalize_wf _ _ E W)). cbn [bind].
  apply (normalize_idempotent _ _ E).
Qed.

(** C5.  Normalization is idempotent through the JSON text: for every
    decoded JSON value [x] (floats included), normalizing [x], serializing
    the result, parsing it back and normalizing again gives what
    normalizing [x] gives -- the same card, or the same exception when [x]
    is a value normalization raises on.  The same card is the same value,
    float for float; it is also equal by Python's [==] when it holds no
    NaN, which [==] finds unequal to itself. *)
Theorem normalize_serialize_parse_normalize (x : json) :
  wf_json x = true ->
  (y <- normalize x ;; z <- json_loads (json_dumps y) ;; normalize z)
  = normalize x
  /\ forall y r,
       normalize x = Ok y ->
       (z <- json_loads (json_dumps y) ;; normalize z) = Ok r ->
       nan_free y = true -> py_eq r y = true.
Proof.
  intros W. split.
  - destruct (normalize x) as [y|e] eqn:E; [|reflexivity].
    cbn [bind]. apply (normalize_through_text _ _ W E).
  - intros y r E R NF. rewrite (normalize_through_text _ _ W E) in R.
    injection R as <-. apply py_eq_refl; [|exact NF].
    apply (normalize_wf _ _ E W).
Qed.

Lemma normalize_serialize_parse_normalize_witness :
  wf_json (JDict [(u "name", JStr (u "Foo"));
                  (u "tags", JStr (u "not-an-array"));
                  (u "weight", JFloat one_and_a_half)])
    = true /\
  ((y <- normalize (JDict [(u "name", JStr (u "Foo"));
                           (u "tags", JStr (u "not-an-array"));
                           (u "weight", JFloat one_and_a_half)]) ;;
    z <- json_loads (json_dumps y) ;; normalize z)
   = normalize (JDict [(u "name", JStr (u "Foo"));
                       (u "tags", JStr (u "not-an-array"));
                       (u "weight", JFloat one_and_a_half)])
   /\ forall y r,
        normalize (JDict [(u "name", JStr (u "Foo"));
                          (u "tags", JStr (u "not-an-array"));
                          (u "weight", JFloat one_and_a_half)]) = Ok y ->
        (z <- json_loads (json_dumps y) ;; normalize z) = Ok r ->
        nan_free y = true -> py_eq r y = true).
Proof.
  split; [reflexivity|].
  apply (normalize_serialize_parse_normalize
           (JDict [(u "name", JStr (u "Foo"));
                   (u "tags", JStr (u "not-an-array"));
                   (u "weight", JFloat one_and_a_half)])).
  reflexivity.
Defined.

(** The sample card through the codec, evaluated: what [read_character]
    returns from the image written with it. *)
Example sample_card_round_trip :
  (out <- write_character blank_png sample_card ;; read_character out)
  = Ok sample_card.
Proof. vm_compute. reflexivity. Qed.

(** C1.  For a card [c] that meets the schema invariants (floats
    included), and any PNG, [write_character] succeeds, and
    [read_character] on what it wrote returns what normalizing the parsed
    serialization of [c] returns; both are the card [c] itself, the same
    value float for float, and equal to [c] by Python's [==] when [c]
    holds no NaN. *)
Theorem read_character_write_character (image : png) (c : json) :
  valid_card c = true -> wf_json c = true ->
  exists out,
    write_character image c = Ok out /\
    read_character out = (x <- json_loads (json_dumps c) ;; normalize x) /\
    read_character out = Ok c /\
    (nan_free c = true ->
     forall r, read_character out = Ok r -> py_eq r c = true).
Proof.
  intros V W. destruct (read_after_write image c) as (out & Hw & Hr).
  assert (R : read_character out = Ok c).
  { rewrite Hr, (json_loads_dumps _ W). cbn [bind].
    apply normalize_normal, valid_card_normal, V. }
  exists out. split; [exact Hw|]. split; [exact Hr|]. split; [exact R|].
  intros NF r Hr'. rewrite R in Hr'. injection Hr' as <-.
  apply py_eq_refl; assumption.
Qed.

Lemma read_character_write_character_witness :
  valid_card sample_card = true /\ wf_json sample_card = true /\
  exists out,
    write_character blank_png sample_card = Ok out /\
    read_character out
    = (x <- json_loads (json_dumps sample_card) ;; normalize x) /\
    read_character out = Ok sample_card /\
    (nan_free sample_card = true ->
     forall r, read_character out = Ok r -> py_eq r sample_card = true).
Proof.
  split; [reflexivity|]. split; [reflexivity|].
  apply (read_character_write_character blank_png sample_card); reflexivity.
Defined.

(** ** What the decoders return is well formed *)

Lemma utf8_decode_scalar (bs : bytes) (s : str) :
  utf8_decode bs = Ok s -> scalar_text s = true.
Proof.
  revert bs s. fix IH 1. intros [|b0 r0] s; [intros [= <-]; reflexivity|].
  cbn [utf8_decode]. cbv zeta.
  assert (K : forall (c : N) (r : bytes) s',
             scalar c = true ->
             (forall s0, utf8_decode r = Ok s0 -> scalar_text s0 = true) ->
             (s0 <- utf8_decode r ;; Ok (c :: s0)) = Ok s' ->
             scalar_text s' = true).
  { intros c r s' Hc IHr. destruct (utf8_decode r) as [s0|]; [|discriminate].
    cbn [bind]. intros [= <-]. cbn [scalar_text forallb].
    rewrite Hc. apply IHr. reflexivity. }
  pose proof (to_N_lt_256 b0) as B0.
  destruct (N.ltb_spec (Byte.to_N b0) 0x80).
  { apply K; [|apply IH]. unfold scalar, is_surrogate.
    rewrite andb_true_iff, negb_true_iff, andb_false_iff, N.ltb_lt, N.leb_gt, N.ltb_ge.
    lia. }
  destruct (N.ltb_spec (Byte.to_N b0) 0xC2); [discriminate|].
  destruct r0 as [|b1 r1]; [discriminate|].
  unfold is_cont.
  destruct (N.leb_spec 0x80 (Byte.to_N b1));
    destruct (N.ltb_spec (Byte.to_N b1) 0xC0); cbn [andb negb]; try discriminate.
  destruct (N.ltb_spec (Byte.to_N b0) 0xE0).
  { apply K; [|apply IH]. unfold scalar, is_surrogate.
    rewrite andb_true_iff, negb_true_iff, andb_false_iff, N.ltb_lt, N.leb_gt, N.ltb_ge.
    lia. }
  destruct r1 as [|b2 r2]; [discriminate|].
  destruct (N.leb_spec 0x80 (Byte.to_N b2));
    destruct (N.ltb_spec (Byte.to_N b2) 0xC0); cbn [andb negb]; try discriminate.
  destruct (N.ltb_spec (Byte.to_N b0) 0xF0).
  { match goal with |- context [is_surrogate ?c] =>
      destruct (N.ltb_spec c 0x800); [discriminate|];
      destruct (is_surrogate c) eqn:S; [discriminate|]
    end.
    cbn [orb]. apply K; [|apply IH]. unfold scalar. rewrite S, andb_true_r.
    apply N.ltb_lt. lia. }
  destruct r2 as [|b3 r3]; [discriminate|].
  destruct (N.leb_spec 0x80 (Byte.to_N b3));
    destruct (N.ltb_spec (Byte.to_N b3) 0xC0); cbn [andb negb orb];
    try discriminate.
  destruct (N.leb_spec 0xF5 (Byte.to_N b0)); [discriminate|]. cbn [orb].
  match goal with |- context [(?c <? 0x10000)%N] =>
    destruct (N.ltb_spec c 0x10000); [discriminate|];
    destruct (N.leb_spec 0x110000 c); [discriminate|]
  end.
  cbn [orb]. apply K; [|apply IH]. unfold scalar, is_surrogate.
  rewrite andb_true_iff, negb_true_iff, andb_false_iff, N.ltb_lt, N.leb_gt, N.ltb_ge.
  lia.
Qed.

Lemma hex_value_bound (c k : N) : hex_value c = Some k -> (k < 16)%N.
Proof.
  unfold hex_value.
  destruct (N.leb_spec 48 c); destruct (N.leb_spec c 57); cbn [andb];
    [intros [= <-]; lia |..];
    (destruct (N.leb_spec 97 c); destruct (N.leb_spec c 102); cbn [andb];
     [intros [= <-]; lia |..]);
    (destruct (N.leb_spec 65 c); destruct (N.leb_spec c 70); cbn [andb];
     [intros [= <-]; lia |..]); discriminate.
Qed.

Lemma hex4_bound (h1 h2 h3 h4 n : N) :
  hex4 h1 h2 h3 h4 = Some n -> (n < 65536)%N.
Proof.
  unfold hex4.
  destruct (hex_value h1) as [a|] eqn:A; [|discriminate].
  destruct (hex_value h2) as [b|] eqn:B; [|discriminate].
  destruct (hex_value h3) as [c|] eqn:C; [|discriminate].
  destruct (hex_value h4) as [d|] eqn:D; [|discriminate].
  apply hex_value_bound in A, B, C, D. intros [= <-]. lia.
Qed.

Lemma unescape_bound (e c : N) : unescape e = Some c -> (c < 128)%N.
Proof.
  unfold unescape.
  repeat match goal with
         | |- context [(e =? ?k)%N] =>
             destruct (e =? k)%N; [intros [= <-]; lia|]
         end.
  discriminate.
Qed.

Lemma scalar_facts (c : N) :
  scalar c = true -> (c < 0x110000)%N /\ is_high c = false /\ is_low c = false.
Proof.
  unfold scalar, is_surrogate, is_high, is_low.
  rewrite andb_true_iff, negb_true_iff, !andb_false_iff, N.ltb_lt, !N.leb_gt,
    N.ltb_ge.
  lia.
Qed.

Lemma small_facts (c : N) :
  (c < 0xD800)%N -> (c < 0x110000)%N /\ is_high c = false /\ is_low c = false.
Proof.
  unfold is_high, is_low. rewrite !andb_false_iff, !N.leb_gt. lia.
Qed.

(** One more character in front of decoded text. *)
Lemma wf_str_push (c : N) (t x r : str) :
  (forall x0 r0, scan_string t = Ok (x0, r0) ->
     scalar_text r0 = true /\ wf_str x0 = true /\
     (match x0 with c2 :: _ => is_low c2 | [] => false end = true ->
      low_escape_follows t = true)) ->
  (c < 0x110000)%N ->
  (is_high c = true -> low_escape_follows t = false) ->
  push c (scan_string t) = Ok (x, r) ->
  scalar_text r = true /\ wf_str x = true /\ exists x0, x = c :: x0.
Proof.
  intros IH B L. unfold push.
  destruct (scan_string t) as [[x0 r0]|] eqn:E; [|discriminate].
  cbn [bind]. intros [= <- <-].
  destruct (IH _ _ eq_refl) as (S0 & W0 & H0).
  split; [exact S0|]. split; [|eauto].
  cbn [wf_str]. rewrite W0, andb_true_r.
  apply andb_true_iff. split; [apply N.ltb_lt, B|].
  apply negb_true_iff. destruct (is_high c) eqn:Hc; [|reflexivity].
  cbn [andb].
  destruct (match x0 with c2 :: _ => is_low c2 | [] => false end) eqn:Hd;
    [|reflexivity].
  rewrite (H0 eq_refl) in L. discriminate (L eq_refl).
Qed.

Lemma scalar_text_cons (c : N) (s : str) :
  scalar_text (c :: s) = true -> scalar c = true /\ scalar_text s = true.
Proof. cbn [scalar_text forallb]. apply andb_true_iff. Qed.

Lemma scan_string_wf_aux (n : nat) :
  forall s x r,
    List.length s <= n -> scalar_text s = true -> scan_string s = Ok (x, r) ->
    scalar_text r = true /\ wf_str x = true /\
    (match x with c :: _ => is_low c | [] => false end = true ->
     low_escape_follows s = true).
Proof.
  induction n as [|n IH]; intros s x r Hlen SC H;
    (destruct s as [|c s1]; [discriminate H|]); cbn [List.length] in Hlen;
    [lia|].
  apply scalar_text_cons in SC as [Sc SC1].
  cbn [scan_string] in H.
  destruct (c =? 34)%N eqn:Q.
  { injection H as <- <-. repeat split; auto. discriminate. }
  destruct (c =? 92)%N eqn:BS.
  - destruct s1 as [|e s2]; [discriminate H|].
    apply scalar_text_cons in SC1 as [Se SC2]. cbn [List.length] in Hlen.
    destruct (e =? 117)%N eqn:U.
    + destruct s2 as [|h1 [|h2 [|h3 [|h4 r2]]]]; try discriminate H.
      cbn [List.length] in Hlen.
      destruct (hex4 h1 h2 h3 h4) as [uni|] eqn:Hx; [|discriminate H].
      pose proof (hex4_bound _ _ _ _ _ Hx) as Bu.
      assert (SC6 : scalar_text r2 = true).
      { repeat (apply scalar_text_cons in SC2 as [_ SC2]). exact SC2. }
      apply N.eqb_eq in BS, U. subst c e.
      assert (Head : is_low uni = true ->
                low_escape_follows (92 :: 117 :: h1 :: h2 :: h3 :: h4 :: r2)%N
                = true).
      { intros L. unfold low_escape_follows. rewrite Hx, L. reflexivity. }
      assert (Single : (is_high uni = true -> low_escape_follows r2 = false) ->
                push uni (scan_string r2) = Ok (x, r) ->
                scalar_text r = true /\ wf_str x = true /\
                (match x with c :: _ => is_low c | [] => false end = true ->
                 low_escape_follows (92 :: 117 :: h1 :: h2 :: h3 :: h4 :: r2)%N
                 = true)).
      { intros L P.
        destruct (wf_str_push uni r2 x r) as (A & B & x0 & ->);
          [ intros x0 r0 E; apply (IH r2); [lia | assumption | exact E]
          | lia | exact L | exact P | ].
        split; [exact A|]. split; [exact B|]. exact Head. }
      destruct r2 as [|b [|v [|g1 [|g2 [|g3 [|g4 r3]]]]]];
        try (apply Single; [reflexivity | exact H]).
      destruct (is_high uni) eqn:Hh; cbn [andb] in H;
        [|apply Single; [discriminate | exact H]].
      destruct (b =? 92)%N eqn:Hb; cbn [andb] in H;
        [|apply Single; [|exact H]; intros _; unfold low_escape_follows;
          rewrite Hb; reflexivity].
      destruct (v =? 117)%N eqn:Hv;
        [|apply Single; [|exact H]; intros _; unfold low_escape_follows;
          rewrite Hb, Hv; reflexivity].
      destruct (hex4 g1 g2 g3 g4) as [uni2|] eqn:Hx2; [|discriminate H].
      destruct (is_low uni2) eqn:Hl;
        [|apply Single; [|exact H]; intros _; unfold low_escape_follows;
          rewrite Hb, Hv, Hx2, Hl; reflexivity].
      (* the two escapes are one code point *)
      cbn [List.length] in Hlen.
      assert (SC12 : scalar_text r3 = true).
      { repeat (apply scalar_text_cons in SC6 as [_ SC6]). exact SC6. }
      unfold is_high in Hh. unfold is_low in Hl.
      rewrite andb_true_iff, !N.leb_le in Hh, Hl.
      destruct (wf_str_push
                  (0x10000 + (uni - 0xD800) * 1024 + (uni2 - 0xDC00))%N r3 x r)
        as (A & B & x0 & ->);
        [ intros x0 r0 E; apply (IH r3); [lia | assumption | exact E]
        | lia
        | intros Hj; unfold is_high in Hj;
          rewrite andb_true_iff, !N.leb_le in Hj; lia
        | exact H | ].
      split; [exact A|]. split; [exact B|]. cbv iota. unfold is_low.
      rewrite andb_true_iff, !N.leb_le. lia.
    + destruct (unescape e) as [c'|] eqn:Ue; [|discriminate H].
      pose proof (unescape_bound _ _ Ue) as Bc.
      destruct (small_facts c') as (B1 & B2 & B3); [lia|].
      destruct (wf_str_push c' s2 x r) as (A & B & x0 & ->);
        [ intros x0 r0 E; apply (IH s2); [lia | assumption | exact E]
        | exact B1 | rewrite B2; discriminate | exact H | ].
      split; [exact A|]. split; [exact B|]. cbv iota. rewrite B3. discriminate.
  - destruct (c <? 32)%N; [discriminate H|].
    destruct (scalar_facts _ Sc) as (B1 & B2 & B3).
    destruct (wf_str_push c s1 x r) as (A & B & x0 & ->);
      [ intros x0 r0 E; apply (IH s1); [lia | assumption | exact E]
      | exact B1 | rewrite B2; discriminate | exact H | ].
    split; [exact A|]. split; [exact B|]. cbv iota. rewrite B3. discriminate.
Qed.

(** A decoded string is one that serializes back to itself. *)
Lemma scan_string_wf (s x r : str) :
  scalar_text s = true -> scan_string s = Ok (x, r) ->
  scalar_text r = true /\ wf_str x = true.
Proof.
  intros SC H.
  destruct (scan_string_wf_aux (List.length s) s x r (le_n _) SC H) as (A & B & _).
  auto.
Qed.

Lemma skip_ws_scalar (s : str) :
  scalar_text s = true -> scalar_text (skip_ws s) = true.
Proof.
  induction s as [|c s IH]; [reflexivity|]. intros H. cbn [skip_ws].
  destruct (is_ws c); [|exact H].
  apply scalar_text_cons in H as [_ H]. apply IH, H.
Qed.

Lemma skipn_scalar (n : nat) (s : str) :
  scalar_text s = true -> scalar_text (skipn n s) = true.
Proof.
  revert s; induction n as [|n IH]; intros [|c s] H; cbn [skipn]; auto.
  apply scalar_text_cons in H as [_ H]. apply IH, H.
Qed.

Lemma tl_scalar (s : str) : scalar_text s = true -> scalar_text (tl s) = true.
Proof. apply (skipn_scalar 1). Qed.

Lemma span_digits_scalar (s : str) :
  scalar_text s = true -> scalar_text (snd (span_digits s)) = true.
Proof.
  induction s as [|c s IH]; [reflexivity|]. intros H. cbn [span_digits].
  destruct (is_digit c); [|exact H].
  apply scalar_text_cons in H as [_ H]. specialize (IH H).
  destruct (span_digits s). exact IH.
Qed.

Lemma scan_fraction_scalar (s : str) :
  scalar_text s = true -> scalar_text (snd (scan_fraction s)) = true.
Proof.
  intros H. unfold scan_fraction. destruct s as [|c t]; [reflexivity|].
  destruct (_ && _); [|exact H].
  apply scalar_text_cons in H as [_ H]. apply span_digits_scalar, H.
Qed.

Lemma scan_exponent_scalar (s : str) (E : Z) (rest : str) :
  scalar_text s = true -> scan_exponent s = Some (E, rest) ->
  scalar_text rest = true.
Proof.
  intros H. unfold scan_exponent. destruct s as [|c t]; [discriminate|].
  destruct (_ || _); [|discriminate].
  apply scalar_text_cons in H as [_ H].
  assert (S1 : scalar_text
                 (snd match t with
                      | c1 :: t' =>
                          if (c1 =? 43)%N then (false, t')
                          else if (c1 =? 45)%N then (true, t')
                          else (false, t)
                      | [] => (false, t)
                      end) = true).
  { destruct t as [|c1 t']; [reflexivity|].
    pose proof (proj2 (scalar_text_cons _ _ H)) as H'.
    destruct (c1 =? 43)%N; [exact H'|]. destruct (c1 =? 45)%N; assumption. }
  destruct (match t with [] => _ | _ => _ end) as [neg t1]. cbn [snd] in S1.
  pose proof (span_digits_scalar t1 S1) as S2.
  destruct (span_digits t1) as [[|e es] r]; [discriminate|].
  intros [= _ <-]. exact S2.
Qed.

(** An integer the decoder accepts is within the digit limit. *)
Lemma wf_int_of_digits (neg : bool) (ip : str) :
  forallb is_digit ip = true -> ip <> [] ->
  (max_str_digits <? List.length ip)%nat = false ->
  wf_json (JInt (if neg then (- Z.of_N (digits_value ip))%Z
                 else Z.of_N (digits_value ip))) = true.
Proof.
  intros Hd Hn Hl. apply Nat.ltb_ge in Hl. cbn [wf_json].
  apply Nat.leb_le.
  pose proof (digits_of_N_length ip Hd Hn) as L.
  replace (Z.abs_N (if neg then (- Z.of_N (digits_value ip))%Z
                    else Z.of_N (digits_value ip)))
    with (digits_value ip); [lia|].
  destruct neg; [rewrite Zabs2N.inj_opp|]; rewrite Zabs2N.id; reflexivity.
Qed.

Lemma parse_unsigned_wf (neg : bool) (s : str) (v : json) (r : str) :
  scalar_text s = true -> parse_unsigned neg s = Ok (v, r) ->
  scalar_text r = true /\ wf_json v = true.
Proof.
  intros SC. unfold parse_unsigned. destruct s as [|c r0]; [discriminate|].
  destruct (is_digit c) eqn:Hc.
  - assert (S2 : scalar_text
                   (snd (if (c =? 48)%N then ([c], r0)
                         else span_digits (c :: r0))) = true
                 /\ forallb is_digit
                      (fst (if (c =? 48)%N then ([c], r0)
                            else span_digits (c :: r0))) = true
                 /\ fst (if (c =? 48)%N then ([c], r0)
                         else span_digits (c :: r0)) <> []).
    { destruct (c =? 48)%N.
      - cbn [fst snd forallb]. rewrite Hc.
        apply scalar_text_cons in SC as [_ SC]. repeat split; auto.
        discriminate.
      - split; [apply span_digits_scalar, SC|].
        split; [apply span_digits_spec|].
        cbn [span_digits]. rewrite Hc. destruct (span_digits r0).
        discriminate. }
    destruct (if (c =? 48)%N then _ else _) as [ip rest].
    cbn [fst snd] in S2. destruct S2 as (S2 & Hip & Nip).
    pose proof (scan_fraction_scalar rest S2) as S3.
    destruct (scan_fraction rest) as [fs rest1]. cbn [snd] in S3.
    destruct (scan_exponent rest1) as [[E rest2]|] eqn:EE.
    + intros [= <- <-]. split; [|apply float_of_decimal_valid].
      apply (scan_exponent_scalar _ _ _ S3 EE).
    + destruct fs as [|f0 fs].
      * destruct (max_str_digits <? List.length ip)%nat eqn:Hl; [discriminate|].
        intros [= <- <-]. split; [exact S3|].
        apply wf_int_of_digits; assumption.
      * intros [= <- <-]. split; [exact S3 | apply float_of_decimal_valid].
  - destruct (is_prefix _ _); [|discriminate].
    intros [= <- <-]. split; [|reflexivity].
    apply (skipn_scalar 8 (c :: r0)), SC.
Qed.

Lemma parse_number_wf (s : str) (v : json) (r : str) :
  scalar_text s = true -> parse_number s = Ok (v, r) ->
  scalar_text r = true /\ wf_json v = true.
Proof.
  intros SC. unfold parse_number. destruct s as [|c r0]; [discriminate|].
  destruct (c =? 45)%N; apply parse_unsigned_wf; [|exact SC].
  apply scalar_text_cons in SC as [_ SC]. exact SC.
Qed.

Lemma wf_dict_of_pairs (kvs : list (str * json)) :
  forallb (fun kv => wf_str (fst kv) && wf_json (snd kv)) kvs = true ->
  wf_json (JDict (dict_of_pairs kvs)) = true.
Proof.
  unfold dict_of_pairs, dict_union.
  assert (G : forall acc, wf_json (JDict acc) = true ->
            forallb (fun kv => wf_str (fst kv) && wf_json (snd kv)) kvs = true ->
            wf_json (JDict (fold_left
                              (fun acc kv => dict_set (fst kv) (snd kv) acc)
                              kvs acc)) = true).
  { induction kvs as [|[k v] kvs IH]; intros acc Wa H; [exact Wa|].
    cbn [forallb fst snd] in H. apply andb_true_iff in H as [Hkv H].
    apply andb_true_iff in Hkv as [Hk Hv].
    cbn [fold_left fst snd]. apply IH; [|exact H].
    apply wf_dict_set; assumption. }
  apply G. reflexivity.
Qed.

(** The parser returns well-formed values, and leaves scalar text. *)
Lemma parse_wf (fuel : nat) :
  (forall s v r, scalar_text s = true -> parse_value fuel s = Ok (v, r) ->
                 scalar_text r = true /\ wf_json v = true) /\
  (forall s l r, scalar_text s = true -> parse_items fuel s = Ok (l, r) ->
                 scalar_text r = true /\ forallb wf_json l = true) /\
  (forall s kvs r, scalar_text s = true -> parse_members fuel s = Ok (kvs, r) ->
                   scalar_text r = true /\
                   forallb (fun kv => wf_str (fst kv) && wf_json (snd kv)) kvs
                   = true).
Proof.
  induction fuel as [|f (IHv & IHi & IHm)];
    [repeat split; discriminate|].
  split; [|split].
  - intros s v r SC. cbn [parse_value].
    destruct s as [|c t]; [discriminate|].
    pose proof (proj2 (scalar_text_cons _ _ SC)) as SCt.
    destruct (c =? 34)%N.
    { destruct (scan_string t) as [[x r']|] eqn:E; [|discriminate].
      cbn [bind]. intros [= <- <-]. apply (scan_string_wf _ _ _ SCt E). }
    destruct (c =? 123)%N.
    { destruct (starts_with 125 (skip_ws t)).
      - intros [= <- <-]. split; [|reflexivity].
        apply tl_scalar, skip_ws_scalar, SCt.
      - destruct (parse_members f (skip_ws t)) as [[kvs r']|] eqn:E;
          [|discriminate].
        cbn [bind]. intros [= <- <-].
        destruct (IHm _ _ _ (skip_ws_scalar _ SCt) E) as [A B].
        split; [exact A | apply wf_dict_of_pairs, B]. }
    destruct (c =? 91)%N.
    { destruct (starts_with 93 (skip_ws t)).
      - intros [= <- <-]. split; [|reflexivity].
        apply tl_scalar, skip_ws_scalar, SCt.
      - destruct (parse_items f (skip_ws t)) as [[l r']|] eqn:E;
          [|discriminate].
        cbn [bind]. intros [= <- <-].
        apply (IHi _ _ _ (skip_ws_scalar _ SCt) E). }
    destruct (is_prefix (u "null") (c :: t));
      [intros [= <- <-]; split; [apply (skipn_scalar 3 t), SCt | reflexivity]|].
    destruct (is_prefix (u "true") (c :: t));
      [intros [= <- <-]; split; [apply (skipn_scalar 3 t), SCt | reflexivity]|].
    destruct (is_prefix (u "false") (c :: t));
      [intros [= <- <-]; split; [apply (skipn_scalar 4 t), SCt | reflexivity]|].
    destruct (is_prefix (u "NaN") (c :: t));
      [intros [= <- <-]; split; [apply (skipn_scalar 2 t), SCt | reflexivity]|].
    apply parse_number_wf, SC.
  - intros s l r SC. cbn [parse_items].
    destruct (parse_value f s) as [[v r0]|] eqn:E; [|discriminate].
    cbn [bind]. destruct (IHv _ _ _ SC E) as [A B].
    pose proof (skip_ws_scalar _ A) as A'.
    destruct (skip_ws r0) as [|c r1]; [discriminate|].
    apply scalar_text_cons in A' as [_ A1].
    destruct (c =? 93)%N.
    { intros [= <- <-]. cbn [forallb]. rewrite B. auto. }
    destruct (c =? 44)%N; [|discriminate].
    destruct (parse_items f (skip_ws r1)) as [[l' r2]|] eqn:E2; [|discriminate].
    cbn [bind]. intros [= <- <-].
    destruct (IHi _ _ _ (skip_ws_scalar _ A1) E2) as [C D].
    cbn [forallb]. rewrite B, D. auto.
  - intros s kvs r SC. cbn [parse_members].
    destruct s as [|q t]; [discriminate|].
    pose proof (proj2 (scalar_text_cons _ _ SC)) as SCt.
    destruct (q =? 34)%N; [|discriminate].
    destruct (scan_string t) as [[k r1]|] eqn:E; [|discriminate].
    cbn [bind]. destruct (scan_string_wf _ _ _ SCt E) as [A Wk].
    pose proof (skip_ws_scalar _ A) as A'.
    destruct (skip_ws r1) as [|colon r2]; [discriminate|].
    apply scalar_text_cons in A' as [_ A2].
    destruct (colon =? 58)%N; [|discriminate].
    destruct (parse_value f (skip_ws r2)) as [[v r3]|] eqn:E2; [|discriminate].
    cbn [bind]. destruct (IHv _ _ _ (skip_ws_scalar _ A2) E2) as [A3 Wv].
    pose proof (skip_ws_scalar _ A3) as A3'.
    destruct (skip_ws r3) as [|c r4]; [discriminate|].
    apply scalar_text_cons in A3' as [_ A4].
    destruct (c =? 125)%N.
    { intros [= <- <-]. cbn [forallb fst snd]. rewrite Wk, Wv. auto. }
    destruct (c =? 44)%N; [|discriminate].
    destruct (parse_members f (skip_ws r4)) as [[kvs' r5]|] eqn:E3;
      [|discriminate].
    cbn [bind]. intros [= <- <-].
    destruct (IHm _ _ _ (skip_ws_scalar _ A4) E3) as [C D].
    cbn [forallb fst snd]. rewrite Wk, Wv, D. auto.
Qed.

(** Every value [json.loads] returns from decoded UTF-8 is well formed:
    the round-trip laws apply to whatever a PNG can hold. *)
Lemma json_loads_wf (s : str) (v : json) :
  scalar_text s = true -> json_loads s = Ok v -> wf_json v = true.
Proof.
  intros SC. unfold json_loads. destruct (starts_with 0xFEFF s); [discriminate|].
  destruct (parse_value _ _) as [[v0 r]|] eqn:E; [|discriminate].
  cbn [bind]. destruct (skip_ws r); [|discriminate]. intros [= <-].
  apply (proj1 (parse_wf _) _ _ _ (skip_ws_scalar _ SC) E).
Qed.

Lemma decoded_card_wf (bs : bytes) (s : str) (v : json) :
  utf8_decode bs = Ok s -> json_loads s = Ok v -> wf_json v = true.
Proof.
  intros D L. apply (json_loads_wf s v (utf8_decode_scalar _ _ D) L).
Qed.

(** The idempotence law on what [json.loads] can return. *)
Corollary normalize_idempotent_on_parsed (s : str) (x y : json) :
  scalar_text s = true -> json_loads s = Ok x -> normalize x = Ok y ->
  (z <- json_loads (json_dumps y) ;; normalize z) = Ok y.
Proof.
  intros SC L. apply normalize_through_text, (json_loads_wf _ _ SC L).
Qed.

(** * Further properties *)

(** ** Normalization *)

Lemma py_eq_str (v : json) (s : str) : py_eq v (JStr s) = true -> v = JStr s.
Proof.
  destruct v; try discriminate. cbn [py_eq]. intros H.
  apply str_eqb_eq in H. congruence.
Qed.

Lemma fix_list_field_dict (k : str) (d : dict) :
  fix_list_field k (JDict d)
  = Ok (JDict (if list_or_absent k d then d else dict_set k (JList []) d)).
Proof.
  unfold fix_list_field, list_or_absent. cbn [py_get bind].
  destruct (dict_get k d) as [[]|]; reflexivity.
Qed.

Lemma wrap_legacy_dict (d : dict) :
  wrap_legacy (JDict d)
  = Ok (if py_eq (field (u "spec") JNull d) (JStr (u "chara_card_v2"))
        then JDict d
        else JDict [(u "spec", JStr (u "chara_card_v2"));
                    (u "spec_version", JStr (u "2.0"));
                    (u "data", JDict d)]).
Proof.
  unfold wrap_legacy, field. cbn [py_get bind].
  destruct (py_eq _ _); reflexivity.
Qed.

Lemma dict_get_fix_list (k k' : str) (d : dict) :
  dict_get k' (if list_or_absent k d then d else dict_set k (JList []) d)
  = if str_eqb k' k then coerced (dict_get k d) else dict_get k' d.
Proof.
  unfold list_or_absent, coerced. destruct (str_eqb k' k) eqn:E.
  - apply str_eqb_eq in E; subst k'.
    destruct (dict_get k d) as [[]|] eqn:G; rewrite ?dict_get_set_same; auto.
  - destruct (dict_get k d) as [[]|] eqn:G;
      rewrite ?dict_get_set_other by assumption; reflexivity.
Qed.

Lemma normalize_dict (top : dict) :
  normalize (JDict top) =
  (let card := if is_v2 top then JDict top
               else JDict [(u "spec", JStr (u "chara_card_v2"));
                           (u "spec_version", JStr (u "2.0"));
                           (u "data", JDict top)] in
   d <- py_getitem card (u "data") ;;
   d <- fix_list_field (u "tags") d ;;
   d <- fix_list_field (u "alternate_greetings") d ;;
   d <- fix_book d ;;
   py_setitem card (u "data") d).
Proof.
  rewrite normalize_steps, wrap_legacy_dict. reflexivity.
Qed.

(** The record after the two list fields are fixed. *)
Lemma fix_lists (d : dict) :
  exists d2,
    (d1 <- fix_list_field (u "tags") (JDict d) ;;
     fix_list_field (u "alternate_greetings") d1) = Ok (JDict d2) /\
    dict_get (u "tags") d2 = coerced (dict_get (u "tags") d) /\
    dict_get (u "alternate_greetings") d2
      = coerced (dict_get (u "alternate_greetings") d) /\
    forall k, str_eqb k (u "tags") = false ->
              str_eqb k (u "alternate_greetings") = false ->
              dict_get k d2 = dict_get k d.
Proof.
  rewrite fix_list_field_dict. cbn [bind]. rewrite fix_list_field_dict.
  eexists. split; [reflexivity|].
  repeat split.
  - rewrite dict_get_fix_list.
    replace (str_eqb (u "tags") (u "alternate_greetings")) with false
      by reflexivity.
    rewrite dict_get_fix_list, str_eqb_refl. reflexivity.
  - rewrite dict_get_fix_list, str_eqb_refl.
    rewrite dict_get_fix_list.
    replace (str_eqb (u "alternate_greetings") (u "tags")) with false
      by reflexivity.
    reflexivity.
  - intros k H1 H2. rewrite dict_get_fix_list, H2, dict_get_fix_list, H1.
    reflexivity.
Qed.

(** X1.  What a successful normalization returns: a card whose [spec] is
    ["chara_card_v2"] and whose [data] is a mapping, with [tags] and
    [alternate_greetings] lists where present, and every entry of a list
    of book entries a mapping with a list under [secondary_keys]. *)
Theorem normalize_result_shape (x y : json) :
  normalize x = Ok y ->
  exists top d,
    y = JDict top /\
    dict_get (u "spec") top = Some (JStr (u "chara_card_v2")) /\
    dict_get (u "data") top = Some (JDict d) /\
    list_or_absent (u "tags") d = true /\
    list_or_absent (u "alternate_greetings") d = true /\
    forall book l,
      dict_get (u "character_book") d = Some (JDict book) ->
      dict_get (u "entries") book = Some (JList l) ->
      forallb valid_entry l = true.
Proof.
  intros H. apply normalize_gives_normal in H.
  destruct y as [| | | | | |top]; try discriminate.
  cbn [normal_card] in H.
  destruct (dict_get (u "spec") top) as [sp|] eqn:Es; [|discriminate].
  destruct (dict_get (u "data") top) as [[| | | | | |d]|] eqn:Ed; try discriminate.
  apply andb_true_iff in H. destruct H as [H Hb].
  apply andb_true_iff in H. destruct H as [H Ha].
  apply andb_true_iff in H. destruct H as [Hs Ht].
  apply py_eq_str in Hs. subst sp.
  exists top, d. repeat split; auto.
  intros book l Eb El. unfold book_fixed in Hb. rewrite Eb in Hb.
  cbn [py_contains py_getitem] in Hb. unfold dict_has in Hb.
  rewrite El in Hb. exact Hb.
Qed.

Lemma normalize_result_shape_witness :
  exists top d,
    JDict [(u "spec", JStr (u "chara_card_v2"));
           (u "spec_version", JStr (u "2.0"));
           (u "data", JDict [(u "name", JStr (u "Foo"))])] = JDict top /\
    dict_get (u "spec") top = Some (JStr (u "chara_card_v2")) /\
    dict_get (u "data") top = Some (JDict d) /\
    list_or_absent (u "tags") d = true /\
    list_or_absent (u "alternate_greetings") d = true /\
    forall book l,
      dict_get (u "character_book") d = Some (JDict book) ->
      dict_get (u "entries") book = Some (JList l) ->
      forallb valid_entry l = true.
Proof.
  apply (normalize_result_shape (JDict [(u "name", JStr (u "Foo"))])).
  reflexivity.
Defined.

(** X2.  A V2 card is normalized in place: the card keeps every top-level
    field, and its [data] keeps every field except that [tags] and
    [alternate_greetings] are reset to [[]] when they are not lists and
    the character book has its entries fixed. *)
Theorem normalize_v2_fields (top d : dict) (y : json) :
  dict_get (u "spec") top = Some (JStr (u "chara_card_v2")) ->
  dict_get (u "data") top = Some (JDict d) ->
  normalize (JDict top) = Ok y ->
  exists d',
    y = JDict (dict_set (u "data") (JDict d') top) /\
    dict_get (u "tags") d' = coerced (dict_get (u "tags") d) /\
    dict_get (u "alternate_greetings") d'
      = coerced (dict_get (u "alternate_greetings") d) /\
    forall k, str_eqb k (u "tags") = false ->
              str_eqb k (u "alternate_greetings") = false ->
              str_eqb k (u "character_book") = false ->
              dict_get k d' = dict_get k d.
Proof.
  intros Es Ed H. rewrite normalize_dict in H.
  unfold is_v2, field in H. rewrite Es in H.
  cbn [py_eq] in H. rewrite str_eqb_refl in H.
  cbv zeta in H. cbn [py_getitem] in H. rewrite Ed in H. cbn [bind] in H.
  destruct (fix_lists d) as (d2 & E2 & Ht & Ha & Ho).
  destruct (fix_list_field (u "tags") (JDict d)) as [d1|] eqn:E1;
    [|discriminate].
  cbn [bind] in E2, H. rewrite E2 in H. cbn [bind] in H.
  destruct (fix_book (JDict d2)) as [d3|] eqn:E3; [|discriminate].
  cbn [bind] in H.
  destruct (fix_book_out _ _ E3) as (e' & -> & _ & Hk).
  cbn [py_setitem] in H. injection H as <-.
  exists e'. repeat split.
  - rewrite Hk by reflexivity. exact Ht.
  - rewrite Hk by reflexivity. exact Ha.
  - intros k H1 H2 H3. rewrite Hk by exact H3. apply Ho; assumption.
Qed.

Lemma normalize_v2_fields_witness :
  exists d',
    JDict [(u "spec", JStr (u "chara_card_v2"));
           (u "data", JDict [(u "tags", JList [])])]
    = JDict (dict_set (u "data") (JDict d')
               [(u "spec", JStr (u "chara_card_v2"));
                (u "data", JDict [(u "tags", JStr (u "not-an-array"))])]) /\
    dict_get (u "tags") d'
      = coerced (dict_get (u "tags") [(u "tags", JStr (u "not-an-array"))]) /\
    dict_get (u "alternate_greetings") d'
      = coerced (dict_get (u "alternate_greetings")
                   [(u "tags", JStr (u "not-an-array"))]) /\
    forall k, str_eqb k (u "tags") = false ->
              str_eqb k (u "alternate_greetings") = false ->
              str_eqb k (u "character_book") = false ->
              dict_get k d'
              = dict_get k [(u "tags", JStr (u "not-an-array"))].
Proof.
  apply (normalize_v2_fields
           [(u "spec", JStr (u "chara_card_v2"));
            (u "data", JDict [(u "tags", JStr (u "not-an-array"))])]
           [(u "tags", JStr (u "not-an-array"))]); reflexivity.
Defined.

(** X3.  A legacy record (no [spec], or another one) that loads becomes the
    [data] of a fresh card with exactly the fields [spec],
    [spec_version] and [data]: none of the default fields of the empty
    card is added to the record, and the record's own top-level fields
    move into [data] with it. *)
Theorem normalize_legacy_fields (d : dict) (y : json) :
  is_v2 d = false ->
  normalize (JDict d) = Ok y ->
  exists d',
    y = JDict [(u "spec", JStr (u "chara_card_v2"));
               (u "spec_version", JStr (u "2.0"));
               (u "data", JDict d')] /\
    dict_get (u "tags") d' = coerced (dict_get (u "tags") d) /\
    dict_get (u "alternate_greetings") d'
      = coerced (dict_get (u "alternate_greetings") d) /\
    forall k, str_eqb k (u "tags") = false ->
              str_eqb k (u "alternate_greetings") = false ->
              str_eqb k (u "character_book") = false ->
              dict_get k d' = dict_get k d.
Proof.
  intros Ev H. rewrite normalize_dict, Ev in H.
  cbv zeta in H.
  change (py_getitem _ (u "data")) with (Ok (JDict d)) in H.
  cbn [bind] in H.
  destruct (fix_lists d) as (d2 & E2 & Ht & Ha & Ho).
  destruct (fix_list_field (u "tags") (JDict d)) as [d1|] eqn:E1;
    [|discriminate].
  cbn [bind] in E2, H. rewrite E2 in H. cbn [bind] in H.
  destruct (fix_book (JDict d2)) as [d3|] eqn:E3; [|discriminate].
  cbn [bind] in H.
  destruct (fix_book_out _ _ E3) as (e' & -> & _ & Hk).
  cbn [py_setitem] in H. injection H as <-.
  exists e'. repeat split.
  - rewrite Hk by reflexivity. exact Ht.
  - rewrite Hk by reflexivity. exact Ha.
  - intros k H1 H2 H3. rewrite Hk by exact H3. apply Ho; assumption.
Qed.

Lemma normalize_legacy_fields_witness :
  exists d',
    JDict [(u "spec", JStr (u "chara_card_v2"));
           (u "spec_version", JStr (u "2.0"));
           (u "data", JDict [(u "name", JStr (u "Foo"))])]
    = JDict [(u "spec", JStr (u "chara_card_v2"));
             (u "spec_version", JStr (u "2.0"));
             (u "data", JDict d')] /\
    dict_get (u "tags") d'
      = coerced (dict_get (u "tags") [(u "name", JStr (u "Foo"))]) /\
    dict_get (u "alternate_greetings") d'
      = coerced (dict_get (u "alternate_greetings")
                   [(u "name", JStr (u "Foo"))]) /\
    forall k, str_eqb k (u "tags") = false ->
              str_eqb k (u "alternate_greetings") = false ->
              str_eqb k (u "character_book") = false ->
              dict_get k d' = dict_get k [(u "name", JStr (u "Foo"))].
Proof.
  apply (normalize_legacy_fields [(u "name", JStr (u "Foo"))]); reflexivity.
Defined.

Lemma normalize_record (top d : dict) :
  record top d ->
  exists card d2,
    normalize (JDict top)
    = (d3 <- fix_book (JDict d2) ;; py_setitem (JDict card) (u "data") d3) /\
    dict_get (u "character_book") d2 = dict_get (u "character_book") d.
Proof.
  unfold record. intros R. rewrite normalize_dict.
  destruct (fix_lists d) as (d2 & E2 & _ & _ & Ho).
  destruct (fix_list_field (u "tags") (JDict d)) as [d1|] eqn:E1;
    [|discriminate].
  cbn [bind] in E2.
  destruct (is_v2 top).
  - exists top, d2. cbv zeta. cbn [py_getitem]. rewrite R. cbn [bind].
    rewrite E1. cbn [bind]. rewrite E2. cbn [bind].
    split; [reflexivity | apply Ho; reflexivity].
  - subst d. eexists _, d2. cbv zeta.
    change (py_getitem _ (u "data")) with (Ok (JDict top)).
    cbn [bind]. rewrite E1. cbn [bind]. rewrite E2. cbn [bind].
    split; [reflexivity | apply Ho; reflexivity].
Qed.

(** X4.  A record without a character book always loads: neither the wrap of
    a legacy record nor the repair of the two list fields can fail. *)
Theorem normalize_without_book (top d : dict) :
  record top d ->
  dict_get (u "character_book") d = None ->
  exists y, normalize (JDict top) = Ok y.
Proof.
  intros R Hb. destruct (normalize_record top d R) as (card & d2 & -> & E).
  rewrite Hb in E. unfold fix_book. cbn [py_contains bind].
  unfold dict_has. rewrite E. cbn [bind py_setitem]. eexists. reflexivity.
Qed.

Lemma normalize_without_book_witness :
  exists y, normalize (JDict [(u "name", JStr (u "Foo"));
                              (u "tags", JInt 3)]) = Ok y.
Proof.
  apply (normalize_without_book
           [(u "name", JStr (u "Foo")); (u "tags", JInt 3)]
           [(u "name", JStr (u "Foo")); (u "tags", JInt 3)]);
    reflexivity.
Defined.

(** X5.  A document that declares ["chara_card_v2"] is not repaired when its
    [data] is unusable: without the field the lookup raises [KeyError],
    and when the field is not a mapping its [get] raises
    [AttributeError]. *)
Theorem normalize_v2_bad_data (top : dict) :
  is_v2 top = true ->
  (dict_get (u "data") top = None -> normalize (JDict top) = Raise KeyError) /\
  (forall v, dict_get (u "data") top = Some v -> is_dict v = false ->
             normalize (JDict top) = Raise AttributeError).
Proof.
  intros Ev. split.
  - intros Hd. rewrite normalize_dict, Ev. cbv zeta. cbn [py_getitem].
    rewrite Hd. reflexivity.
  - intros v Hd Hv. rewrite normalize_dict, Ev. cbv zeta. cbn [py_getitem].
    rewrite Hd. cbn [bind]. destruct v; try reflexivity; discriminate.
Qed.

Lemma normalize_v2_bad_data_witness :
  normalize (JDict [(u "spec", JStr (u "chara_card_v2"))]) = Raise KeyError.
Proof.
  apply (normalize_v2_bad_data [(u "spec", JStr (u "chara_card_v2"))]);
    reflexivity.
Defined.

(** X6.  A character book that is [null] (or a number, or a boolean) makes
    the load fail: the test ["entries" in book] raises [TypeError]. *)
Theorem normalize_book_not_container (top d : dict) (book : json) :
  record top d ->
  dict_get (u "character_book") d = Some book ->
  not_container book = true ->
  normalize (JDict top) = Raise TypeError.
Proof.
  intros R Hb Hn. destruct (normalize_record top d R) as (card & d2 & -> & E).
  rewrite Hb in E. unfold fix_book. cbn [py_contains bind].
  unfold dict_has. rewrite E. cbn [bind py_getitem]. rewrite E. cbn [bind].
  destruct book; try discriminate; reflexivity.
Qed.

Lemma normalize_book_not_container_witness :
  normalize (JDict [(u "name", JStr (u "Foo"));
                    (u "character_book", JNull)]) = Raise TypeError.
Proof.
  apply (normalize_book_not_container
           [(u "name", JStr (u "Foo")); (u "character_book", JNull)]
           [(u "name", JStr (u "Foo")); (u "character_book", JNull)]
           JNull); reflexivity.
Defined.

Lemma fix_entry_dict (e : dict) : exists e', fix_entry (JDict e) = Ok (JDict e').
Proof.
  unfold fix_entry. cbn [py_get bind].
  destruct (negb _); cbn [py_setitem]; eexists; reflexivity.
Qed.

Lemma mapM_fix_entry_not_mapping (l : list json) :
  forallb is_dict l = false -> mapM fix_entry l = Raise AttributeError.
Proof.
  induction l as [|e l IH]; [discriminate|].
  cbn [forallb mapM]. destruct e as [| | | | | |e]; try reflexivity.
  cbn [is_dict andb]. intros H.
  destruct (fix_entry_dict e) as (e' & ->). cbn [bind].
  rewrite (IH H). reflexivity.
Qed.

Lemma fix_book_entry_not_mapping (d book : dict) (l : list json) :
  dict_get (u "character_book") d = Some (JDict book) ->
  dict_get (u "entries") book = Some (JList l) ->
  forallb is_dict l = false ->
  fix_book (JDict d) = Raise AttributeError.
Proof.
  intros Hb He Hl. unfold fix_book. cbn [py_contains bind].
  unfold dict_has. rewrite Hb. cbn [bind py_getitem]. rewrite Hb.
  cbn [bind py_contains]. unfold dict_has. rewrite He.
  cbn [bind py_getitem]. rewrite He. cbn [bind].
  unfold fix_entries. cbn [py_iter bind].
  rewrite (mapM_fix_entry_not_mapping l Hl). reflexivity.
Qed.

(** X7.  A list of book entries with an item that is not a mapping makes the
    load fail with [AttributeError]: the loop calls [get] on every
    item. *)
Theorem normalize_entry_not_mapping (top d book : dict) (l : list json) :
  record top d ->
  dict_get (u "character_book") d = Some (JDict book) ->
  dict_get (u "entries") book = Some (JList l) ->
  forallb is_dict l = false ->
  normalize (JDict top) = Raise AttributeError.
Proof.
  intros R Hb He Hl.
  destruct (normalize_record top d R) as (card & d2 & -> & E).
  rewrite Hb in E.
  rewrite (fix_book_entry_not_mapping d2 book l E He Hl). reflexivity.
Qed.

Lemma normalize_entry_not_mapping_witness :
  normalize
    (JDict [(u "character_book",
             JDict [(u "entries", JList [lore "x"; JStr (u "y")])])])
  = Raise AttributeError.
Proof.
  apply (normalize_entry_not_mapping
           [(u "character_book",
             JDict [(u "entries", JList [lore "x"; JStr (u "y")])])]
           [(u "character_book",
             JDict [(u "entries", JList [lore "x"; JStr (u "y")])])]
           [(u "entries", JList [lore "x"; JStr (u "y")])]
           [lore "x"; JStr (u "y")]); reflexivity.
Defined.

(** ** The codec *)

(** X8.  Writing validates nothing and reading normalizes: for every value
    [c] (a card or not, floats included), the image written with [c] reads
    back as the normalization of [c], error for error. *)
Theorem read_character_after_write (image : png) (c : json) :
  wf_json c = true ->
  exists out,
    write_character image c = Ok out /\
    read_character out = normalize c.
Proof.
  intros W. destruct (read_after_write image c) as (out & Hw & Hr).
  exists out. split; [exact Hw|].
  rewrite Hr, (json_loads_dumps c W). reflexivity.
Qed.

Lemma read_character_after_write_witness :
  exists out,
    write_character blank_png (JDict [(u "weight", JFloat one_and_a_half)])
    = Ok out /\
    read_character out
    = normalize (JDict [(u "weight", JFloat one_and_a_half)]).
Proof.
  apply (read_character_after_write blank_png
           (JDict [(u "weight", JFloat one_and_a_half)])).
  reflexivity.
Defined.

(** X9.  Whatever [read_character] returns can be saved and loaded again
    without change, into any image. *)
Theorem read_write_read (image target : png) (c : json) :
  read_character image = Ok c ->
  exists out,
    write_character target c = Ok out /\
    read_character out = Ok c.
Proof.
  intros H.
  assert (wf_json c = true /\ normalize c = Ok c) as [W Nc].
  { unfold read_character in H.
    destruct (png_text image (u "chara")) as [t|].
    - destruct (utf8_encode t) as [b1|]; [|discriminate]. cbn [bind] in H.
      destruct (b64decode b1) as [b2|]; [|discriminate]. cbn [bind] in H.
      destruct (utf8_decode b2) as [s|] eqn:Es; [|discriminate].
      cbn [bind] in H.
      destruct (json_loads s) as [x|] eqn:Ex; [|discriminate].
      cbn [bind] in H. split.
      + apply (normalize_wf x c H), (decoded_card_wf b2 s x Es Ex).
      + apply (normalize_idempotent x c H).
    - injection H as <-. split; reflexivity. }
  destruct (read_after_write target c) as (out & Hw & Hr).
  exists out. split; [exact Hw|].
  rewrite Hr, (json_loads_dumps c W). exact Nc.
Qed.

Lemma read_write_read_witness :
  exists out,
    write_character corrupt_png deep_empty_card = Ok out /\
    read_character out = Ok deep_empty_card.
Proof.
  apply (read_write_read blank_png corrupt_png deep_empty_card). reflexivity.
Defined.

(** ** The worldbook filter *)

Lemma dict_get_del_same (k : str) (d : dict) :
  nodup_keys (dict_keys d) = true -> dict_get k (dict_del k d) = None.
Proof.
  induction d as [|[k' v'] d IH]; [reflexivity|].
  cbn [dict_keys map fst nodup_keys dict_del]. intros H.
  apply andb_true_iff in H. destruct H as [H1 H2].
  destruct (str_eqb k k') eqn:E.
  - apply str_eqb_eq in E. subst k'. apply dict_get_absent.
    apply negb_true_iff in H1. exact H1.
  - cbn [dict_get]. rewrite E. apply IH, H2.
Qed.

Lemma dict_get_del_other (k k' : str) (d : dict) :
  str_eqb k' k = false -> dict_get k' (dict_del k d) = dict_get k' d.
Proof.
  intros N. induction d as [|[k0 v0] d IH]; [reflexivity|].
  cbn [dict_del dict_get]. destruct (str_eqb k k0) eqn:E.
  - apply str_eqb_eq in E. subst k0. rewrite N. reflexivity.
  - cbn [dict_get]. rewrite IH. reflexivity.
Qed.

Lemma strip_entry_mapping (e : dict) :
  strip_entry (JDict e)
  = Ok (JDict (if legacy_duplicate e then dict_del (u "entry") e else e)).
Proof.
  unfold strip_entry, legacy_duplicate, field. cbn [py_contains bind py_get].
  destruct (dict_has (u "entry") e) eqn:E; [|reflexivity].
  cbn [andb]. destruct (py_eq _ _); [|reflexivity].
  cbn [py_delitem]. rewrite E. reflexivity.
Qed.

Lemma strip_entry_other (e e' : json) :
  is_dict e = false -> strip_entry e = Ok e' -> e' = e.
Proof.
  unfold strip_entry. intros D H.
  destruct (py_contains (u "entry") e) as [[]|]; cbn [bind] in H.
  - destruct e; try discriminate.
  - congruence.
  - discriminate.
Qed.

Lemma legacy_duplicate_del (e : dict) :
  nodup_keys (dict_keys e) = true ->
  legacy_duplicate (dict_del (u "entry") e) = false.
Proof.
  intros H. unfold legacy_duplicate, dict_has.
  rewrite (dict_get_del_same _ _ H). reflexivity.
Qed.

Lemma strip_entry_stripped (e e' : json) :
  wf_json e = true -> strip_entry e = Ok e' ->
  stripped e e' /\ strip_entry e' = Ok e'.
Proof.
  intros W H. destruct (is_dict e) eqn:D.
  - destruct e as [| | | | | |a]; try discriminate.
    rewrite strip_entry_mapping in H. injection H as <-.
    cbn [wf_json] in W. apply andb_true_iff in W. destruct W as [W _].
    cbn [stripped]. destruct (legacy_duplicate a) eqn:L.
    + split.
      * eexists. split; [reflexivity|]. split; [|split].
        -- apply legacy_duplicate_del, W.
        -- discriminate.
        -- intros k Hk. apply dict_get_del_other, Hk.
      * rewrite strip_entry_mapping, (legacy_duplicate_del _ W). reflexivity.
    + split.
      * exists a. repeat split; auto.
      * rewrite strip_entry_mapping, L. reflexivity.
  - pose proof (strip_entry_other _ _ D H) as ->. split; [|exact H].
    destruct e; try reflexivity; discriminate.
Qed.

Lemma strip_loop_stripped (l : list json) :
  forallb wf_json l = true ->
  forall l', strip_loop l = (l', Ok tt) ->
    Forall2 stripped l l' /\ strip_loop l' = (l', Ok tt).
Proof.
  induction l as [|e l IH]; cbn [forallb strip_loop]; intros W l' H.
  - injection H as <-. split; [constructor | reflexivity].
  - apply andb_true_iff in W. destruct W as [We Wl].
    destruct (strip_entry e) as [e'|] eqn:E; [|discriminate].
    destruct (strip_loop l) as [l'' r] eqn:L.
    injection H as <- ->.
    destruct (IH Wl l'' eq_refl) as [F I].
    destruct (strip_entry_stripped e e' We E) as [S1 S2].
    split; [constructor; assumption|].
    cbn [strip_loop]. rewrite S2, I. reflexivity.
Qed.

Lemma wf_dict_values (m : dict) :
  wf_json (JDict m) = true -> forallb wf_json (dict_values m) = true.
Proof.
  cbn [wf_json]. intros H. apply andb_true_iff in H. destruct H as [_ H].
  induction m as [|[k v] m IH]; [reflexivity|].
  cbn [forallb dict_values map snd fst] in *.
  apply andb_true_iff in H. destruct H as [H1 H2].
  apply andb_true_iff in H1. destruct H1 as [_ H1].
  rewrite H1. apply IH, H2.
Qed.



(** X11.  Filtering is idempotent on worldbook documents: what
    [process_worldbook] returns for a document with ["entries"] is
    returned unchanged when it is filtered again. *)
Theorem process_worldbook_idempotent (data r : json) :
  wf_json data = true ->
  has_entries data = true ->
  snd (process_worldbook data) = Ok r ->
  process_worldbook r = (r, Ok r).
Proof.
  intros W He H. destruct data as [| | | | | |d]; try discriminate.
  cbn [has_entries] in He. unfold dict_has in He.
  destruct (dict_get (u "entries") d) as [entries|] eqn:E; [|discriminate].
  cbn [process_worldbook] in H. rewrite E in H.
  pose proof (wf_dict_get _ _ _ W E) as We.
  assert (forall l d1,
            forallb wf_json l = true ->
            snd (let (entries2, r0) := strip_entries (JList l) in
                 (JDict (dict_set (u "entries") entries2 d1),
                  _ <- r0 ;; Ok (JDict (dict_set (u "entries") entries2 d1))))
            = Ok r ->
            process_worldbook r = (r, Ok r)) as Hlist.
  { intros l d1 Wl H1. cbn [strip_entries] in H1.
    destruct (strip_loop l) as [l' res] eqn:L. cbn [snd] in H1.
    destruct res as [[]|]; [|discriminate]. cbn [bind] in H1.
    injection H1 as <-.
    cbn [process_worldbook]. rewrite dict_get_set_same.
    cbn [strip_entries].
    rewrite (proj2 (strip_loop_stripped l Wl l' L)).
    cbn [bind]. rewrite dict_set_set. reflexivity. }
  destruct entries as [| | | |s|l|m].
  - discriminate.
  - discriminate.
  - discriminate.
  - discriminate.
  - cbn [strip_entries snd] in H.
    destruct (x <- py_iter (JStr s) ;; _ <- mapM strip_entry x ;; Ok tt)
      as [[]|] eqn:R; [|discriminate].
    cbn [bind] in H. injection H as <-.
    cbn [process_worldbook]. rewrite dict_get_set_same.
    cbn [strip_entries]. rewrite R. cbn [bind].
    rewrite dict_set_set. reflexivity.
  - apply (Hlist l d We H).
  - apply (Hlist (dict_values m) _ (wf_dict_values m We) H).
Qed.

Lemma process_worldbook_idempotent_witness :
  process_worldbook
    (JDict [(u "entries",
             JList [JDict [(u "content", JStr (u "x"))];
                    JDict [(u "entry", JStr (u "x")); (u "content", JStr (u "y"))]])])
  = (JDict [(u "entries",
             JList [JDict [(u "content", JStr (u "x"))];
                    JDict [(u "entry", JStr (u "x")); (u "content", JStr (u "y"))]])],
     Ok (JDict [(u "entries",
             JList [JDict [(u "content", JStr (u "x"))];
                    JDict [(u "entry", JStr (u "x")); (u "content", JStr (u "y"))]])])).
Proof.
  apply (process_worldbook_idempotent legacy_worldbook); reflexivity.
Defined.

(** ** The merge *)

(** The merge in closed form when nothing raises: the worldbook's
    entries can be iterated and both extensions are mappings. *)
Lemma import_worldbook_lists
    (b w : dict) (mine theirs : list json) (entries : json) (eb ew : dict) :
  field (u "entries") (JList []) b = JList mine ->
  dict_get (u "entries") w = Some entries ->
  py_iter entries = Ok theirs ->
  field (u "extensions") (JDict []) b = JDict eb ->
  field (u "extensions") (JDict []) w = JDict ew ->
  import_worldbook (JDict b) (JDict w) =
  (JDict (dict_set (u "extensions") (JDict (dict_union eb ew))
            (dict_set (u "entries") (JList (mine ++ theirs))
               (adopt (u "name") (adopt (u "description") b w) w))),
   Ok (JDict (dict_set (u "extensions") (JDict (dict_union eb ew))
            (dict_set (u "entries") (JList (mine ++ theirs))
               (adopt (u "name") (adopt (u "description") b w) w))))).
Proof.
  intros Hmine Htheirs Hit Heb Hew.
  rewrite import_worldbook_dicts. cbv zeta.
  rewrite Htheirs, Hew.
  rewrite !field_adopt_other by reflexivity. rewrite Hmine.
  cbn [py_iadd]. rewrite Hit. cbn [bind].
  assert (X : field (u "extensions") (JDict [])
                (dict_set (u "entries") (JList (mine ++ theirs))
                   (dict_set (u "entries") (JList mine)
                      (adopt (u "name") (adopt (u "description") b w) w)))
              = JDict eb).
  { unfold field. rewrite !dict_get_set_other by reflexivity.
    rewrite !dict_get_adopt_other by reflexivity. exact Heb. }
  rewrite X. cbn [py_or]. rewrite dict_set_set. reflexivity.
Qed.

Lemma adopts_again (k : str) (b w : dict) : adopts k (adopt k b w) w = false.
Proof.
  unfold adopt. destruct (adopts k b w) eqn:A; [|exact A].
  unfold adopts in *. apply andb_true_iff in A. destruct A as [A _].
  unfold field at 2. rewrite dict_get_set_same.
  apply negb_true_iff in A. rewrite A. reflexivity.
Qed.

Lemma adopts_ext (k : str) (b b' w : dict) :
  dict_get k b' = dict_get k b -> adopts k b' w = adopts k b w.
Proof. unfold adopts, field. intros ->. reflexivity. Qed.

(** X12.  The merge touches four fields of the book and no other: whatever
    the outcome, every field but [description], [name], [entries] and
    [extensions] is as it was. *)
Theorem import_worldbook_other_fields (b w : dict) :
  exists b',
    fst (import_worldbook (JDict b) (JDict w)) = JDict b' /\
    forall k, str_eqb k (u "description") = false ->
              str_eqb k (u "name") = false ->
              str_eqb k (u "entries") = false ->
              str_eqb k (u "extensions") = false ->
              dict_get k b' = dict_get k b.
Proof.
  destruct (import_worldbook_frame b w) as (b' & E & F).
  exists b'. split; [exact E|].
  intros k N1 N2 N3 N4. rewrite (F k N3 N4).
  rewrite !dict_get_adopt_other by assumption. reflexivity.
Qed.

(** X13.  Importing the same worldbook a second time appends its entries a
    second time and changes nothing else outside [extensions]. *)
Theorem import_worldbook_twice
    (b w : dict) (mine theirs : list json) (eb ew : dict) :
  field (u "entries") (JList []) b = JList mine ->
  dict_get (u "entries") w = Some (JList theirs) ->
  field (u "extensions") (JDict []) b = JDict eb ->
  field (u "extensions") (JDict []) w = JDict ew ->
  exists b1 b2,
    import_worldbook (JDict b) (JDict w) = (JDict b1, Ok (JDict b1)) /\
    import_worldbook (JDict b1) (JDict w) = (JDict b2, Ok (JDict b2)) /\
    dict_get (u "entries") b2 = Some (JList (mine ++ theirs ++ theirs)) /\
    forall k, str_eqb k (u "entries") = false ->
              str_eqb k (u "extensions") = false ->
              dict_get k b2 = dict_get k b1.
Proof.
  intros Hmine Htheirs Heb Hew.
  rewrite (import_worldbook_lists b w mine theirs (JList theirs) eb ew)
    by (assumption || reflexivity).
  set (b0 := adopt (u "name") (adopt (u "description") b w) w).
  set (b1 := dict_set (u "extensions") (JDict (dict_union eb ew))
               (dict_set (u "entries") (JList (mine ++ theirs)) b0)).
  assert (G : forall k, str_eqb k (u "entries") = false ->
                        str_eqb k (u "extensions") = false ->
                        dict_get k b1 = dict_get k b0).
  { intros k N1 N2. unfold b1. rewrite !dict_get_set_other by assumption.
    reflexivity. }
  assert (A1 : adopts (u "description") b1 w = false).
  { rewrite (adopts_ext _ b0 b1 w) by (apply G; reflexivity).
    unfold b0. rewrite adopts_adopt_other by reflexivity.
    apply adopts_again. }
  assert (A2 : adopts (u "name") b1 w = false).
  { rewrite (adopts_ext _ b0 b1 w) by (apply G; reflexivity).
    unfold b0. apply adopts_again. }
  assert (B : adopt (u "name") (adopt (u "description") b1 w) w = b1).
  { unfold adopt at 2. rewrite A1. unfold adopt. rewrite A2. reflexivity. }
  exists b1. eexists. split; [reflexivity|]. split.
  - apply (import_worldbook_lists b1 w (mine ++ theirs) theirs
             (JList theirs) (dict_union eb ew) ew).
    + unfold field, b1. rewrite dict_get_set_other by reflexivity.
      rewrite dict_get_set_same. reflexivity.
    + exact Htheirs.
    + reflexivity.
    + unfold field, b1. rewrite dict_get_set_same. reflexivity.
    + exact Hew.
  - rewrite B. split.
    + rewrite dict_get_set_other by reflexivity.
      rewrite dict_get_set_same, <- app_assoc. reflexivity.
    + intros k N1 N2. rewrite !dict_get_set_other by assumption.
      reflexivity.
Qed.

Lemma import_worldbook_twice_witness :
  exists b1 b2,
    import_worldbook book_E1 worldbook_E2_E3 = (JDict b1, Ok (JDict b1)) /\
    import_worldbook (JDict b1) worldbook_E2_E3 = (JDict b2, Ok (JDict b2)) /\
    dict_get (u "entries") b2
      = Some (JList ([lore "E1"] ++ [lore "E2"; lore "E3"]
                       ++ [lore "E2"; lore "E3"])) /\
    forall k, str_eqb k (u "entries") = false ->
              str_eqb k (u "extensions") = false ->
              dict_get k b2 = dict_get k b1.
Proof.
  apply (import_worldbook_twice _ _ [lore "E1"] [lore "E2"; lore "E3"]
           [(u "a", JInt 1)] [(u "a", JInt 2); (u "b", JInt 3)]);
    reflexivity.
Defined.

(** X14.  A failing merge is not undone: when the worldbook's [extensions] is
    not a mapping the call raises [TypeError] with the worldbook's
    entries already appended to the book's. *)
Theorem import_worldbook_bad_extensions
    (b w : dict) (mine theirs : list json) (eb : dict) (x : json) :
  field (u "entries") (JList []) b = JList mine ->
  dict_get (u "entries") w = Some (JList theirs) ->
  field (u "extensions") (JDict []) b = JDict eb ->
  field (u "extensions") (JDict []) w = x ->
  is_dict x = false ->
  exists b',
    import_worldbook (JDict b) (JDict w) = (JDict b', Raise TypeError) /\
    dict_get (u "entries") b' = Some (JList (mine ++ theirs)).
Proof.
  intros Hmine Htheirs Heb Hew Hx.
  rewrite import_worldbook_dicts. cbv zeta.
  rewrite Htheirs, Hew.
  rewrite !field_adopt_other by reflexivity. rewrite Hmine.
  cbn [py_iadd py_iter bind].
  assert (X : field (u "extensions") (JDict [])
                (dict_set (u "entries") (JList (mine ++ theirs))
                   (dict_set (u "entries") (JList mine)
                      (adopt (u "name") (adopt (u "description") b w) w)))
              = JDict eb).
  { unfold field. rewrite !dict_get_set_other by reflexivity.
    rewrite !dict_get_adopt_other by reflexivity. exact Heb. }
  rewrite X.
  assert (Y : py_or (JDict eb) x = Raise TypeError).
  { destruct x; try reflexivity; discriminate. }
  rewrite Y. eexists. split; [reflexivity|]. apply dict_get_set_same.
Qed.

Lemma import_worldbook_bad_extensions_witness :
  exists b',
    import_worldbook book_E1
      (JDict [(u "extensions", JList []); (u "entries", JList [lore "E2"])])
    = (JDict b', Raise TypeError) /\
    dict_get (u "entries") b' = Some (JList ([lore "E1"] ++ [lore "E2"])).
Proof.
  apply (import_worldbook_bad_extensions _ _ [lore "E1"] [lore "E2"]
           [(u "a", JInt 1)] (JList [])); reflexivity.
Defined.

(** ** The import button *)

Lemma import_worldbook_clicked_dicts (top d b w : dict) (file : json) :
  dict_get (u "data") top = Some (JDict d) ->
  field (u "character_book") (JDict []) d = JDict b ->
  snd (process_worldbook file) = Ok (JDict w) ->
  import_worldbook_clicked (JDict top) file =
  (let (book, r) := import_worldbook (JDict b) (JDict w) in
   (JDict (dict_set (u "data")
             (JDict (dict_set (u "character_book") book d)) top),
    _ <- r ;; Ok tt)).
Proof.
  intros Hd Hb Hw. unfold import_worldbook_clicked. rewrite Hw.
  cbn [py_getitem]. rewrite Hd. cbn [bind py_get].
  unfold field in Hb. rewrite Hb. reflexivity.
Qed.




Lemma process_worldbook_card (ftop fd : dict) (book : json) :
  dict_get (u "entries") ftop = None ->
  dict_get (u "spec") ftop = Some (JStr (u "chara_card_v2")) ->
  dict_get (u "data") ftop = Some (JDict fd) ->
  dict_get (u "character_book") fd = Some book ->
  process_worldbook (JDict ftop) = (JDict ftop, Ok book).
Proof.
  intros He Hs Hd Hb. cbn [process_worldbook]. rewrite He.
  unfold card_fallback, dict_has. rewrite Hs, Hd.
  cbn [py_getitem]. rewrite Hs, Hd. cbn [bind py_eq].
  rewrite str_eqb_refl. cbn [andb py_contains bind].
  unfold dict_has. rewrite Hb. cbn [py_getitem]. rewrite Hb. reflexivity.
Qed.

(** X16.  Importing from a whole card takes the card's book as it is stored,
    without the conversions applied to a worldbook file.  When that
    book keeps its entries in a keyed mapping, the merge appends the
    mapping's keys, as strings, to the entries; if there is such a key,
    the card so produced no longer loads. *)
Theorem import_card_with_mapping_entries
    (top d b ftop fd w m : dict) (mine : list json) (eb ew : dict) :
  dict_get (u "data") top = Some (JDict d) ->
  field (u "character_book") (JDict []) d = JDict b ->
  field (u "entries") (JList []) b = JList mine ->
  field (u "extensions") (JDict []) b = JDict eb ->
  dict_get (u "entries") ftop = None ->
  dict_get (u "spec") ftop = Some (JStr (u "chara_card_v2")) ->
  dict_get (u "data") ftop = Some (JDict fd) ->
  dict_get (u "character_book") fd = Some (JDict w) ->
  dict_get (u "entries") w = Some (JDict m) ->
  field (u "extensions") (JDict []) w = JDict ew ->
  exists b' card,
    import_worldbook_clicked (JDict top) (JDict ftop) = (JDict card, Ok tt) /\
    card = dict_set (u "data")
             (JDict (dict_set (u "character_book") (JDict b') d)) top /\
    dict_get (u "entries") b'
      = Some (JList (mine ++ map JStr (dict_keys m))) /\
    (m <> [] -> is_v2 top = true ->
     normalize (JDict card) = Raise AttributeError).
Proof.
  intros Hd Hb Hmine Heb Fe Fs Fd Fb We Hew.
  pose proof (process_worldbook_card ftop fd (JDict w) Fe Fs Fd Fb) as P.
  apply (f_equal snd) in P. cbn [snd] in P.
  rewrite (import_worldbook_clicked_dicts top d b w _ Hd Hb P).
  rewrite (import_worldbook_lists b w mine (map JStr (dict_keys m))
             (JDict m) eb ew); auto.
  cbv zeta. cbn [bind]. eexists. eexists. split; [reflexivity|].
  split; [reflexivity|]. split.
  - rewrite dict_get_set_other by reflexivity. apply dict_get_set_same.
  - intros Hm Hv.
    match goal with
    | |- normalize (JDict ?c) = _ =>
        assert (R : record c (dict_set (u "character_book")
                     (JDict (dict_set (u "extensions") (JDict (dict_union eb ew))
                        (dict_set (u "entries")
                           (JList (mine ++ map JStr (dict_keys m)))
                           (adopt (u "name") (adopt (u "description") b w) w))))
                     d))
    end.
    { unfold record.
      match goal with
      | |- if is_v2 ?c then _ else _ =>
          assert (V : is_v2 c = true);
          [ unfold is_v2, field;
            rewrite dict_get_set_other by reflexivity; exact Hv
          | rewrite V ]
      end.
      apply dict_get_set_same. }
    destruct (normalize_record _ _ R) as (card & d2 & -> & E).
    rewrite dict_get_set_same in E.
    rewrite (fix_book_entry_not_mapping d2 _
               (mine ++ map JStr (dict_keys m)) E); [reflexivity| |].
    + rewrite dict_get_set_other by reflexivity. apply dict_get_set_same.
    + rewrite forallb_app. destruct m as [|[k v] m]; [congruence|].
      cbn. apply andb_false_r.
Qed.

Lemma import_card_with_mapping_entries_witness :
  exists b' card,
    import_worldbook_clicked
      (JDict [(u "spec", JStr (u "chara_card_v2"));
              (u "data", JDict [(u "name", JStr (u "Foo"))])])
      (card_with_mapping_entries [(u "0", lore "x")])
    = (JDict card, Ok tt) /\
    card = dict_set (u "data")
             (JDict (dict_set (u "character_book") (JDict b')
                       [(u "name", JStr (u "Foo"))]))
             [(u "spec", JStr (u "chara_card_v2"));
              (u "data", JDict [(u "name", JStr (u "Foo"))])] /\
    dict_get (u "entries") b'
      = Some (JList ([] ++ map JStr (dict_keys [(u "0", lore "x")]))) /\
    ([(u "0", lore "x")] <> [] ->
     is_v2 [(u "spec", JStr (u "chara_card_v2"));
            (u "data", JDict [(u "name", JStr (u "Foo"))])] = true ->
     normalize (JDict card) = Raise AttributeError).
Proof.
  apply (import_card_with_mapping_entries
           [(u "spec", JStr (u "chara_card_v2"));
            (u "data", JDict [(u "name", JStr (u "Foo"))])]
           [(u "name", JStr (u "Foo"))] []
           [(u "spec", JStr (u "chara_card_v2"));
            (u "spec_version", JStr (u "2.0"));
            (u "data", JDict [
               (u "name", JStr (u "Foo"));
               (u "character_book",
                JDict [(u "entries", JDict [(u "0", lore "x")])])])]
           [(u "name", JStr (u "Foo"));
            (u "character_book",
             JDict [(u "entries", JDict [(u "0", lore "x")])])]
           [(u "entries", JDict [(u "0", lore "x")])]
           [(u "0", lore "x")] [] [] []); reflexivity.
Defined.

(** X17.  A failed import still changes the card: when the worldbook has no
    ["entries"] (a card whose book lacks them), the click raises
    [KeyError] and a card that had no character book is left with one,
    whose entries are the empty list. *)
Theorem import_worldbook_clicked_key_error
    (top d w : dict) (file : json) :
  dict_get (u "data") top = Some (JDict d) ->
  dict_get (u "character_book") d = None ->
  snd (process_worldbook file) = Ok (JDict w) ->
  dict_get (u "entries") w = None ->
  exists b',
    import_worldbook_clicked (JDict top) file
    = (JDict (dict_set (u "data")
                (JDict (dict_set (u "character_book") (JDict b') d)) top),
       Raise KeyError) /\
    dict_get (u "entries") b' = Some (JList []).
Proof.
  intros Hd Hb P He.
  rewrite (import_worldbook_clicked_dicts top d [] w file Hd); auto.
  2:{ unfold field. rewrite Hb. reflexivity. }
  rewrite import_worldbook_dicts. cbv zeta. rewrite He.
  eexists. split; [reflexivity|].
  rewrite dict_get_set_same. unfold field.
  rewrite !dict_get_adopt_other by reflexivity. reflexivity.
Qed.

Lemma import_worldbook_clicked_key_error_witness :
  exists b',
    import_worldbook_clicked
      (JDict [(u "spec", JStr (u "chara_card_v2"));
              (u "data", JDict [(u "name", JStr (u "Foo"))])])
      card_with_empty_book
    = (JDict (dict_set (u "data")
                (JDict (dict_set (u "character_book") (JDict b')
                          [(u "name", JStr (u "Foo"))]))
                [(u "spec", JStr (u "chara_card_v2"));
                 (u "data", JDict [(u "name", JStr (u "Foo"))])]),
       Raise KeyError) /\
    dict_get (u "entries") b' = Some (JList []).
Proof.
  apply (import_worldbook_clicked_key_error
           [(u "spec", JStr (u "chara_card_v2"));
            (u "data", JDict [(u "name", JStr (u "Foo"))])]
           [(u "name", JStr (u "Foo"))] [] card_with_empty_book);
    reflexivity.
Defined.

(** ** The form helpers *)

Lemma nodup_keys_del (k : str) (d : dict) :
  nodup_keys (dict_keys d) = true ->
  nodup_keys (dict_keys (dict_del k d)) = true /\
  forall k', existsb (str_eqb k') (dict_keys d) = false ->
             existsb (str_eqb k') (dict_keys (dict_del k d)) = false.
Proof.
  induction d as [|[k0 v0] d IH]; [intros _; split; auto|].
  cbn [dict_keys map fst nodup_keys dict_del]. intros H.
  apply andb_true_iff in H. destruct H as [H1 H2].
  destruct (IH H2) as [I1 I2].
  destruct (str_eqb k k0).
  - split; [exact H2|]. intros k' H. cbn [existsb] in H.
    apply orb_false_iff in H. apply H.
  - cbn [dict_keys map fst nodup_keys existsb]. split.
    + apply andb_true_iff. split; [|exact I1].
      apply negb_true_iff. apply I2. apply negb_true_iff, H1.
    + intros k' H. cbn [existsb] in H. apply orb_false_iff in H.
      destruct H as [Ha Hb]. rewrite Ha. apply I2, Hb.
Qed.

Lemma updateOrDeleteKey_dict (key : str) (value nullvalue : json) (d : dict) :
  updateOrDeleteKey key value nullvalue (JDict d) =
  (JDict (if py_eq value nullvalue
          then (if dict_has key d then dict_del key d else d)
          else dict_set key value d),
   Ok tt).
Proof.
  unfold updateOrDeleteKey. destruct (py_eq value nullvalue); cbn [negb].
  - unfold st_bind, read. cbn [py_contains].
    destruct (dict_has key d) eqn:Eh; [|reflexivity].
    unfold remove. cbn [py_delitem]. rewrite Eh. reflexivity.
  - reflexivity.
Qed.

Lemma dict_get_cleared (key : str) (d : dict) :
  nodup_keys (dict_keys d) = true ->
  dict_get key (if dict_has key d then dict_del key d else d) = None.
Proof.
  intros Nd. destruct (dict_has key d) eqn:Eh.
  - apply dict_get_del_same, Nd.
  - unfold dict_has in Eh. destruct (dict_get key d); congruence.
Qed.

(** X18.  [updateOrDeleteKey] never raises on a mapping.  Afterwards the key
    holds [value] when [value != nullvalue] and is absent otherwise,
    and every other key is as it was. *)
Theorem updateOrDeleteKey_lookup (key : str) (value nullvalue : json) (d : dict) :
  nodup_keys (dict_keys d) = true ->
  exists d',
    updateOrDeleteKey key value nullvalue (JDict d) = (JDict d', Ok tt) /\
    nodup_keys (dict_keys d') = true /\
    dict_get key d' = (if py_eq value nullvalue then None else Some value) /\
    forall k, str_eqb k key = false -> dict_get k d' = dict_get k d.
Proof.
  intros Nd. rewrite updateOrDeleteKey_dict. eexists. split; [reflexivity|].
  destruct (py_eq value nullvalue).
  - split; [|split].
    + destruct (dict_has key d); [apply nodup_keys_del|]; exact Nd.
    + apply dict_get_cleared, Nd.
    + intros k Hk. destruct (dict_has key d); [|reflexivity].
      apply dict_get_del_other, Hk.
  - split; [|split].
    + rewrite (proj1 (nodup_keys_set key value d)). exact Nd.
    + apply dict_get_set_same.
    + intros k Hk. apply dict_get_set_other, Hk.
Qed.

Lemma updateOrDeleteKey_lookup_witness :
  exists d',
    updateOrDeleteKey (u "name") (JStr []) (JStr [])
      (JDict [(u "name", JStr (u "Lore")); (u "entries", JList [])])
    = (JDict d', Ok tt) /\
    nodup_keys (dict_keys d') = true /\
    dict_get (u "name") d'
      = (if py_eq (JStr []) (JStr []) then None else Some (JStr [])) /\
    forall k, str_eqb k (u "name") = false ->
              dict_get k d'
              = dict_get k [(u "name", JStr (u "Lore")); (u "entries", JList [])].
Proof.
  apply (updateOrDeleteKey_lookup (u "name") (JStr []) (JStr [])
           [(u "name", JStr (u "Lore")); (u "entries", JList [])]).
  reflexivity.
Defined.

(** X19.  A check box survives the trip through the record: storing its state
    with [updateOrDeleteKey] and showing the stored value again gives the
    same state; the undetermined state is stored as an absent key. *)
Theorem tristate_stored_and_shown (key : str) (state : CheckState) (d : dict) :
  nodup_keys (dict_keys d) = true ->
  exists d',
    updateOrDeleteKey key (convertTristateToBool state) JNull (JDict d)
    = (JDict d', Ok tt) /\
    convertBoolToTristate (field key JNull d') = state /\
    (state = PartiallyChecked -> dict_get key d' = None).
Proof.
  intros Nd. rewrite updateOrDeleteKey_dict. eexists. split; [reflexivity|].
  unfold field. destruct state; cbn [convertTristateToBool py_eq].
  - rewrite dict_get_set_same. split; [reflexivity | discriminate].
  - pose proof (dict_get_cleared key d Nd) as G.
    split; [|intros _; exact G].
    match goal with
    | |- context [dict_get key ?x] =>
        replace (dict_get key x) with (@None json) by (symmetry; exact G)
    end.
    reflexivity.
  - rewrite dict_get_set_same. split; [reflexivity | discriminate].
Qed.

Lemma tristate_stored_and_shown_witness :
  exists d',
    updateOrDeleteKey (u "selective") (convertTristateToBool PartiallyChecked)
      JNull (JDict [(u "selective", JBool true)])
    = (JDict d', Ok tt) /\
    convertBoolToTristate (field (u "selective") JNull d') = PartiallyChecked /\
    (PartiallyChecked = PartiallyChecked -> dict_get (u "selective") d' = None).
Proof.
  apply (tristate_stored_and_shown (u "selective") PartiallyChecked
           [(u "selective", JBool true)]).
  reflexivity.
Defined.

(** X20.  The other direction loses values: showing a stored flag in its check
    box and storing the box again keeps [True] and [False], and deletes
    a key that held anything else (a number, a string, [null]). *)
Theorem tristate_shown_and_stored (key : str) (v : json) (d : dict) :
  nodup_keys (dict_keys d) = true ->
  dict_get key d = Some v ->
  exists d',
    updateOrDeleteKey key (convertTristateToBool (convertBoolToTristate v))
      JNull (JDict d)
    = (JDict d', Ok tt) /\
    dict_get key d' = match v with JBool _ => Some v | _ => None end /\
    forall k, str_eqb k key = false -> dict_get k d' = dict_get k d.
Proof.
  intros Nd Hv. rewrite updateOrDeleteKey_dict. eexists.
  split; [reflexivity|].
  assert (Hh : dict_has key d = true) by (unfold dict_has; rewrite Hv; auto).
  destruct v as [|[]| | | | |];
    cbn [convertBoolToTristate convertTristateToBool py_eq]; rewrite ?Hh;
    (split;
     [ first [apply dict_get_set_same | apply dict_get_del_same, Nd]
     | intros k Hk;
       first [apply dict_get_set_other, Hk | apply dict_get_del_other, Hk] ]).
Qed.

Lemma tristate_shown_and_stored_witness :
  exists d',
    updateOrDeleteKey (u "constant")
      (convertTristateToBool (convertBoolToTristate (JInt 1)))
      JNull (JDict [(u "constant", JInt 1)])
    = (JDict d', Ok tt) /\
    dict_get (u "constant") d' = None /\
    forall k, str_eqb k (u "constant") = false ->
              dict_get k d' = dict_get k [(u "constant", JInt 1)].
Proof.
  apply (tristate_shown_and_stored (u "constant") (JInt 1)
           [(u "constant", JInt 1)]); reflexivity.
Defined.

Lemma scalar_text_wf_str (s : str) : scalar_text s = true -> wf_str s = true.
Proof.
  induction s as [|c s IH]; [reflexivity|].
  intros H. apply scalar_text_cons in H. destruct H as [Hc Hs].
  destruct (scalar_facts c Hc) as (H1 & H2 & _).
  cbn [wf_str]. rewrite H2. cbn [andb negb].
  apply N.ltb_lt in H1. rewrite H1. cbn [andb]. apply IH, Hs.
Qed.

(** X21.  The extensions box shows [json.dumps(extensions)] and stores
    [safeJSONLoads(text)]: a value that is shown and stored again
    without an edit is stored as it was, floats included. *)
Theorem safeJSONLoads_json_dumps (v : json) :
  wf_json v = true -> safeJSONLoads (json_dumps v) = v.
Proof.
  intros W. unfold safeJSONLoads. rewrite (json_loads_dumps v W). reflexivity.
Qed.

Lemma safeJSONLoads_json_dumps_witness :
  safeJSONLoads
    (json_dumps (JDict [(u "depth", JInt 4);
                        (u "weight", JFloat (one_and_a_half))]))
  = JDict [(u "depth", JInt 4);
           (u "weight", JFloat (one_and_a_half))].
Proof.
  apply (safeJSONLoads_json_dumps
           (JDict [(u "depth", JInt 4);
                   (u "weight", JFloat (one_and_a_half))])).
  reflexivity.
Defined.

(** X22.  Whatever [safeJSONLoads] stores for a text, parsed JSON or the text
    itself when [json.loads] raises on it, is stable: shown with
    [json.dumps] and stored again, it is the same value. *)
Theorem safeJSONLoads_stable (s : str) :
  scalar_text s = true ->
  safeJSONLoads (json_dumps (safeJSONLoads s)) = safeJSONLoads s.
Proof.
  intros Hs.
  assert (W : wf_json (safeJSONLoads s) = true).
  { unfold safeJSONLoads. destruct (json_loads s) as [x|e] eqn:E.
    - apply (json_loads_wf s x Hs E).
    - apply (scalar_text_wf_str s Hs). }
  revert W. generalize (safeJSONLoads s). intros v W.
  unfold safeJSONLoads. rewrite (json_loads_dumps v W). reflexivity.
Qed.

Lemma safeJSONLoads_stable_witness :
  safeJSONLoads (json_dumps (safeJSONLoads (u "{depth: 4")))
  = safeJSONLoads (u "{depth: 4").
Proof.
  apply (safeJSONLoads_stable (u "{depth: 4")). reflexivity.
Defined.

(** ** The comma-separated boxes *)

Lemma lstrip_head (s : str) :
  match lstrip s with [] => True | c :: _ => isspace c = false end.
Proof.
  induction s as [|c s IH]; cbn [lstrip]; [exact I|].
  destruct (isspace c) eqn:E; [exact IH | exact E].
Qed.

Lemma lstrip_fixed (c : N) (s : str) :
  isspace c = false -> lstrip (c :: s) = c :: s.
Proof. intros H. cbn [lstrip]. rewrite H. reflexivity. Qed.

Lemma lstrip_suffix (s : str) : exists pre, s = pre ++ lstrip s.
Proof.
  induction s as [|c s [pre IH]]; [exists []; reflexivity|].
  cbn [lstrip]. destruct (isspace c).
  - exists (c :: pre). cbn [app]. f_equal. exact IH.
  - exists []. reflexivity.
Qed.

Lemma rev_last (c : N) (t : str) :
  rev (c :: t) = last (c :: t) c :: rev (removelast (c :: t)).
Proof.
  rewrite (app_removelast_last c (l := c :: t)) at 1 by discriminate.
  rewrite rev_app_distr. reflexivity.
Qed.

Lemma trimmed_strip (t : str) : trimmed t = true -> strip t = t.
Proof.
  destruct t as [|c t]; [reflexivity|].
  cbn [trimmed]. intros H. apply andb_true_iff in H. destruct H as [H1 H2].
  apply negb_true_iff in H1, H2.
  unfold strip, rstrip. rewrite (lstrip_fixed c t H1).
  rewrite rev_last, (lstrip_fixed _ _ H2), <- rev_last.
  apply rev_involutive.
Qed.

Lemma strip_trimmed (s : str) : trimmed (strip s) = true.
Proof.
  unfold strip, rstrip.
  pose proof (lstrip_head s) as H1. set (t := lstrip s) in *.
  pose proof (lstrip_head (rev t)) as H2.
  destruct (lstrip_suffix (rev t)) as [pre E].
  set (w := lstrip (rev t)) in *.
  destruct w as [|x w]; [reflexivity|].
  assert (Et : t = rev (x :: w) ++ rev pre).
  { rewrite <- rev_app_distr, <- E. symmetry. apply rev_involutive. }
  destruct (rev (x :: w)) as [|c r] eqn:R.
  - apply (f_equal (@List.length N)) in R. rewrite length_rev in R.
    discriminate.
  - cbn [trimmed]. rewrite Et in H1. cbn [app] in H1. rewrite H1.
    cbn [negb andb].
    assert (L : last (c :: r) c = x).
    { rewrite <- R. cbn [rev]. apply last_last. }
    rewrite L, H2. reflexivity.
Qed.

Lemma strip_space (t : str) : strip (32%N :: t) = strip t.
Proof. reflexivity. Qed.

Lemma forallb_lstrip (P : N -> bool) (s : str) :
  forallb P s = true -> forallb P (lstrip s) = true.
Proof.
  induction s as [|c s IH]; [auto|]. intros H. cbn [lstrip].
  destruct (isspace c); [|exact H].
  cbn [forallb] in H. apply andb_true_iff in H. apply IH, H.
Qed.

Lemma forallb_rev (P : N -> bool) (s : str) :
  forallb P s = true -> forallb P (rev s) = true.
Proof.
  rewrite !forallb_forall. intros H x Hx. apply H, in_rev, Hx.
Qed.

Lemma forallb_strip (P : N -> bool) (s : str) :
  forallb P s = true -> forallb P (strip s) = true.
Proof.
  intros H. unfold strip, rstrip.
  apply forallb_rev, forallb_lstrip, forallb_rev, forallb_lstrip, H.
Qed.

Lemma split_not_nil (sep : N) (s : str) : split sep s <> [].
Proof.
  induction s as [|c s IH]; cbn [split]; [discriminate|].
  destruct (c =? sep)%N; [discriminate|].
  destruct (split sep s); [contradiction | discriminate].
Qed.

Lemma split_cons (sep c : N) (s : str) :
  (c =? sep)%N = false ->
  exists p ps, split sep s = p :: ps /\ split sep (c :: s) = (c :: p) :: ps.
Proof.
  intros H. cbn [split]. rewrite H.
  destruct (split sep s) as [|p ps] eqn:E.
  - destruct (split_not_nil sep s E).
  - exists p, ps. split; reflexivity.
Qed.

Lemma split_app (t rest : str) :
  no_comma t = true ->
  split 44 (t ++ 44%N :: rest) = t :: split 44 rest.
Proof.
  induction t as [|c t IH]; intros H; [reflexivity|].
  cbn [no_comma forallb] in H. apply andb_true_iff in H. destruct H as [H1 H2].
  apply negb_true_iff in H1. cbn [app split]. rewrite H1.
  fold (no_comma t) in H2. rewrite (IH H2). reflexivity.
Qed.

Lemma split_no_comma (t : str) : no_comma t = true -> split 44 t = [t].
Proof.
  induction t as [|c t IH]; intros H; [reflexivity|].
  cbn [no_comma forallb] in H. apply andb_true_iff in H. destruct H as [H1 H2].
  apply negb_true_iff in H1. cbn [split]. rewrite H1.
  fold (no_comma t) in H2. rewrite (IH H2). reflexivity.
Qed.

Lemma split_pieces (s : str) : forallb no_comma (split 44 s) = true.
Proof.
  induction s as [|c s IH]; [reflexivity|].
  cbn [split]. destruct (c =? 44)%N eqn:E.
  - cbn [forallb]. rewrite IH. reflexivity.
  - destruct (split 44 s) as [|p ps]; cbn [forallb no_comma] in *.
    + rewrite E. reflexivity.
    + rewrite E. exact IH.
Qed.

Lemma split_join (t : str) (tags : list str) :
  forallb no_comma (t :: tags) = true ->
  split 44 (join (u ", ") (t :: tags)) = t :: map (cons 32%N) tags.
Proof.
  revert t. induction tags as [|t2 tags IH]; intros t H.
  - cbn [forallb] in H. apply andb_true_iff in H. destruct H as [H _].
    cbn [join map]. apply split_no_comma, H.
  - cbn [forallb] in H. apply andb_true_iff in H. destruct H as [H1 H2].
    change (join (u ", ") (t :: t2 :: tags))
      with (t ++ 44%N :: 32%N :: join (u ", ") (t2 :: tags)).
    rewrite (split_app _ _ H1).
    destruct (split_cons 44 32 (join (u ", ") (t2 :: tags)) eq_refl)
      as (p & ps & E1 & E2).
    rewrite E2. rewrite (IH t2 H2) in E1. injection E1 as <- <-.
    reflexivity.
Qed.

Lemma clean_tag_facts (t : str) :
  clean_tag t = true -> t <> [] /\ trimmed t = true /\ no_comma t = true.
Proof.
  unfold clean_tag. intros H.
  apply andb_true_iff in H. destruct H as [H H3].
  apply andb_true_iff in H. destruct H as [H1 H2].
  repeat split; auto. intros ->. discriminate.
Qed.

Lemma tags_of_text_join (tags : list str) :
  forallb clean_tag tags = true ->
  tags_of_text (join (u ", ") tags) = tags.
Proof.
  intros H. destruct tags as [|t tags]; [reflexivity|].
  unfold tags_of_text. rewrite split_join.
  2:{ rewrite forallb_forall in *. intros x Hx.
      apply (clean_tag_facts x (H x Hx)). }
  cbn [forallb] in H. apply andb_true_iff in H. destruct H as [Ht H].
  destruct (clean_tag_facts t Ht) as (T1 & T2 & _).
  cbn [map filter]. rewrite (trimmed_strip t T2).
  destruct t as [|c t]; [contradiction|]. cbn [str_eqb negb]. f_equal.
  clear - H. induction tags as [|x tags IH]; [reflexivity|].
  cbn [forallb] in H. apply andb_true_iff in H. destruct H as [Hx H].
  destruct (clean_tag_facts x Hx) as (X1 & X2 & _).
  cbn [map filter]. rewrite strip_space, (trimmed_strip x X2).
  destruct x as [|c x]; [contradiction|]. cbn [str_eqb negb].
  f_equal. apply IH, H.
Qed.

Lemma tags_of_text_out (text : str) : forallb clean_tag (tags_of_text text) = true.
Proof.
  unfold tags_of_text. pose proof (split_pieces text) as H.
  induction (split 44 text) as [|p ps IH]; [reflexivity|].
  cbn [forallb] in H. apply andb_true_iff in H. destruct H as [Hp H].
  cbn [map filter]. destruct (str_eqb (strip p) []) eqn:E; cbn [negb].
  - apply IH, H.
  - cbn [forallb]. rewrite (IH H), andb_true_r.
    unfold clean_tag. rewrite E, strip_trimmed. cbn [negb andb].
    apply forallb_strip, Hp.
Qed.

Lemma mapM_strs (tags : list str) :
  mapM (fun x => match x with JStr s => Ok s | _ => Raise TypeError end)
       (map JStr tags) = Ok tags.
Proof.
  induction tags as [|t tags IH]; [reflexivity|].
  cbn [map mapM bind]. rewrite IH. reflexivity.
Qed.

(** X23.  Tags survive the tags box: a list of clean tags (not empty, no
    white space at the ends, no comma) is shown joined by [", "] and
    read back from that text as the same list. *)
Theorem tags_shown_and_stored (data : dict) (tags : list str) :
  dict_get (u "tags") data = Some (JList (map JStr tags)) ->
  forallb clean_tag tags = true ->
  exists text,
    tags_text (JDict data) = Ok text /\ tags_of_text text = tags.
Proof.
  intros Hd Hc. exists (join (u ", ") tags). split.
  - unfold tags_text, comma_join. cbn [py_get]. rewrite Hd.
    cbn [bind py_iter]. rewrite mapM_strs. reflexivity.
  - apply tags_of_text_join, Hc.
Qed.

Lemma tags_shown_and_stored_witness :
  exists text,
    tags_text (JDict [(u "tags", JList (map JStr [u "elf"; u "dark fantasy"]))])
    = Ok text /\
    tags_of_text text = [u "elf"; u "dark fantasy"].
Proof.
  apply (tags_shown_and_stored
           [(u "tags", JList (map JStr [u "elf"; u "dark fantasy"]))]
           [u "elf"; u "dark fantasy"]); reflexivity.
Defined.

(** X24.  Whatever is typed into the tags box, the tags stored are clean, so
    showing them and storing them again gives the same list. *)
Theorem tags_of_text_stable (text : str) :
  forallb clean_tag (tags_of_text text) = true /\
  tags_of_text (join (u ", ") (tags_of_text text)) = tags_of_text text.
Proof.
  split; [apply tags_of_text_out|]. apply tags_of_text_join, tags_of_text_out.
Qed.

Lemma split_length (s : str) :
  List.length (split 44 s) = S (count_occ N.eq_dec s 44%N).
Proof.
  induction s as [|c s IH]; [reflexivity|].
  cbn [split count_occ]. destruct (N.eq_dec c 44) as [->|Hc].
  - cbn [N.eqb Pos.eqb List.length]. rewrite IH. reflexivity.
  - apply N.eqb_neq in Hc. rewrite Hc.
    destruct (split 44 s) as [|p ps] eqn:E;
      [destruct (split_not_nil 44 s E)|].
    cbn [List.length] in *. exact IH.
Qed.

(** X25.  The keys boxes of an entry store one key more than the text has
    commas: the list is never empty, and an empty box stores the one
    key [""] rather than no key. *)
Theorem keys_of_text_length (text : str) :
  List.length (keys_of_text text) = S (count_occ N.eq_dec text 44%N).
Proof. unfold keys_of_text. rewrite length_map. apply split_length. Qed.

(** X26.  Keys survive the keys box when there is at least one: a list of
    keys without commas or white space at their ends is shown joined by
    [", "] and read back as the same list.  The empty list is the
    exception: its text is empty and is read back as the single key
    [""]. *)
Theorem keys_shown_and_stored (keys : list str) :
  forallb (fun t => trimmed t && no_comma t) keys = true ->
  keys_of_text (join (u ", ") keys)
  = match keys with [] => [[]] | _ :: _ => keys end.
Proof.
  intros H. destruct keys as [|t keys]; [reflexivity|].
  unfold keys_of_text. rewrite split_join.
  2:{ rewrite forallb_forall in *. intros x Hx.
      specialize (H x Hx). apply andb_true_iff in H. apply H. }
  cbn [forallb] in H. apply andb_true_iff in H. destruct H as [Ht H].
  apply andb_true_iff in Ht. destruct Ht as [T _].
  cbn [map]. rewrite (trimmed_strip t T). f_equal.
  clear - H. induction keys as [|x keys IH]; [reflexivity|].
  cbn [forallb] in H. apply andb_true_iff in H. destruct H as [Hx H].
  apply andb_true_iff in Hx. destruct Hx as [X _].
  cbn [map]. rewrite strip_space, (trimmed_strip x X).
  f_equal. apply IH, H.
Qed.

Lemma keys_shown_and_stored_witness :
  keys_of_text (join (u ", ") [u "sword"; []; u "old king"])
  = [u "sword"; []; u "old king"].
Proof.
  apply (keys_shown_and_stored [u "sword"; []; u "old king"]). reflexivity.
Defined.

(** ** The suggested file name *)

(** X27.  The suggested file name is a stem followed by [".png"], and every
    character of the stem is alphanumeric, an underscore or a hyphen:
    whatever the card's name holds, no path separator, dot or blank
    reaches the file name. *)
Theorem suggest_filename_from_name_chars
    (isalnum : N -> bool) (fullData : json) (file : str) :
  suggest_filename_from_name isalnum fullData = Ok file ->
  exists safe,
    file = safe ++ u ".png" /\
    forallb (fun c => isalnum c || (c =? 95)%N || (c =? 45)%N) safe = true.
Proof.
  unfold suggest_filename_from_name. intros H.
  destruct (py_getitem fullData (u "data")) as [data|]; [|discriminate].
  cbn [bind] in H.
  destruct (py_get data (u "name") (JStr [])) as [name|]; [|discriminate].
  cbn [bind] in H. destruct name as [| | | |name| |]; try discriminate.
  cbv zeta in H. injection H as <-. eexists. split; [reflexivity|].
  unfold replace_spaces. rewrite forallb_forall. intros c Hc.
  apply in_map_iff in Hc. destruct Hc as (c' & <- & Hc').
  destruct (c' =? 32)%N eqn:E32; [apply orb_true_iff; left;
                                  apply orb_true_iff; right; reflexivity|].
  assert (A : forallb (fun c => isalnum c || (c =? 32) || (c =? 95)
                                || (c =? 45))%N
                (strip (map (safe_char isalnum)
                          match strip name with
                          | [] => u "untitled_card"
                          | _ :: _ => strip name
                          end)) = true).
  { apply forallb_strip. rewrite forallb_forall. intros x Hx.
    apply in_map_iff in Hx. destruct Hx as (y & <- & _).
    unfold safe_char.
    destruct (isalnum y || (y =? 32) || (y =? 95) || (y =? 45))%N eqn:Ey;
      [exact Ey|].
    rewrite !orb_true_iff. left. right. reflexivity. }
  rewrite forallb_forall in A. specialize (A c' Hc').
  rewrite E32, orb_false_r in A. exact A.
Qed.

Lemma suggest_filename_from_name_chars_witness :
  exists safe,
    u "a_b_c.png" = safe ++ u ".png" /\
    forallb (fun c => ((97 <=? c) && (c <=? 122))%N
                      || (c =? 95)%N || (c =? 45)%N) safe = true.
Proof.
  apply (suggest_filename_from_name_chars
           (fun c => ((97 <=? c) && (c <=? 122))%N)
           (JDict [(u "data", JDict [(u "name", JStr (u " a/b c"))])])).
  reflexivity.
Defined.
